(** * Saucer: procedural universe, orbital groups, archive import, landing

    A shallow embedding of [main.py] and the properties of its world
    generation, import pipeline and flight state machine.

    Conventions of the embedding.
    - Python [float] values are idealised as real numbers ([R]); [int]
      values are [Z] and are injected with [IZR] where the source mixes
      them with floats.
    - Values coming out of [json.loads] keep their dynamic type ([pyval]);
      every operation the source applies to them raises the exception
      Python would raise on a value of the wrong type.
    - Text is ASCII ([string]).
    - Objects that the source compares or shares by identity (planets)
      carry an object identity [oid], allocated when the object is built.
    - The process-wide [random] generator, [hash] on chunk keys and
      [float] on text are library code; they are the fields of [PyEnv]. *)

From Stdlib Require Import ZArith Reals Lra Lia String Ascii List.
From stdpp Require Import base option list gmap.
Import ListNotations.

Set Warnings "-register-all".

Local Open Scope R_scope.

(** ** Exceptions and results *)

Inductive exn : Set :=
| AttributeError
| KeyError
| TypeError
| ValueError
| IndexError
| BadZipFile
| UnidentifiedImageError.

Inductive result (A : Type) : Type :=
| Ok (a : A)
| Raise (e : exn).
Arguments Ok {A} a.
Arguments Raise {A} e.

Definition is_ok {A} (r : result A) : Prop :=
  match r with Ok _ => True | Raise _ => False end.

(** A computation that reads and writes a state [S] and may raise.  As in
    Python, the state reached when an exception is raised is kept. *)
Definition M (S A : Type) : Type := S -> result A * S.

Definition ret {S A} (a : A) : M S A := fun s => (Ok a, s).
Definition raise {S A} (e : exn) : M S A := fun s => (Raise e, s).
Definition bind {S A B} (c : M S A) (k : A -> M S B) : M S B :=
  fun s => match c s with
           | (Ok a, s') => k a s'
           | (Raise e, s') => (Raise e, s')
           end.
Definition get {S} : M S S := fun s => (Ok s, s).
Definition modify {S} (f : S -> S) : M S unit := fun s => (Ok tt, f s).
Definition lift_result {S A} (r : result A) : M S A := fun s => (r, s).

(** [zoom] runs a computation on a component of the state. *)
Definition zoom {S T A} (proj : S -> T) (upd : T -> S -> S) (c : M T A) : M S A :=
  fun s => let (r, t) := c (proj s) in (r, upd t s).

Notation "'let*' x ':=' c 'in' k" := (bind c (fun x => k))
  (at level 10, x name, c at level 100, k at level 200).
Notation "c ';;' k" := (bind c (fun _ => k))
  (at level 100, k at level 200, right associativity).

(** The pure fragment: a result without state. *)
Definition rbind {A B} (r : result A) (k : A -> result B) : result B :=
  match r with Ok a => k a | Raise e => Raise e end.

Notation "'let+' x ':=' c 'in' k" := (rbind c (fun x => k))
  (at level 10, x name, c at level 100, k at level 200).

(** ** Vector and math helpers *)

Module Vec3.

Record t : Type := mk { x : R; y : R; z : R }.

Definition copy (v : t) : t := mk (x v) (y v) (z v).
Definition add (a v : t) : t := mk (x a + x v) (y a + y v) (z a + z v).
Definition sub (a v : t) : t := mk (x a - x v) (y a - y v) (z a - z v).
Definition mul (a : t) (scalar : R) : t :=
  mk (x a * scalar) (y a * scalar) (z a * scalar).
Definition mag (a : t) : R := sqrt (x a ^ 2 + y a ^ 2 + z a ^ 2).
Definition normalize (a : t) : t :=
  let m := mag a in
  if Rlt_dec 0 m then mk (x a / m) (y a / m) (z a / m) else mk 0 0 0.
Definition dist (a v : t) : R := mag (sub a v).

End Vec3.

(** Python's [%] on floats with a positive modulus: the result has the
    sign of the modulus. *)
Definition py_mod (a m : R) : R := a - m * IZR (Zfloor (a / m)).

Definition lerp (a b t : R) : R := a + (b - a) * t.

Definition lerp_angle (current target t : R) : R :=
  let diff := py_mod (target - current + 180) 360 - 180 in
  current + diff * t.

Definition radians (deg : R) : R := deg * PI / 180.

(** ** Dynamically typed values *)

Inductive pyval : Type :=
| PNone
| PBool (b : bool)
| PInt (n : Z)
| PFloat (r : R)
| PStr (s : string)
| PList (l : list pyval)
| PDict (d : list (string * pyval)).

Fixpoint assoc {A} (k : string) (d : list (string * A)) : option A :=
  match d with
  | [] => None
  | (k', v) :: d' => if String.eqb k k' then Some v else assoc k d'
  end.

(** [d.get(k, default)]: only a dict has the method. *)
Definition py_get (d : pyval) (k : string) (dflt : pyval) : result pyval :=
  match d with
  | PDict items => Ok (default dflt (assoc k items))
  | _ => Raise AttributeError
  end.

(** Numbers: [bool], [int] and [float] take part in arithmetic and
    ordering with a float; any other value raises [TypeError]. *)
Definition as_number (v : pyval) : option R :=
  match v with
  | PBool b => Some (if b then 1 else 0)
  | PInt n => Some (IZR n)
  | PFloat r => Some r
  | _ => None
  end.

Definition py_number (v : pyval) : result R :=
  match as_number v with Some r => Ok r | None => Raise TypeError end.

(** [v > r] for a float [r]. *)
Definition py_gt (v : pyval) (r : R) : result bool :=
  let+ a := py_number v in Ok (if Rlt_dec r a then true else false).

(** [v == 'text']: a value of another type is simply different. *)
Definition py_eq_str (v : pyval) (s : string) : bool :=
  match v with PStr s' => String.eqb s' s | _ => false end.

(** ** [int(text, 16)]

    The parser of CPython's [PyLong_FromString] at base 16: surrounding
    white space, an optional sign, an optional [0x] prefix, then hex
    digits separated by single underscores. *)

Definition is_space (c : ascii) : bool :=
  let n := nat_of_ascii c in
  ((9 <=? n)%nat && (n <=? 13)%nat) || (n =? 32)%nat.

Definition digit_value (c : ascii) : option Z :=
  let n := Z.of_nat (nat_of_ascii c) in
  if ((48 <=? n) && (n <=? 57))%Z then Some (n - 48)%Z
  else if ((97 <=? n) && (n <=? 102))%Z then Some (n - 87)%Z
  else if ((65 <=? n) && (n <=? 70))%Z then Some (n - 55)%Z
  else None.

Fixpoint skip_spaces (s : list ascii) : list ascii :=
  match s with
  | c :: s' => if is_space c then skip_spaces s' else s
  | [] => []
  end.

(** Digits and underscores; [prev_us] tells that the previous character
    was an underscore, [seen] that a digit was read.  [None] is the
    parser's error for a doubled or trailing underscore. *)
Fixpoint scan_digits (s : list ascii) (prev_us seen : bool) (acc : Z)
  : option (Z * bool * list ascii) :=
  match s with
  | c :: s' =>
      if Ascii.eqb c "_"%char then
        if prev_us then None else scan_digits s' true seen acc
      else
        match digit_value c with
        | Some d => scan_digits s' false true (acc * 16 + d)%Z
        | None => if prev_us then None else Some (acc, seen, s)
        end
  | [] => if prev_us then None else Some (acc, seen, [])
  end.

Definition strip_sign (s : list ascii) : Z * list ascii :=
  match s with
  | c :: s' =>
      if Ascii.eqb c "+"%char then (1%Z, s')
      else if Ascii.eqb c "-"%char then ((-1)%Z, s')
      else (1%Z, s)
  | [] => (1%Z, [])
  end.

Definition strip_prefix (s : list ascii) : list ascii :=
  match s with
  | c0 :: c1 :: s' =>
      if Ascii.eqb c0 "0"%char && (Ascii.eqb c1 "x"%char || Ascii.eqb c1 "X"%char)
      then match s' with
           | c2 :: s'' => if Ascii.eqb c2 "_"%char then s'' else s'
           | [] => s'
           end
      else s
  | _ => s
  end.

Definition starts_with_underscore (s : list ascii) : bool :=
  match s with c :: _ => Ascii.eqb c "_"%char | [] => false end.

Definition int16 (text : string) : result Z :=
  let (sign, s) := strip_sign (skip_spaces (list_ascii_of_string text)) in
  let s := strip_prefix s in
  if starts_with_underscore s then Raise ValueError
  else match scan_digits s false false 0%Z with
       | Some (n, true, rest) =>
           match skip_spaces rest with
           | [] => Ok (sign * n)%Z
           | _ :: _ => Raise ValueError
           end
       | _ => Raise ValueError
       end.

(** [int(v[start:start+2], 16)]: only text can be sliced and parsed. *)
Definition hex_pair (v : pyval) (start : nat) : result Z :=
  match v with
  | PStr s => int16 (substring start 2 s)
  | _ => Raise TypeError
  end.

(** ** Library code taken as given *)

Class PyEnv : Type := {
  (** the state of the process-wide [random] generator *)
  rng_state : Type;
  (** [random.seed(n)]: the state depends on [n] alone *)
  rng_seed : Z -> rng_state;
  (** [random.random()] *)
  rng_random : rng_state -> R * rng_state;
  (** [random.randint(a, b)] *)
  rng_randint : Z -> Z -> rng_state -> Z * rng_state;
  (** [hash((cx, cy, cz))] on a tuple of ints *)
  hash_chunk : Z * Z * Z -> Z;
  (** [float(text)]; [None] when the text is not a number *)
  float_of_str : string -> option R
}.

(** [float(v)] *)
Definition py_float `{PyEnv} (v : pyval) : result R :=
  match v with
  | PStr s => match float_of_str s with Some r => Ok r | None => Raise ValueError end
  | PBool _ | PInt _ | PFloat _ => py_number v
  | _ => Raise TypeError
  end.

(** What is shared by the whole process: the [random] generator and the
    counters that give planets and textures their identity. *)
Record Proc `{PyEnv} : Type := mkProc {
  rng : rng_state;
  next_oid : nat;
  next_texture : nat
}.
Arguments mkProc {_} _ _ _.

Definition seed `{PyEnv} (n : Z) : M Proc unit :=
  modify (fun p => mkProc (rng_seed n) (next_oid p) (next_texture p)).

Definition random `{PyEnv} : M Proc R :=
  fun p => let (r, g) := rng_random (rng p) in
           (Ok r, mkProc g (next_oid p) (next_texture p)).

Definition randint `{PyEnv} (a b : Z) : M Proc Z :=
  fun p => let (n, g) := rng_randint a b (rng p) in
           (Ok n, mkProc g (next_oid p) (next_texture p)).

Definition new_oid `{PyEnv} : M Proc nat :=
  fun p => (Ok (next_oid p), mkProc (rng p) (S (next_oid p)) (next_texture p)).

Definition glGenTextures `{PyEnv} : M Proc nat :=
  fun p => (Ok (next_texture p), mkProc (rng p) (next_oid p) (S (next_texture p))).

(** ** Archives

    An entry of a zip container, described by what its bytes are: JSON
    text (with the value it parses to), a nested zip container, a PNG
    image, no bytes at all, or anything else. *)
Inductive entry : Type :=
| EJson (j : pyval)
| EZip (files : list (string * entry))
| EPng
| EEmpty
| EOther.

Definition archive : Type := list (string * entry).

(** [name in z.namelist()] *)
Definition has_file (z : archive) (name : string) : bool :=
  match assoc name z with Some _ => true | None => false end.

(** [z.read(name)] *)
Definition zread (z : archive) (name : string) : result entry :=
  match assoc name z with Some e => Ok e | None => Raise KeyError end.

(** [json.loads(bytes.decode())]; decoding and parsing errors are
    [ValueError]s. *)
Definition json_loads (e : entry) : result pyval :=
  match e with EJson j => Ok j | _ => Raise ValueError end.

(** [zipfile.ZipFile(BytesIO(bytes))] *)
Definition open_zip (e : entry) : result archive :=
  match e with EZip files => Ok files | _ => Raise BadZipFile end.

(** Truth value of a [bytes] object. *)
Definition nonempty (e : entry) : bool :=
  match e with EEmpty => false | _ => true end.

Local Open Scope string_scope.
Local Open Scope list_scope.

(** ** Planets *)

Module Planet.

Record t : Type := mk {
  oid : nat;                 (* identity of the object *)
  pos : Vec3.t;
  data : pyval;
  name : pyval;
  type : pyval;
  radius : R;
  orbitDistance : pyval;
  orbitSpeed : pyval;
  orbitAngle : R;
  parent : option nat;       (* reference to the parent, by identity *)
  color : R * R * R;
  texture_id : option nat;
  hasRings : pyval;
  ringDiameter : R;
  ringColorInner : pyval;
  ringColorOuter : pyval
}.

Definition set_pos (v : Vec3.t) (p : t) : t :=
  mk (oid p) v (data p) (name p) (type p) (radius p) (orbitDistance p)
     (orbitSpeed p) (orbitAngle p) (parent p) (color p) (texture_id p)
     (hasRings p) (ringDiameter p) (ringColorInner p) (ringColorOuter p).

Definition set_orbitAngle (a : R) (p : t) : t :=
  mk (oid p) (pos p) (data p) (name p) (type p) (radius p) (orbitDistance p)
     (orbitSpeed p) a (parent p) (color p) (texture_id p)
     (hasRings p) (ringDiameter p) (ringColorInner p) (ringColorOuter p).

Definition set_orbit (d s : pyval) (p : t) : t :=
  mk (oid p) (pos p) (data p) (name p) (type p) (radius p) d
     s (orbitAngle p) (parent p) (color p) (texture_id p)
     (hasRings p) (ringDiameter p) (ringColorInner p) (ringColorOuter p).

Definition set_parent (q : option nat) (p : t) : t :=
  mk (oid p) (pos p) (data p) (name p) (type p) (radius p) (orbitDistance p)
     (orbitSpeed p) (orbitAngle p) q (color p) (texture_id p)
     (hasRings p) (ringDiameter p) (ringColorInner p) (ringColorOuter p).

(** [load_texture]: the image is decoded and uploaded; bytes that are
    not an image make the decoder raise. *)
Definition load_texture `{PyEnv} (png_bytes : entry) : M Proc nat :=
  match png_bytes with
  | EPng => glGenTextures
  | _ => raise UnidentifiedImageError
  end.

(** The colour decoded from [ocean_hex]. *)
Definition decode_color (ocean_hex : pyval) : result (R * R * R) :=
  let+ r := hex_pair ocean_hex 1 in
  let+ g := hex_pair ocean_hex 3 in
  let+ b := hex_pair ocean_hex 5 in
  Ok (IZR r / 255, IZR g / 255, IZR b / 255).

Definition __init__ `{PyEnv} (pos : Vec3.t) (data : pyval)
    (heightmap_bytes : option entry) : M Proc t :=
  let* self := new_oid in
  let* name := lift_result (py_get data "seed" (PStr "Unknown")) in
  let* type := lift_result (py_get data "type" (PStr "planet")) in
  let* params := lift_result (py_get data "params" (PDict [])) in
  let* radius_v := lift_result (py_get params "radius" (PInt 100)) in
  let* radius := lift_result (py_float radius_v) in
  let* orbitDistance := lift_result (py_get data "orbitDistance" (PInt 0)) in
  let* orbitSpeed := lift_result (py_get data "orbitSpeed" (PFloat 0.2)) in
  let* u := random in
  let orbitAngle := u * PI * 2 in
  (* Color fallback *)
  let* c := lift_result (py_get data "colors" (PDict [])) in
  let* ocean_hex := lift_result (py_get c "ocean" (PStr "#4488ff")) in
  let* color := lift_result (decode_color ocean_hex) in
  let* texture_id :=
    match heightmap_bytes with
    | Some bytes =>
        if nonempty bytes
        then let* id := load_texture bytes in ret (Some id)
        else ret None
    | None => ret None
    end in
  (* Rings *)
  let* params := lift_result (py_get data "params" (PDict [])) in
  let* hasRings := lift_result (py_get params "enableRings" (PBool false)) in
  let* ring_v := lift_result (py_get params "ringDiameter" (PFloat 1.8)) in
  let* ringDiameter := lift_result (py_float ring_v) in
  let* ringColorInner := lift_result (py_get params "ringColorInner" (PStr "#FFD700")) in
  let* ringColorOuter := lift_result (py_get params "ringColorOuter" (PStr "#DAA520")) in
  ret (mk self pos data name type radius orbitDistance orbitSpeed orbitAngle
          None color texture_id hasRings ringDiameter ringColorInner
          ringColorOuter).

(** [update_orbit]: only the [x] and [z] components of the position
    are assigned. *)
Definition update_orbit (dt : R) (parent_pos : Vec3.t) (self : t) : result t :=
  let+ far := py_gt (orbitDistance self) 0.1 in
  if far && bool_decide (is_Some (parent self)) then
    let+ speed := py_number (orbitSpeed self) in
    let+ distance := py_number (orbitDistance self) in
    let angle := orbitAngle self + speed * dt * 0.3 in
    Ok (set_pos (Vec3.mk (Vec3.x parent_pos + cos angle * distance)
                         (Vec3.y (pos self))
                         (Vec3.z parent_pos + sin angle * distance))
                (set_orbitAngle angle self))
  else Ok self.

End Planet.

(** ** Solar System Container *)

Module SolarSystem.

Record t : Type := mk {
  name : pyval;
  bodies : list Planet.t;
  center_pos : Vec3.t
}.

Definition __init__ (name : pyval) : t := mk name [] (Vec3.mk 0 0 0).

Definition set_center_pos (v : Vec3.t) (self : t) : t :=
  mk (name self) (bodies self) v.

Definition set_bodies (l : list Planet.t) (self : t) : t :=
  mk (name self) l (center_pos self).

Definition add_body (self : t) (body : Planet.t) : t :=
  let self := set_bodies (bodies self ++ [body]) self in
  if py_eq_str (Planet.type body) "sun"
  then set_center_pos (Vec3.copy (Planet.pos body)) self
  else self.

(** [next((p for p in self.bodies if p == b.parent), None)]: planets
    are compared by identity. *)
Definition find_body (self : t) (ref : nat) : option Planet.t :=
  List.find (fun p => Nat.eqb (Planet.oid p) ref) (bodies self).

(** One iteration of the loop of [update], on the body at index [i]. *)
Definition update_body (dt : R) (self : t) (i : nat) : result t :=
  match bodies self !! i with
  | Some b =>
      match Planet.parent b with
      | Some ref =>
          let parent_pos :=
            match find_body self ref with
            | Some parent => Planet.pos parent
            | None => center_pos self
            end in
          let+ b' := Planet.update_orbit dt parent_pos b in
          Ok (set_bodies (<[i := b']> (bodies self)) self)
      | None => Ok self
      end
  | None => Ok self
  end.

Fixpoint update_loop (dt : R) (self : t) (indices : list nat) : result t :=
  match indices with
  | [] => Ok self
  | i :: rest => let+ self' := update_body dt self i in update_loop dt self' rest
  end.

(** [update]: the bodies are visited in list order and moved in place,
    so a body sees the position its parent has at that moment. *)
Definition update (dt : R) (self : t) : result t :=
  update_loop dt self (seq 0 (length (bodies self))).

End SolarSystem.

(** ** Procedural Universe *)

Abbreviation chunk := (Z * Z * Z)%type (only parsing).

Module Universe.

Record t : Type := mk {
  chunk_size : Z;
  planets : gmap (Z * Z * Z) (list Planet.t);
  (** Ghost field, absent from the source: the coordinates whose bodies
      were generated, latest first.  It only records; nothing reads it. *)
  generated : list chunk
}.

Definition __init__ : t := mk 2000 ∅ [].

(** The universe together with the process state its methods use. *)
Definition state `{PyEnv} : Type := (t * Proc)%type.

Definition with_proc `{PyEnv} {A} (c : M Proc A) : M state A :=
  zoom snd (fun p s => (fst s, p)) c.

(** [int(v // size)] *)
Definition floordiv (v : R) (size : Z) : Z := Zfloor (v / IZR size).

Definition get_chunk (self : t) (pos : Vec3.t) : chunk :=
  (floordiv (Vec3.x pos) (chunk_size self),
   floordiv (Vec3.y pos) (chunk_size self),
   floordiv (Vec3.z pos) (chunk_size self)).

Definition proc_data (radius : Z) : pyval :=
  PDict [("seed", PStr "proc");
         ("params", PDict [("radius", PInt radius)]);
         ("colors", PDict [("ocean", PStr "#4488ff")])].

(** The body of [for _ in range(num_planets)], once. *)
Definition generate_planet `{PyEnv} (size cx cy cz : Z) : M Proc Planet.t :=
  let* rx := randint 0 size in
  let px := (cx * size + rx)%Z in
  let* ry := randint 0 size in
  let py := (cy * size + ry)%Z in
  let* rz := randint 0 size in
  let pz := (cz * size + rz)%Z in
  let* radius := randint 80 250 in
  let* c1 := random in
  let* c2 := random in
  let* c3 := random in
  let color := (c1, c2, c3) in
  Planet.__init__ (Vec3.mk (IZR px) (IZR py) (IZR pz)) (proc_data radius) None.

Fixpoint generate_planets `{PyEnv} (n : nat) (size cx cy cz : Z)
    (chunk_planets : list Planet.t) : M Proc (list Planet.t) :=
  match n with
  | O => ret chunk_planets
  | S n' =>
      let* p := generate_planet size cx cy cz in
      generate_planets n' size cx cy cz (chunk_planets ++ [p])
  end.

Definition generate_chunk `{PyEnv} (cx cy cz : Z) : M state unit :=
  let chunk_key := (cx, cy, cz) in
  let* s := get in
  let self := fst s in
  match planets self !! chunk_key with
  | Some _ => ret tt
  | None =>
      with_proc (seed (hash_chunk chunk_key)) ;;
      let* num_planets := with_proc (randint 0 2) in
      let* chunk_planets :=
        with_proc (generate_planets (Z.to_nat num_planets)
                     (chunk_size self) cx cy cz []) in
      modify (fun s : state =>
                (mk (chunk_size (fst s))
                    (<[chunk_key := chunk_planets]> (planets (fst s)))
                    (chunk_key :: generated (fst s)),
                 snd s))
  end.

(** The coordinates visited by the three nested loops, in order. *)
Definition neighbours (c : chunk) : list chunk :=
  let '(cx, cy, cz) := c in
  x ← [cx - 1; cx; cx + 1]%Z;
  y ← [cy - 1; cy; cy + 1]%Z;
  z ← [cz - 1; cz; cz + 1]%Z;
  [(x, y, z)].

Fixpoint visit `{PyEnv} (coords : list chunk) (active : list Planet.t)
    : M state (list Planet.t) :=
  match coords with
  | [] => ret active
  | (x, y, z) :: rest =>
      generate_chunk x y z ;;
      let* s := get in
      match planets (fst s) !! (x, y, z) with
      | Some l => visit rest (active ++ l)
      | None => raise KeyError
      end
  end.

Definition get_active_planets `{PyEnv} (player_pos : Vec3.t)
    : M state (list Planet.t) :=
  let* s := get in
  visit (neighbours (get_chunk (fst s) player_pos)) [].

End Universe.

(** ** Player *)

Inductive key : Set :=
| K_w | K_s | K_a | K_d | K_LEFT | K_RIGHT | K_SPACE | K_LCTRL | K_c.

(** The texts assigned to [ui_message], by the statement that builds
    them; a name is the value interpolated in the text. *)
Inductive message : Type :=
| MsgControls
| MsgLanded (name : pyval)
| MsgTooFast
| MsgUnknownFormat
| MsgLoadError (e : exn)
| MsgLoadedPlanet (name : pyval)
| MsgLoadedSystem (name : pyval)
| MsgLoadedGalaxy (name : pyval).

Module Saucer.

Record t : Type := mk {
  pos : Vec3.t;
  vel : Vec3.t;
  yaw : R;
  pitch : R;
  speed : R;
  max_speed : R;
  cam_yaw : R;
  cam_pitch : R;
  cam_dist : R;
  landed_on : option Planet.t;
  ui_message : message
}.

Definition __init__ : t :=
  mk (Vec3.mk 0 150 0) (Vec3.mk 0 0 0) 0 0 0 42 180 18 52 None MsgControls.

Definition set_pos (v : Vec3.t) (s : t) : t :=
  mk v (vel s) (yaw s) (pitch s) (speed s) (max_speed s) (cam_yaw s)
     (cam_pitch s) (cam_dist s) (landed_on s) (ui_message s).
Definition set_vel (v : Vec3.t) (s : t) : t :=
  mk (pos s) v (yaw s) (pitch s) (speed s) (max_speed s) (cam_yaw s)
     (cam_pitch s) (cam_dist s) (landed_on s) (ui_message s).
Definition set_yaw (a : R) (s : t) : t :=
  mk (pos s) (vel s) a (pitch s) (speed s) (max_speed s) (cam_yaw s)
     (cam_pitch s) (cam_dist s) (landed_on s) (ui_message s).
Definition set_pitch (a : R) (s : t) : t :=
  mk (pos s) (vel s) (yaw s) a (speed s) (max_speed s) (cam_yaw s)
     (cam_pitch s) (cam_dist s) (landed_on s) (ui_message s).
Definition set_speed (a : R) (s : t) : t :=
  mk (pos s) (vel s) (yaw s) (pitch s) a (max_speed s) (cam_yaw s)
     (cam_pitch s) (cam_dist s) (landed_on s) (ui_message s).
Definition set_cam (cy cp : R) (s : t) : t :=
  mk (pos s) (vel s) (yaw s) (pitch s) (speed s) (max_speed s) cy
     cp (cam_dist s) (landed_on s) (ui_message s).
Definition set_landed_on (p : option Planet.t) (s : t) : t :=
  mk (pos s) (vel s) (yaw s) (pitch s) (speed s) (max_speed s) (cam_yaw s)
     (cam_pitch s) (cam_dist s) p (ui_message s).
Definition set_ui_message (m : message) (s : t) : t :=
  mk (pos s) (vel s) (yaw s) (pitch s) (speed s) (max_speed s) (cam_yaw s)
     (cam_pitch s) (cam_dist s) (landed_on s) m.

Definition get_forward_vector (self : t) : Vec3.t :=
  let rad_yaw := radians (yaw self) in
  let rad_pitch := radians (pitch self) in
  let fx := sin rad_yaw * cos rad_pitch in
  let fy := - sin rad_pitch in
  let fz := - cos rad_yaw * cos rad_pitch in
  Vec3.mk fx fy fz.

(** [update] while flying, statement by statement.  W/S thrust: *)
Definition thrust (self : t) (keys : key -> bool) : t :=
  if keys K_w then set_speed (speed self + 0.85) self
  else if keys K_s then set_speed (speed self - 0.95) self
  else set_speed (speed self * 0.96) self.

Definition clamp_speed (self : t) : t :=
  set_speed (Rmax (-15) (Rmin (speed self) (max_speed self))) self.

Definition turn_left (self : t) (keys : key -> bool) : t :=
  if keys K_a || keys K_LEFT then set_yaw (yaw self + 3.2) self else self.

Definition turn_right (self : t) (keys : key -> bool) : t :=
  if keys K_d || keys K_RIGHT then set_yaw (yaw self - 3.2) self else self.

Definition ascend (self : t) (keys : key -> bool) : t :=
  if keys K_SPACE
  then set_pos (Vec3.mk (Vec3.x (pos self)) (Vec3.y (pos self) + 2.5)
                        (Vec3.z (pos self))) self
  else self.

Definition descend (self : t) (keys : key -> bool) : t :=
  if keys K_LCTRL || keys K_c
  then set_pos (Vec3.mk (Vec3.x (pos self)) (Vec3.y (pos self) - 2.5)
                        (Vec3.z (pos self))) self
  else self.

Definition tilt (self : t) (wheel_delta : Z) : t :=
  set_pitch (pitch self - IZR wheel_delta * 4.5) self.

Definition clamp_pitch (self : t) : t :=
  set_pitch (Rmax (-78) (Rmin 78 (pitch self))) self.

Definition set_velocity (self : t) : t :=
  let forward := get_forward_vector self in
  set_vel (Vec3.mul forward (speed self)) self.

Definition move (self : t) : t :=
  set_pos (Vec3.add (pos self) (vel self)) self.

(** GTA Camera *)
Definition camera (self : t) (mouse_dx mouse_dy : Z) (right_held : bool) : t :=
  if right_held then
    let cy := cam_yaw self + IZR mouse_dx * 0.28 in
    let cp := cam_pitch self - IZR mouse_dy * 0.26 in
    set_cam cy (Rmax (-68) (Rmin 68 cp)) self
  else
    let target_yaw := yaw self + 180 in
    set_cam (lerp_angle (cam_yaw self) target_yaw 0.12)
            (lerp (cam_pitch self) 18 0.09) self.

(** The statements of [update] while flying, in order, up to the
    landing loop. *)
Definition fly (self : t) (keys : key -> bool) (mouse_dx mouse_dy : Z)
    (right_held : bool) (wheel_delta : Z) : t :=
  camera
    (move
       (set_velocity
          (clamp_pitch
             (tilt
                (descend
                   (ascend
                      (turn_right
                         (turn_left (clamp_speed (thrust self keys)) keys)
                         keys)
                      keys)
                   keys)
                wheel_delta))))
    mouse_dx mouse_dy right_held.

(** The body of the loop [for p in planets]. *)
Definition collide (self : t) (p : Planet.t) : t :=
  let dist := Vec3.dist (pos self) (Planet.pos p) in
  if Rlt_dec dist (Planet.radius p + 23) then
    if Rlt_dec (Rabs (speed self)) 11 then
      let self := set_landed_on (Some p) self in
      let self := set_speed 0 self in
      let self := set_vel (Vec3.mk 0 0 0) self in
      let direction := Vec3.normalize (Vec3.sub (pos self) (Planet.pos p)) in
      let self :=
        set_pos (Vec3.add (Planet.pos p)
                          (Vec3.mul direction (Planet.radius p + 7))) self in
      set_pitch (-82) self
    else
      let self := set_ui_message MsgTooFast self in
      let self := set_pos (Vec3.sub (pos self) (Vec3.mul (vel self) 2)) self in
      set_speed (speed self * 0.3) self
  else self.

Definition update (self : t) (keys : key -> bool) (planets : list Planet.t)
    (mouse_dx mouse_dy : Z) (right_held : bool) (wheel_delta : Z) : t :=
  match landed_on self with
  | Some body =>
      let self := set_ui_message (MsgLanded (Planet.name body)) self in
      if keys K_SPACE then
        let self := set_landed_on None self in
        let self := set_speed 10 self in
        set_vel (Vec3.mul (get_forward_vector self) (speed self)) self
      else self
  | None =>
      (* Landing / Collisions *)
      fold_left collide planets
                (fly self keys mouse_dx mouse_dy right_held wheel_delta)
  end.

End Saucer.

(** ** Load Editor ZIPs *)

(** The module-level state the loaders work on: the player, the live
    list [custom_systems] and the process state. *)
Record World `{PyEnv} : Type := mkWorld {
  player : Saucer.t;
  custom_systems : list SolarSystem.t;
  proc : Proc
}.
Arguments mkWorld {_} _ _ _.

Definition with_proc `{PyEnv} {A} (c : M Proc A) : M World A :=
  zoom proc (fun p w => mkWorld (player w) (custom_systems w) p) c.

Definition set_ui_message `{PyEnv} (m : message) : M World unit :=
  modify (fun w => mkWorld (Saucer.set_ui_message m (player w))
                           (custom_systems w) (proc w)).

(** [custom_systems.append(sys)] *)
Definition publish `{PyEnv} (sys : SolarSystem.t) : M World unit :=
  modify (fun w => mkWorld (player w) (custom_systems w ++ [sys]) (proc w)).

Definition player_pos `{PyEnv} : M World Vec3.t :=
  let* w := get in ret (Saucer.pos (player w)).

Definition try_except {S A} (c : M S A) (handler : exn -> M S A) : M S A :=
  fun s => match c s with
           | (Ok a, s') => (Ok a, s')
           | (Raise e, s') => handler e s'
           end.

(** [v[k]] for a text key: only a dict can be indexed by text. *)
Definition py_item (v : pyval) (k : string) : result pyval :=
  match v with
  | PDict items =>
      match assoc k items with Some x => Ok x | None => Raise KeyError end
  | _ => Raise TypeError
  end.

Fixpoint chars (s : string) : list pyval :=
  match s with
  | EmptyString => []
  | String c s' => PStr (String c EmptyString) :: chars s'
  end.

(** The items a [for] loop draws from a value. *)
Definition py_iter (v : pyval) : result (list pyval) :=
  match v with
  | PList l => Ok l
  | PStr s => Ok (chars s)
  | PDict items => Ok (map (fun kv => PStr (fst kv)) items)
  | _ => Raise TypeError
  end.

(** [v[:4]] *)
Definition py_first4 (v : pyval) : result pyval :=
  match v with
  | PList l => Ok (PList (take 4 l))
  | PStr s => Ok (PStr (substring 0 4 s))
  | _ => Raise TypeError
  end.

(** [v in z.namelist()] *)
Definition in_namelist (z : archive) (v : pyval) : bool :=
  match v with PStr s => has_file z s | _ => false end.

(** [z.read(v)] for a value found in the name list. *)
Definition zread_val (z : archive) (v : pyval) : result entry :=
  match v with PStr s => zread z s | _ => Raise KeyError end.

(** [z.read("heightmap.png") if "heightmap.png" in z.namelist() else None] *)
Definition read_heightmap (z : archive) : result (option entry) :=
  if has_file z "heightmap.png"
  then let+ b := zread z "heightmap.png" in Ok (Some b)
  else Ok None.

(** [centre.add(Vec3(v, 0, 0))] for a manifest value [v]. *)
Definition offset_x (centre : Vec3.t) (v : pyval) : result Vec3.t :=
  let+ d := py_number v in Ok (Vec3.add centre (Vec3.mk d 0 0)).

(** [l[i]] on a list, for an index that is an [int]. *)
Definition list_index {A} (l : list A) (i : Z) : result A :=
  let n := Z.of_nat (length l) in
  let j := if (i <? 0)%Z then (i + n)%Z else i in
  if ((0 <=? j) && (j <? n))%Z
  then match l !! Z.to_nat j with Some a => Ok a | None => Raise IndexError end
  else Raise IndexError.

(** The statement
    [if info.get('parentId') is not None and info['parentId'] < len(sys.bodies):
         planet.parent = sys.bodies[info['parentId']]]. *)
Definition resolve_parent (info : pyval) (sys : SolarSystem.t)
    (planet : Planet.t) : result Planet.t :=
  let+ ref := py_get info "parentId" PNone in
  match ref with
  | PNone => Ok planet
  | _ =>
      let+ ref := py_item info "parentId" in
      let+ r := py_number ref in
      if Rlt_dec r (INR (length (SolarSystem.bodies sys))) then
        match ref with
        | PInt i =>
            let+ q := list_index (SolarSystem.bodies sys) i in
            Ok (Planet.set_parent (Some (Planet.oid q)) planet)
        | PBool b =>
            let+ q := list_index (SolarSystem.bodies sys) (if b then 1 else 0)%Z in
            Ok (Planet.set_parent (Some (Planet.oid q)) planet)
        | _ => Raise TypeError
        end
      else Ok planet
  end.

Definition load_single_planet `{PyEnv} (zip_obj : archive) : M World unit :=
  let* raw := lift_result (zread zip_obj "planet_data.json") in
  let* data := lift_result (json_loads raw) in
  let* heightmap_bytes := lift_result (read_heightmap zip_obj) in
  let* base := player_pos in
  let* dx := with_proc (randint 800 1400) in
  let* dy := with_proc (randint 80 300) in
  let* dz := with_proc (randint 800 1400) in
  let p := Vec3.add base (Vec3.mk (IZR dx) (IZR dy) (IZR dz)) in
  let* planet := with_proc (Planet.__init__ p data heightmap_bytes) in
  let sys := SolarSystem.__init__ (Planet.name planet) in
  let sys := SolarSystem.add_body sys planet in
  publish sys ;;
  set_ui_message (MsgLoadedPlanet (Planet.name planet)).

(** The body of the loop of [load_solar_system], for one [info]. *)
Definition load_body `{PyEnv} (zip_obj : archive) (sys : SolarSystem.t)
    (info : pyval) : M World SolarSystem.t :=
  let* file := lift_result (py_item info "file") in
  if in_namelist zip_obj file then
    let* nested := lift_result (zread_val zip_obj file) in
    let* body_zip := lift_result (open_zip nested) in
    let* raw := lift_result (zread body_zip "planet_data.json") in
    let* data := lift_result (json_loads raw) in
    let* h_bytes := lift_result (read_heightmap body_zip) in
    let* d := lift_result (py_get info "orbitDistance" (PInt 300)) in
    let* pos := lift_result (offset_x (SolarSystem.center_pos sys) d) in
    let* planet := with_proc (Planet.__init__ pos data h_bytes) in
    let* od := lift_result (py_get info "orbitDistance" (PInt 0)) in
    let* os := lift_result (py_get info "orbitSpeed" (PFloat 0.2)) in
    let planet := Planet.set_orbit od os planet in
    (* Simple parent (by order) *)
    let* planet := lift_result (resolve_parent info sys planet) in
    ret (SolarSystem.add_body sys planet)
  else ret sys.

Fixpoint load_bodies `{PyEnv} (zip_obj : archive) (sys : SolarSystem.t)
    (infos : list pyval) : M World SolarSystem.t :=
  match infos with
  | [] => ret sys
  | info :: rest =>
      let* sys := load_body zip_obj sys info in
      load_bodies zip_obj sys rest
  end.

Definition load_solar_system `{PyEnv} (zip_obj : archive) : M World unit :=
  let* raw := lift_result (zread zip_obj "system_data.json") in
  let* manifest := lift_result (json_loads raw) in
  let* name := lift_result (py_get manifest "name" (PStr "Imported System")) in
  let sys := SolarSystem.__init__ name in
  let* base := player_pos in
  let sys := SolarSystem.set_center_pos (Vec3.copy base) sys in
  let* bodies := lift_result (py_get manifest "bodies" (PList [])) in
  let* infos := lift_result (py_iter bodies) in
  let* sys := load_bodies zip_obj sys infos in
  publish sys ;;
  set_ui_message (MsgLoadedSystem (SolarSystem.name sys)).

(** The body of the inner loop of [load_galaxy], for one [body_data]. *)
Definition galaxy_body `{PyEnv} (sys : SolarSystem.t) (body_data : pyval)
    : M World SolarSystem.t :=
  let* d := lift_result (py_get body_data "orbitDistance" (PInt 0)) in
  let* pos := lift_result (offset_x (SolarSystem.center_pos sys) d) in
  let* planet := with_proc (Planet.__init__ pos body_data None) in
  let* od := lift_result (py_get body_data "orbitDistance" (PInt 0)) in
  let* os := lift_result (py_get body_data "orbitSpeed" (PFloat 0.2)) in
  let planet := Planet.set_orbit od os planet in
  ret (SolarSystem.add_body sys planet).

Fixpoint galaxy_bodies `{PyEnv} (sys : SolarSystem.t) (items : list pyval)
    : M World SolarSystem.t :=
  match items with
  | [] => ret sys
  | body_data :: rest =>
      let* sys := galaxy_body sys body_data in
      galaxy_bodies sys rest
  end.

(** The body of the outer loop of [load_galaxy] up to, and without, the
    final [custom_systems.append(sys)]. *)
Definition galaxy_system `{PyEnv} (sys_data : pyval) : M World SolarSystem.t :=
  let* name := lift_result (py_get sys_data "name" (PStr "Galaxy System")) in
  let sys := SolarSystem.__init__ name in
  let* base := player_pos in
  let* dx := with_proc (randint (-2000) 2000) in
  let* dz := with_proc (randint (-2000) 2000) in
  let sys :=
    SolarSystem.set_center_pos (Vec3.add base (Vec3.mk (IZR dx) 0 (IZR dz))) sys in
  let* bodies := lift_result (py_get sys_data "bodies" (PList [])) in
  let* items := lift_result (py_iter bodies) in
  galaxy_bodies sys items.

Fixpoint galaxy_systems `{PyEnv} (descriptors : list pyval) : M World unit :=
  match descriptors with
  | [] => ret tt
  | sys_data :: rest =>
      let* sys := galaxy_system sys_data in
      publish sys ;;
      galaxy_systems rest
  end.

Definition load_galaxy `{PyEnv} (zip_obj : archive) : M World unit :=
  let* raw := lift_result (zread zip_obj "galaxy_data.json") in
  let* galaxy := lift_result (json_loads raw) in
  let* systems := lift_result (py_get galaxy "systems" (PList [])) in
  (* limit for performance *)
  let* first := lift_result (py_first4 systems) in
  let* descriptors := lift_result (py_iter first) in
  galaxy_systems descriptors ;;
  let* name := lift_result (py_get galaxy "name" (PStr "Galaxy")) in
  set_ui_message (MsgLoadedGalaxy name).

(** What the file dialog hands over: nothing when it is cancelled, else
    the bytes of the chosen file. *)
Definition load_editor_zip `{PyEnv} (file_path : option entry) : M World unit :=
  match file_path with
  | None => ret tt
  | Some file =>
      try_except
        (let* z := lift_result (open_zip file) in
         if has_file z "galaxy_data.json" then load_galaxy z
         else if has_file z "system_data.json" then load_solar_system z
         else if has_file z "planet_data.json" then load_single_planet z
         else set_ui_message MsgUnknownFormat)
        (fun e => set_ui_message (MsgLoadError e))
  end.

(** ** Fixtures for concrete runs *)

(** A small deterministic stand-in for the library: a linear congruential
    generator, a polynomial hash, and [float] accepting no text. *)
Definition lcg (g : Z) : Z := ((g * 1103515245 + 12345) mod 2147483648)%Z.

Definition demo_env : PyEnv := {|
  rng_state := Z;
  rng_seed := fun n => n;
  rng_random := fun g => (IZR (g mod 1000) / 1000, lcg g);
  rng_randint := fun a b g => ((a + g mod (b - a + 1))%Z, lcg g);
  hash_chunk := fun '(cx, cy, cz) => (cx * 73856093 + cy * 19349663 + cz * 83492791)%Z;
  float_of_str := fun _ => None
|}.

(** A planet object given directly by identity, position and type. *)
Definition body_at (id : nat) (pos : Vec3.t) (type : string) (radius : R)
  : Planet.t :=
  Planet.mk id pos (PDict []) (PStr "body") (PStr type) radius (PInt 0)
            (PFloat 0.2) 0 None (68 / 255, 136 / 255, 255 / 255) None
            (PBool false) 1.8 (PStr "#FFD700") (PStr "#DAA520").

(** ** Properties of the specification *)

Definition is_sun (body : Planet.t) : bool := py_eq_str (Planet.type body) "sun".

(** The cell of a chunk coordinate: on each axis the half-open interval
    from [c * size] to [(c + 1) * size]. *)
Definition in_cell_axis (size c : Z) (v : R) : Prop :=
  IZR c * IZR size <= v < (IZR c + 1) * IZR size.

Definition in_cell (u : Universe.t) (c : chunk) (p : Vec3.t) : Prop :=
  let '(cx, cy, cz) := c in
  in_cell_axis (Universe.chunk_size u) cx (Vec3.x p) /\
  in_cell_axis (Universe.chunk_size u) cy (Vec3.y p) /\
  in_cell_axis (Universe.chunk_size u) cz (Vec3.z p).

(** What generation decides about a body: where it is, how large, and
    its colour. *)
Definition look (body : Planet.t) : Vec3.t * R * (R * R * R) :=
  (Planet.pos body, Planet.radius body, Planet.color body).

(** A run of the tick loop as far as the universe is concerned: one
    [get_active_planets] call per observer position, in turn. *)
Fixpoint queries `{PyEnv} (positions : list Vec3.t)
    : M Universe.state (list (list Planet.t)) :=
  match positions with
  | [] => ret []
  | pos :: rest =>
      let* active := Universe.get_active_planets pos in
      let* others := queries rest in
      ret (active :: others)
  end.

(** The history of generation matches the cache: the coordinates
    generated so far are exactly the cached ones, each listed once. *)
Definition consistent (u : Universe.t) : Prop :=
  NoDup (Universe.generated u)
  /\ forall k, k ∈ Universe.generated u <-> is_Some (Universe.planets u !! k).

(** [u'] is a later state of [u]: same chunk size, every cached list
    still there and the same, the history only grown. *)
Definition extends (u u' : Universe.t) : Prop :=
  Universe.chunk_size u' = Universe.chunk_size u
  /\ (forall k l, Universe.planets u !! k = Some l ->
                  Universe.planets u' !! k = Some l)
  /\ exists new, Universe.generated u' = new ++ Universe.generated u.

(** The bodies stored for the neighbourhood of a position. *)
Definition stored_around (u : Universe.t) (pos : Vec3.t) : list Planet.t :=
  concat (map (fun k => default [] (Universe.planets u !! k))
              (Universe.neighbours (Universe.get_chunk u pos))).

(** The landing test of [update] for one body, in the state in which the
    loop reaches it. *)
Definition in_reach (s : Saucer.t) (body : Planet.t) : Prop :=
  Vec3.dist (Saucer.pos s) (Planet.pos body) < Planet.radius body + 23.

Definition can_land (s : Saucer.t) (body : Planet.t) : Prop :=
  in_reach s body /\ Rabs (Saucer.speed s) < 11.

(** Where a landing puts the craft. *)
Definition landing_spot (s : Saucer.t) (body : Planet.t) : Vec3.t :=
  Vec3.add (Planet.pos body)
           (Vec3.mul (Vec3.normalize (Vec3.sub (Saucer.pos s) (Planet.pos body)))
                     (Planet.radius body + 7)).

(** The point at distance [len] from [centre] on the ray from [centre]
    through [p]. *)
Definition on_ray (centre p : Vec3.t) (len : R) : Vec3.t :=
  Vec3.add centre (Vec3.mul (Vec3.sub p centre) (len / Vec3.dist p centre)).

(** A craft heading along the negative [z] axis, and the key state with
    only [W] held. *)
Definition craft_at (z speed : R) : Saucer.t :=
  Saucer.mk (Vec3.mk 0 0 z) (Vec3.mk 0 0 0) 0 0 speed 42 180 18 52 None
            MsgControls.

Definition only_w (k : key) : bool :=
  match k with K_w => true | _ => false end.

(** A body is on an orbit when it has a parent reference and a numeric
    orbit distance above 0.1. *)
Definition orbits (b : Planet.t) : Prop :=
  is_Some (Planet.parent b)
  /\ exists d, as_number (Planet.orbitDistance b) = Some d /\ 0.1 < d.

(** The orbit fields of a body can be used by [update]: when the body
    has a parent reference its orbit distance is a number and, when that
    number is above 0.1, its orbit speed is a number too. *)
Definition orbit_sound (b : Planet.t) : Prop :=
  is_Some (Planet.parent b) ->
  exists d, as_number (Planet.orbitDistance b) = Some d
            /\ (0.1 < d -> is_Some (as_number (Planet.orbitSpeed b))).

(** The fields that decide whether and how a body orbits. *)
Definition orbit_fields (b : Planet.t) : option nat * pyval * pyval :=
  (Planet.parent b, Planet.orbitDistance b, Planet.orbitSpeed b).

(** The point a body circles: the position of the body of the group that
    is its parent, or the anchor of the group when no body of the group
    is. *)
Definition orbit_centre (sys : SolarSystem.t) (b : Planet.t) : Vec3.t :=
  match Planet.parent b with
  | Some ref =>
      match SolarSystem.find_body sys ref with
      | Some parent => Planet.pos parent
      | None => SolarSystem.center_pos sys
      end
  | None => SolarSystem.center_pos sys
  end.

(** [b'] is [b] after one orbit step of [dt] around [centre]: the angle
    advanced, [x] and [z] recomputed, [y] and all the rest kept. *)
Definition moved (dt : R) (centre : Vec3.t) (b b' : Planet.t) : Prop :=
  exists d w,
    as_number (Planet.orbitDistance b) = Some d
    /\ as_number (Planet.orbitSpeed b) = Some w
    /\ let angle := Planet.orbitAngle b + w * dt * 0.3 in
       b' = Planet.set_pos
              (Vec3.mk (Vec3.x centre + cos angle * d)
                       (Vec3.y (Planet.pos b))
                       (Vec3.z centre + sin angle * d))
              (Planet.set_orbitAngle angle b).

(** The group as the loop of [update] sees it on reaching index [i]: the
    bodies before [i] already moved, the others not yet. *)
Definition seen_at (i : nat) (sys sys' : SolarSystem.t) : SolarSystem.t :=
  SolarSystem.set_bodies
    (take i (SolarSystem.bodies sys') ++ drop i (SolarSystem.bodies sys)) sys.

(** A body with identity, position, parent and orbit data given. *)
Definition orbiter (id : nat) (pos : Vec3.t) (parent : option nat)
    (distance speed : pyval) : Planet.t :=
  Planet.mk id pos (PDict []) (PStr "body") (PStr "planet") 100 distance
            speed 0 parent (68 / 255, 136 / 255, 255 / 255) None
            (PBool false) 1.8 (PStr "#FFD700") (PStr "#DAA520").

(** A group of three: a fixed body at the origin, a body that orbits it,
    and a body whose parent reference designates no body of the group.
    The anchor is away from the origin. *)
Definition trio : SolarSystem.t :=
  SolarSystem.mk (PStr "trio")
    [orbiter 0 (Vec3.mk 0 0 0) None (PInt 0) (PFloat 0.2);
     orbiter 1 (Vec3.mk 10 5 0) (Some 0%nat) (PInt 10) (PInt 0);
     orbiter 2 (Vec3.mk 10 5 0) (Some 7%nat) (PInt 10) (PInt 0)]
    (Vec3.mk 100 0 0).

(** A group of two whose second body orbits the first with an orbit
    speed that is text. *)
Definition stalled : SolarSystem.t :=
  SolarSystem.mk (PStr "stalled")
    [orbiter 0 (Vec3.mk 0 0 0) None (PInt 0) (PFloat 0.2);
     orbiter 1 (Vec3.mk 50 0 0) (Some 0%nat) (PInt 50) (PStr "fast")]
    (Vec3.mk 0 0 0).

(** The colour given to a planet whose data names none: [#4488ff]. *)
Definition default_color : R * R * R := (IZR 68 / 255, IZR 136 / 255, IZR 255 / 255).

(** The value the constructor decodes as the colour: [colors.ocean], or
    the default text when [colors] or its [ocean] entry is absent. *)
Definition ocean_of (data : pyval) : result pyval :=
  let+ c := py_get data "colors" (PDict []) in
  py_get c "ocean" (PStr "#4488ff").

(** [colors], or [ocean] within it, is absent from a manifest. *)
Definition ocean_absent (items : list (string * pyval)) : Prop :=
  assoc "colors" items = None
  \/ exists c, assoc "colors" items = Some (PDict c) /\ assoc "ocean" c = None.

(** A text of the shape [#RRGGBB]: one character, then six hex digits
    (and anything after them); with the three bytes the digits denote. *)
Definition hex_rgb (s : string) : option (Z * Z * Z) :=
  match s with
  | String _ (String r1 (String r2 (String g1 (String g2 (String b1 (String b2 _)))))) =>
      match digit_value r1, digit_value r2, digit_value g1, digit_value g2,
            digit_value b1, digit_value b2 with
      | Some vr1, Some vr2, Some vg1, Some vg2, Some vb1, Some vb2 =>
          Some (vr1 * 16 + vr2, vg1 * 16 + vg2, vb1 * 16 + vb2)%Z
      | _, _, _, _, _, _ => None
      end
  | _ => None
  end.

(** The parts of a manifest, other than the colour, that the constructor
    converts: [params] is a dict (or absent) whose [radius] and
    [ringDiameter], when present, are numbers; and the height map, when
    there is one, is an image or empty. *)
Definition plain_number (v : pyval) : Prop := is_Some (as_number v).

Definition rest_converts (items : list (string * pyval))
    (heightmap_bytes : option entry) : Prop :=
  (exists params,
     default (PDict []) (assoc "params" items) = PDict params
     /\ plain_number (default (PInt 100) (assoc "radius" params))
     /\ plain_number (default (PFloat 1.8) (assoc "ringDiameter" params)))
  /\ (heightmap_bytes = None \/ heightmap_bytes = Some EPng
      \/ heightmap_bytes = Some EEmpty).

(** The status messages that report a failed import. *)
Definition reports_failure (m : message) : Prop :=
  m = MsgUnknownFormat \/ exists e, m = MsgLoadError e.

(** The system descriptors an import of [file] goes through: the first
    four of the galaxy manifest; none when [file] holds no readable galaxy
    manifest. *)
Definition galaxy_descriptors (file : entry) : list pyval :=
  match (let+ z := open_zip file in
         let+ raw := zread z "galaxy_data.json" in
         let+ galaxy := json_loads raw in
         let+ systems := py_get galaxy "systems" (PList []) in
         let+ first := py_first4 systems in
         py_iter first)
  with
  | Ok descriptors => descriptors
  | Raise _ => []
  end.

(** The body descriptors of a system descriptor. *)
Definition descriptor_bodies (sys_data : pyval) : result (list pyval) :=
  let+ bodies := py_get sys_data "bodies" (PList []) in py_iter bodies.

(** A group is complete for its descriptor: it bears the descriptor's
    name and holds one body for each body descriptor, in order, built
    from that descriptor. *)
Definition complete_group (sys_data : pyval) (g : SolarSystem.t) : Prop :=
  py_get sys_data "name" (PStr "Galaxy System") = Ok (SolarSystem.name g)
  /\ descriptor_bodies sys_data = Ok (map Planet.data (SolarSystem.bodies g)).

(** Nothing but the process state differs between two worlds. *)
Definition same_scene `{PyEnv} (w w' : World) : Prop :=
  player w' = player w /\ custom_systems w' = custom_systems w.

(** A world at start-up. *)
Definition demo_world : @World demo_env :=
  @mkWorld demo_env Saucer.__init__ [] (@mkProc demo_env 1%Z 0 0).

(** A planet archive, and a system archive with one body whose entry
    carries the parent reference [ref]. *)
Definition rock_zip : entry :=
  EZip [("planet_data.json", EJson (PDict [("seed", PStr "Rock")]))].

Definition system_zip (ref : pyval) : entry :=
  EZip [("system_data.json",
         EJson (PDict [("name", PStr "Sol");
                       ("bodies",
                        PList [PDict [("file", PStr "rock.zip");
                                      ("orbitDistance", PInt 300);
                                      ("parentId", ref)]])]));
        ("rock.zip", rock_zip)].

(** A system archive with two bodies, the second of which names the
    first as its parent. *)
Definition rock_info (ref : pyval) : pyval :=
  PDict [("file", PStr "rock.zip"); ("orbitDistance", PInt 300);
         ("parentId", ref)].

Definition pair_zip : entry :=
  EZip [("system_data.json",
         EJson (PDict [("name", PStr "Pair");
                       ("bodies", PList [rock_info PNone; rock_info (PInt 0)])]));
        ("rock.zip", rock_zip)].

(** A galaxy archive of two systems, the second with a body whose colour
    text is cut short. *)
Definition galaxy_zip : entry :=
  EZip [("galaxy_data.json",
         EJson (PDict
                  [("name", PStr "Milky");
                   ("systems",
                    PList [PDict [("name", PStr "One");
                                  ("bodies", PList [PDict [("seed", PStr "A")]])];
                           PDict [("name", PStr "Two");
                                  ("bodies",
                                   PList [PDict [("seed", PStr "B")];
                                          PDict [("colors",
                                                  PDict [("ocean", PStr "#12")])]])]])]))].

(** A computation that leaves the player and the live list alone,
    whether it returns or raises. *)
Definition quiet `{PyEnv} {A} (c : M World A) : Prop :=
  forall w r w', c w = (r, w') -> same_scene w w'.

(** The status messages that report a finished import. *)
Definition reports_success (m : message) : Prop :=
  exists name,
    m = MsgLoadedPlanet name \/ m = MsgLoadedSystem name
    \/ m = MsgLoadedGalaxy name.

(** A loader that publishes at its very end: when it raises it has left
    the player and the live list alone, and when it returns it has set a
    success message. *)
Definition publishes_last `{PyEnv} {A} (c : M World A) : Prop :=
  forall w r w', c w = (r, w') ->
    match r with
    | Raise _ => same_scene w w'
    | Ok _ => reports_success (Saucer.ui_message (player w'))
    end.

(** What the two vertical keys add to the height in one tick. *)
Definition climb (keys : key -> bool) : R :=
  (if keys K_SPACE then 2.5 else 0)
  - (if (keys K_LCTRL || keys K_c)%bool then 2.5 else 0).

(** The key state with only [SPACE] held, and a craft at rest on a body. *)
Definition only_space (k : key) : bool :=
  match k with K_SPACE => true | _ => false end.

Definition landed_at (z : R) (body : Planet.t) : Saucer.t :=
  Saucer.mk (Vec3.mk 0 0 z) (Vec3.mk 0 0 0) 0 (-82) 0 42 180 18 52 (Some body)
            MsgControls.

(** ** Generated bodies *)

(** [random.randint(a, b)] returns a value between [a] and [b]. *)
Definition randint_in_range `{PyEnv} : Prop :=
  forall a b g, (a <= b)%Z -> (a <= fst (rng_randint a b g) <= b)%Z.

(** The closed cube of a chunk coordinate: both faces are included on
    each axis. *)
Definition in_cube (size : Z) (c : chunk) (p : Vec3.t) : Prop :=
  let '(cx, cy, cz) := c in
  (IZR (cx * size) <= Vec3.x p <= IZR ((cx + 1) * size))
  /\ (IZR (cy * size) <= Vec3.y p <= IZR ((cy + 1) * size))
  /\ (IZR (cz * size) <= Vec3.z p <= IZR ((cz + 1) * size)).

(** What generation fixes about a body of chunk [c]. *)
Definition generated_body (size : Z) (c : chunk) (b : Planet.t) : Prop :=
  in_cube size c (Planet.pos b)
  /\ 80 <= Planet.radius b <= 250
  /\ Planet.color b = default_color
  /\ Planet.parent b = None
  /\ Planet.texture_id b = None.

(** All the bodies of the cache, latest chunk first. *)
Definition cached_bodies (u : Universe.t) : list Planet.t :=
  concat (map (fun k => default [] (Universe.planets u !! k))
              (Universe.generated u)).

(** No two cached bodies are the same object, and the identities still
    to be given out are above all of theirs. *)
Definition distinct_objects `{PyEnv} (s : Universe.state) : Prop :=
  consistent (fst s)
  /\ NoDup (map Planet.oid (cached_bodies (fst s)))
  /\ Forall (fun b => (Planet.oid b < next_oid (snd s))%nat)
            (cached_bodies (fst s)).

(** ** Imported groups *)

(** No body of the group has a parent. *)
Definition parentless (sys : SolarSystem.t) : Prop :=
  Forall (fun b => Planet.parent b = None) (SolarSystem.bodies sys).

(** In a list of bodies, every parent reference designates a body placed
    earlier in the list. *)
Definition parents_precede (bodies : list Planet.t) : Prop :=
  forall j b ref,
    bodies !! j = Some b -> Planet.parent b = Some ref ->
    exists i q, (i < j)%nat /\ bodies !! i = Some q /\ Planet.oid q = ref.

(** The entries of a system manifest that the loop does not skip: those
    whose [file] is in the archive, and those on which the test itself
    raises. *)
Definition listed (z : archive) (info : pyval) : bool :=
  match py_item info "file" with
  | Ok file => in_namelist z file
  | Raise _ => true
  end.

(** A computation that at most appends [n] groups to the live list and
    touches nothing of the player but the status message. *)
Definition appends `{PyEnv} {A} (n : nat) (c : M World A) : Prop :=
  forall w r w', c w = (r, w') ->
    (exists new, custom_systems w' = custom_systems w ++ new
                 /\ (length new <= n)%nat)
    /\ Saucer.set_ui_message (Saucer.ui_message (player w')) (player w)
       = player w'.

(** The files of an archive entry. *)
Definition archive_of (e : entry) : archive :=
  match e with EZip files => files | _ => [] end.

(** ** The frame loop of [main] *)

(** Where a star is drawn for a player at [player_pos] (the loop over
    [stars]). *)
Definition star_position (star player_pos : Vec3.t) : Vec3.t :=
  Vec3.mk
    (py_mod (Vec3.x star - Vec3.x player_pos) 2800 - 1400 + Vec3.x player_pos)
    (py_mod (Vec3.y star - Vec3.y player_pos) 2000 - 1000 + Vec3.y player_pos)
    (py_mod (Vec3.z star - Vec3.z player_pos) 2800 - 1400 + Vec3.z player_pos).

(** The eye point handed to [gluLookAt]. *)
Definition camera_eye (player : Saucer.t) : Vec3.t :=
  let rad_y := radians (Saucer.cam_yaw player) in
  let rad_p := radians (Saucer.cam_pitch player) in
  Vec3.mk
    (Vec3.x (Saucer.pos player) - sin rad_y * cos rad_p * Saucer.cam_dist player)
    (Vec3.y (Saucer.pos player) + sin rad_p * Saucer.cam_dist player + 16)
    (Vec3.z (Saucer.pos player) - cos rad_y * cos rad_p * Saucer.cam_dist player).

(** The import key test of one frame: from the state of the [I] key and
    the flag [i_pressed], the new flag and whether [load_editor_zip] is
    called. *)
Definition import_key (key_i i_pressed : bool) : bool * bool :=
  if key_i then
    if negb i_pressed then (true, true) else (i_pressed, false)
  else (false, false).

(** The test over successive frames: for each frame, whether the import
    is called. *)
Fixpoint import_calls (frames : list bool) (i_pressed : bool) : list bool :=
  match frames with
  | [] => []
  | key_i :: rest =>
      let (i_pressed, called) := import_key key_i i_pressed in
      called :: import_calls rest i_pressed
  end.

(** The two statements of a frame that move the player: the bodies
    around the player are queried, and the player is updated with them. *)
Definition fly_frame `{PyEnv} (player : Saucer.t) (keys : key -> bool)
    (mouse_dx mouse_dy : Z) (right_held : bool) (wheel_delta : Z)
    : M Universe.state Saucer.t :=
  let* active_planets := Universe.get_active_planets (Saucer.pos player) in
  ret (Saucer.update player keys active_planets mouse_dx mouse_dy right_held
                     wheel_delta).

(** A body stored in the cache under the coordinate [k]. *)
Definition cached_at (u : Universe.t) (k : chunk) (body : Planet.t) : Prop :=
  exists l, Universe.planets u !! k = Some l /\ In body l.

(** A universe whose cache holds one body, in the chunk at the origin. *)
Definition lone_universe (body : Planet.t) : Universe.t :=
  Universe.mk 2000 {[ (0, 0, 0)%Z := [body] ]} [(0, 0, 0)%Z].

(** The centre of the group and all its bodies have height [y] and depth
    [z]: they lie on one line parallel to the [x] axis. *)
Definition along_x (y z : R) (sys : SolarSystem.t) : Prop :=
  (Vec3.y (SolarSystem.center_pos sys) = y
   /\ Vec3.z (SolarSystem.center_pos sys) = z)
  /\ Forall (fun b => Vec3.y (Planet.pos b) = y /\ Vec3.z (Planet.pos b) = z)
            (SolarSystem.bodies sys).

(** *** Vectors *)

Lemma Vec3_copy_id (v : Vec3.t) : Vec3.copy v = v.
Proof. now destruct v. Qed.

Lemma Vec3_eq_inv (a b c a' b' c' : R) :
  Vec3.mk a b c = Vec3.mk a' b' c' -> a = a' /\ b = b' /\ c = c'.
Proof. intros H; injection H; auto. Qed.

(** *** Orbital groups: [add_body] *)

Lemma add_body_bodies (sys : SolarSystem.t) (body : Planet.t) :
  SolarSystem.bodies (SolarSystem.add_body sys body)
  = SolarSystem.bodies sys ++ [body].
Proof. unfold SolarSystem.add_body. now destruct (py_eq_str _ _). Qed.

Lemma add_body_center (sys : SolarSystem.t) (body : Planet.t) :
  SolarSystem.center_pos (SolarSystem.add_body sys body)
  = if is_sun body then Planet.pos body else SolarSystem.center_pos sys.
Proof.
  unfold SolarSystem.add_body, is_sun.
  destruct (py_eq_str _ _); simpl; [apply Vec3_copy_id | reflexivity].
Qed.

(** C1 (as amended): after any sequence of [add_body] calls the anchor
    [center_pos] is the position of the LAST sun-type body added, and it
    is the anchor the group had before when no sun was added; the bodies
    are appended in call order. *)
Theorem add_body_anchor_is_last_sun (bs : list Planet.t) (sys : SolarSystem.t) :
  SolarSystem.center_pos (fold_left SolarSystem.add_body bs sys)
  = match last (filter is_sun bs) with
    | Some sun => Planet.pos sun
    | None => SolarSystem.center_pos sys
    end
  /\ SolarSystem.bodies (fold_left SolarSystem.add_body bs sys)
     = SolarSystem.bodies sys ++ bs.
Proof.
  revert sys. induction bs as [|b bs IH]; intros sys; simpl.
  - split; [reflexivity | now rewrite app_nil_r].
  - destruct (IH (SolarSystem.add_body sys b)) as [Hc Hb]. split.
    + rewrite Hc, add_body_center. destruct (is_sun b) eqn:Hs.
      * rewrite filter_cons_True by (now rewrite Hs).
        rewrite last_cons. now destruct (last (filter is_sun bs)).
      * rewrite filter_cons_False by (now rewrite Hs). reflexivity.
    + rewrite Hb, add_body_bodies, <- app_assoc. reflexivity.
Qed.

(** C1 (as stated) fails: with two suns added in turn, the anchor is the
    second sun's position, not the first's. *)
Lemma add_body_first_sun_does_not_win :
  let sun1 := body_at 0 (Vec3.mk 1 0 0) "sun" 100 in
  let sun2 := body_at 1 (Vec3.mk 2 0 0) "sun" 100 in
  let sys := fold_left SolarSystem.add_body [sun1; sun2]
                       (SolarSystem.__init__ (PStr "s")) in
  head (filter is_sun [sun1; sun2]) = Some sun1
  /\ SolarSystem.center_pos sys = Planet.pos sun2
  /\ SolarSystem.center_pos sys <> Planet.pos sun1.
Proof.
  simpl. split; [reflexivity|]. split; [reflexivity|].
  intros H. apply Vec3_eq_inv in H. simpl in H. lra.
Qed.

(** *** Spatial hash: [get_chunk] *)

Lemma floordiv_spec (size : Z) (v : R) (c : Z) :
  (0 < size)%Z ->
  Universe.floordiv v size = c <-> in_cell_axis size c v.
Proof.
  intros Hs. apply IZR_lt in Hs. unfold Universe.floordiv, in_cell_axis.
  assert (Hv : v = v / IZR size * IZR size) by (field; lra).
  split.
  - intros <-. pose proof (Zfloor_bound (v / IZR size)) as [H1 H2].
    split; nra.
  - intros [H1 H2]. apply Zfloor_eq. split.
    + apply Rmult_le_reg_r with (IZR size); [lra|]. now rewrite <- Hv.
    + apply Rmult_lt_reg_r with (IZR size); [lra|]. now rewrite <- Hv.
Qed.

Lemma get_chunk_spec (u : Universe.t) (p : Vec3.t) (c : chunk) :
  (0 < Universe.chunk_size u)%Z ->
  Universe.get_chunk u p = c <-> in_cell u c p.
Proof.
  intros Hs. destruct c as [[cx cy] cz]. unfold Universe.get_chunk, in_cell.
  rewrite <- !(floordiv_spec _ _ _ Hs). split.
  - intros H; injection H; auto.
  - intros (-> & -> & ->). reflexivity.
Qed.

(** C2: [get_chunk] floor-divides each axis by the chunk size.  A
    position lies in the cell of its chunk, and only in that one; hence
    the chunk does not change under a translation that stays in the cell;
    crossing a cell boundary on one axis changes that coordinate by
    exactly one; and with chunk size 2000 a position with [x = -1] is in
    chunk [x = -1], the value of flooring, where truncation gives [0]. *)
Theorem get_chunk_floor (u : Universe.t) (Hsize : (0 < Universe.chunk_size u)%Z) :
  (forall p c, Universe.get_chunk u p = c <-> in_cell u c p)
  /\ (forall p t, in_cell u (Universe.get_chunk u p) (Vec3.add p t) ->
        Universe.get_chunk u (Vec3.add p t) = Universe.get_chunk u p)
  /\ (forall v v' k, in_cell_axis (Universe.chunk_size u) (k - 1) v ->
        in_cell_axis (Universe.chunk_size u) k v' ->
        Universe.floordiv v' (Universe.chunk_size u)
        = (Universe.floordiv v (Universe.chunk_size u) + 1)%Z)
  /\ (forall p, Universe.get_chunk u
                  (Vec3.add p (Vec3.mk (IZR (Universe.chunk_size u)) 0 0))
                = let '(cx, cy, cz) := Universe.get_chunk u p in
                  ((cx + 1)%Z, cy, cz))
  /\ (Universe.chunk_size u = 2000%Z ->
      forall y z, fst (fst (Universe.get_chunk u (Vec3.mk (-1) y z))) = (-1)%Z
                  /\ Z.quot (-1) 2000 = 0%Z).
Proof.
  split; [|split; [|split; [|split]]].
  - intros p c. now apply get_chunk_spec.
  - intros p t H. now apply get_chunk_spec.
  - intros v v' k Hv Hv'.
    apply (floordiv_spec _ _ _ Hsize) in Hv, Hv'. lia.
  - intros p. destruct (Universe.get_chunk u p) as [[cx cy] cz] eqn:Hc.
    apply get_chunk_spec in Hc; [|assumption].
    apply get_chunk_spec; [assumption|].
    destruct Hc as (Hx & Hy & Hz). unfold in_cell, in_cell_axis in *.
    simpl. rewrite plus_IZR. repeat split; try nra; try lra.
  - intros H2000 y z. split; [|reflexivity].
    unfold Universe.get_chunk. simpl. apply floordiv_spec; [assumption|].
    unfold in_cell_axis. rewrite H2000. lra.
Qed.

Lemma get_chunk_floor_witness :
  (0 < Universe.chunk_size Universe.__init__)%Z
  /\ fst (fst (Universe.get_chunk Universe.__init__ (Vec3.mk (-1) 0 0))) = (-1)%Z.
Proof.
  assert (H : (0 < Universe.chunk_size Universe.__init__)%Z) by (simpl; lia).
  split; [exact H|].
  destruct (get_chunk_floor Universe.__init__ H) as (_ & _ & _ & _ & Hneg).
  exact (proj1 (Hneg eq_refl 0 0)).
Defined.

Section Generation.
Context `{E : PyEnv}.

Lemma proc_planet_init (pos : Vec3.t) (radius : Z) (p : Proc) :
  Planet.__init__ pos (Universe.proc_data radius) None p
  = (Ok (Planet.mk (next_oid p) pos (Universe.proc_data radius) (PStr "proc")
           (PStr "planet") (IZR radius) (PInt 0) (PFloat 0.2)
           (fst (rng_random (rng p)) * PI * 2) None
           (IZR 68 / 255, IZR 136 / 255, IZR 255 / 255) None (PBool false)
           1.8 (PStr "#FFD700") (PStr "#DAA520")),
     mkProc (snd (rng_random (rng p))) (S (next_oid p)) (next_texture p)).
Proof.
  unfold Planet.__init__, bind, new_oid, lift_result, random, ret. cbn.
  destruct (rng_random (rng p)) as [u g]. reflexivity.
Qed.
End Generation.

Section Determinism.
Context `{E : PyEnv}.

(** Two runs of the loop body from generator states that agree build
    bodies that look the same, and leave generator states that agree. *)
Lemma generate_planet_agree (size cx cy cz : Z) (p1 p2 : Proc) :
  rng p1 = rng p2 ->
  exists a1 a2 q1 q2,
    Universe.generate_planet size cx cy cz p1 = (Ok a1, q1)
    /\ Universe.generate_planet size cx cy cz p2 = (Ok a2, q2)
    /\ look a1 = look a2 /\ rng q1 = rng q2
    /\ Planet.oid a1 = next_oid p1 /\ next_oid q1 = S (next_oid p1).
Proof.
  intros Hrng. unfold Universe.generate_planet, bind, randint, random.
  rewrite <- Hrng.
  repeat (cbn [rng next_oid next_texture];
          match goal with
          | |- context [rng_randint ?a ?b ?g] =>
              destruct (rng_randint a b g) as [? ?]
          | |- context [rng_random ?g] =>
              let u := fresh "u" in let g' := fresh "g" in
              destruct (rng_random g) as [u g'] eqn:?
          end).
  rewrite !proc_planet_init. cbn [rng next_oid next_texture].
  do 4 eexists. split; [reflexivity|]. split; [reflexivity|].
  cbn. auto.
Qed.

Lemma generate_planets_agree (n : nat) (size cx cy cz : Z) :
  forall (acc1 acc2 : list Planet.t) (p1 p2 : Proc),
    rng p1 = rng p2 ->
    map look acc1 = map look acc2 ->
    exists l1 l2 q1 q2,
      Universe.generate_planets n size cx cy cz acc1 p1 = (Ok l1, q1)
      /\ Universe.generate_planets n size cx cy cz acc2 p2 = (Ok l2, q2)
      /\ map look l1 = map look l2 /\ rng q1 = rng q2.
Proof.
  induction n as [|n IH]; intros acc1 acc2 p1 p2 Hrng Hacc; simpl.
  - exists acc1, acc2, p1, p2. unfold ret. auto.
  - destruct (generate_planet_agree size cx cy cz p1 p2 Hrng)
      as (a1 & a2 & q1 & q2 & H1 & H2 & Hlook & Hq & _).
    unfold bind. rewrite H1, H2.
    apply IH; [assumption|].
    rewrite !map_app. simpl. now rewrite Hacc, Hlook.
Qed.

(** The run of [generate_chunk] on a coordinate that is not cached. *)
Lemma generate_chunk_fresh (cx cy cz : Z) (u : Universe.t) (p : Proc) :
  Universe.planets u !! (cx, cy, cz) = None ->
  exists l q,
    Universe.generate_planets
      (Z.to_nat (fst (rng_randint 0 2 (rng_seed (hash_chunk (cx, cy, cz))))))
      (Universe.chunk_size u) cx cy cz []
      (mkProc (snd (rng_randint 0 2 (rng_seed (hash_chunk (cx, cy, cz)))))
              (next_oid p) (next_texture p)) = (Ok l, q)
    /\ Universe.generate_chunk cx cy cz (u, p)
       = (Ok tt, (Universe.mk (Universe.chunk_size u)
                              (<[(cx, cy, cz) := l]> (Universe.planets u))
                              ((cx, cy, cz) :: Universe.generated u), q)).
Proof.
  intros Hnone.
  unfold Universe.generate_chunk, bind, get. cbn [fst snd]. rewrite Hnone.
  unfold Universe.with_proc, zoom, seed, modify, randint.
  cbn [fst snd rng next_oid next_texture].
  destruct (rng_randint 0 2 (rng_seed (hash_chunk (cx, cy, cz)))) as [n g].
  cbn [fst snd rng next_oid next_texture].
  destruct (generate_planets_agree (Z.to_nat n) (Universe.chunk_size u)
              cx cy cz [] [] (mkProc g (next_oid p) (next_texture p))
              (mkProc g (next_oid p) (next_texture p)) eq_refl eq_refl)
    as (l & _ & q & _ & Hl & _).
  exists l, q. rewrite Hl. split; reflexivity.
Qed.
End Determinism.

(** C3: generating a chunk is a deterministic function of its coordinate:
    two runs for the same coordinate, each from a universe that has not
    generated it (same chunk size, any state of the random generator, any
    other cached chunks), succeed and store lists of the same length whose
    bodies have, one by one, the same position, radius and colour. *)
Theorem generate_chunk_deterministic `{E : PyEnv} (cx cy cz : Z)
    (u1 u2 : Universe.t) (p1 p2 : Proc) :
  Universe.chunk_size u1 = Universe.chunk_size u2 ->
  Universe.planets u1 !! (cx, cy, cz) = None ->
  Universe.planets u2 !! (cx, cy, cz) = None ->
  exists l1 l2 s1 s2,
    Universe.generate_chunk cx cy cz (u1, p1) = (Ok tt, s1)
    /\ Universe.generate_chunk cx cy cz (u2, p2) = (Ok tt, s2)
    /\ Universe.planets (fst s1) !! (cx, cy, cz) = Some l1
    /\ Universe.planets (fst s2) !! (cx, cy, cz) = Some l2
    /\ length l1 = length l2
    /\ map look l1 = map look l2.
Proof.
  intros Hsize H1 H2.
  destruct (generate_chunk_fresh cx cy cz u1 p1 H1) as (l1 & q1 & Hg1 & Hc1).
  destruct (generate_chunk_fresh cx cy cz u2 p2 H2) as (l2 & q2 & Hg2 & Hc2).
  exists l1, l2. eexists. eexists.
  split; [exact Hc1|]. split; [exact Hc2|]. cbn [fst Universe.planets].
  rewrite !lookup_insert_eq. split; [reflexivity|]. split; [reflexivity|].
  assert (Hlook : map look l1 = map look l2).
  { rewrite <- Hsize in Hg2.
    edestruct (generate_planets_agree) as (l1' & l2' & q1' & q2' & G1 & G2 & Hl & _);
      [ | | rewrite Hg1 in G1; rewrite Hg2 in G2;
            injection G1 as <- <-; injection G2 as <- <-; exact Hl ];
      reflexivity. }
  split; [|exact Hlook].
  rewrite <- (length_map look l1), Hlook. apply length_map.
Qed.

Lemma generate_chunk_deterministic_witness :
  let u := Universe.__init__ in
  exists l1 l2 s1 s2,
    @Universe.generate_chunk demo_env 1 0 0 (u, @mkProc demo_env 7%Z 0 0) = (Ok tt, s1)
    /\ @Universe.generate_chunk demo_env 1 0 0 (u, @mkProc demo_env 99%Z 5 1) = (Ok tt, s2)
    /\ Universe.planets (fst s1) !! (1, 0, 0)%Z = Some l1
    /\ Universe.planets (fst s2) !! (1, 0, 0)%Z = Some l2
    /\ length l1 = length l2
    /\ map look l1 = map look l2.
Proof.
  apply (@generate_chunk_deterministic demo_env 1 0 0 Universe.__init__
           Universe.__init__ (@mkProc demo_env 7%Z 0 0) (@mkProc demo_env 99%Z 5 1));
    reflexivity.
Defined.

Section Cache.
Context `{E : PyEnv}.

Lemma extends_refl (u : Universe.t) : extends u u.
Proof. repeat split; auto. now exists []. Qed.

Lemma extends_trans (u1 u2 u3 : Universe.t) :
  extends u1 u2 -> extends u2 u3 -> extends u1 u3.
Proof.
  intros (Hs1 & Hk1 & n1 & Hg1) (Hs2 & Hk2 & n2 & Hg2). repeat split.
  - congruence.
  - auto.
  - exists (n2 ++ n1). rewrite Hg2, Hg1. apply app_assoc.
Qed.

(** [generate_chunk] always returns; afterwards the coordinate is
    cached, and what was cached before is untouched. *)
Lemma generate_chunk_run (cx cy cz : Z) (u : Universe.t) (p : Proc) :
  exists u' p',
    Universe.generate_chunk cx cy cz (u, p) = (Ok tt, (u', p'))
    /\ extends u u'
    /\ is_Some (Universe.planets u' !! (cx, cy, cz))
    /\ (consistent u -> consistent u').
Proof.
  destruct (Universe.planets u !! (cx, cy, cz)) as [l|] eqn:Hk.
  - exists u, p. split; [|split; [apply extends_refl | split; [eauto | auto]]].
    unfold Universe.generate_chunk, bind, get. cbn [fst]. now rewrite Hk.
  - destruct (generate_chunk_fresh cx cy cz u p Hk) as (l & q & _ & Hrun).
    eexists. exists q. split; [exact Hrun|].
    cbn [Universe.planets Universe.generated Universe.chunk_size].
    split; [|split].
    + repeat split; cbn.
      * intros k l' Hl'. rewrite lookup_insert_ne; [assumption|].
        intros <-. congruence.
      * now exists [(cx, cy, cz)].
    + rewrite lookup_insert_eq. eauto.
    + intros [Hnd Hiff]. split; cbn.
      * apply NoDup_cons. split; [|assumption].
        intros Hin. apply Hiff in Hin. destruct Hin as [? Hin]. congruence.
      * intros k. rewrite elem_of_cons, Hiff.
        destruct (decide (k = (cx, cy, cz))) as [->|Hne].
        -- rewrite lookup_insert_eq. split; eauto.
        -- rewrite lookup_insert_ne by congruence. tauto.
Qed.

Lemma visit_run (coords : list chunk) :
  forall (active : list Planet.t) (u : Universe.t) (p : Proc),
  exists u' p',
    Universe.visit coords active (u, p)
    = (Ok (active
           ++ concat (map (fun k => default [] (Universe.planets u' !! k)) coords)),
       (u', p'))
    /\ extends u u'
    /\ Forall (fun k => is_Some (Universe.planets u' !! k)) coords
    /\ (consistent u -> consistent u').
Proof.
  induction coords as [|[[x y] z] rest IH]; intros active u p.
  - exists u, p. simpl. rewrite app_nil_r.
    split; [reflexivity|]. split; [apply extends_refl|]. split; auto.
  - destruct (generate_chunk_run x y z u p)
      as (u1 & p1 & Hgen & Hext1 & [l Hl] & Hc1).
    destruct (IH (active ++ l) u1 p1) as (u' & p' & Hvis & Hext & Hall & Hc).
    exists u', p'. cbn [Universe.visit]. unfold bind at 1. rewrite Hgen.
    unfold bind at 1, get. cbn [fst]. rewrite Hl, Hvis.
    pose proof Hext as (_ & Hkeep & _).
    split; [|split; [|split]].
    + cbn [map concat]. rewrite (Hkeep _ _ Hl). cbn [default].
      now rewrite app_assoc.
    + eapply extends_trans; eassumption.
    + constructor; [|assumption]. rewrite (Hkeep _ _ Hl). eauto.
    + auto.
Qed.

Lemma get_active_planets_run (pos : Vec3.t) (u : Universe.t) (p : Proc) :
  exists u' p',
    Universe.get_active_planets pos (u, p) = (Ok (stored_around u' pos), (u', p'))
    /\ extends u u'
    /\ Forall (fun k => is_Some (Universe.planets u' !! k))
              (Universe.neighbours (Universe.get_chunk u pos))
    /\ (consistent u -> consistent u').
Proof.
  destruct (visit_run (Universe.neighbours (Universe.get_chunk u pos)) [] u p)
    as (u' & p' & Hvis & Hext & Hall & Hc).
  exists u', p'. split; [|split; [exact Hext | split; [exact Hall | exact Hc]]].
  unfold Universe.get_active_planets, bind, get. cbn [fst].
  rewrite Hvis. cbn [app]. unfold stored_around, Universe.get_chunk.
  destruct Hext as (-> & _). reflexivity.
Qed.

(** Lists stored for coordinates that are all cached do not change in
    a later state. *)
Lemma stored_around_stable (u u' : Universe.t) (pos : Vec3.t) :
  extends u u' ->
  Forall (fun k => is_Some (Universe.planets u !! k))
         (Universe.neighbours (Universe.get_chunk u pos)) ->
  stored_around u' pos = stored_around u pos.
Proof.
  intros (Hs & Hkeep & _) Hall. unfold stored_around, Universe.get_chunk.
  rewrite Hs. f_equal. apply map_ext_Forall.
  eapply Forall_impl; [exact Hall|]. cbn. intros k [l Hl].
  now rewrite Hl, (Hkeep _ _ Hl).
Qed.

Lemma queries_run (positions : list Vec3.t) :
  forall (u : Universe.t) (p : Proc),
  exists u' p',
    queries positions (u, p)
    = (Ok (map (stored_around u') positions), (u', p'))
    /\ extends u u'
    /\ (consistent u -> consistent u').
Proof.
  induction positions as [|pos rest IH]; intros u p.
  - exists u, p. split; [reflexivity|]. split; [apply extends_refl | auto].
  - destruct (get_active_planets_run pos u p)
      as (u1 & p1 & Hq & Hext1 & Hall & Hc1).
    destruct (IH u1 p1) as (u' & p' & Hqs & Hext & Hc).
    exists u', p'. cbn [queries]. unfold bind at 1. rewrite Hq.
    unfold bind at 1. rewrite Hqs. unfold ret. cbn [map].
    split; [|split].
    + rewrite (stored_around_stable u1 u' pos Hext); [reflexivity|].
      unfold Universe.get_chunk in *. destruct Hext1 as (-> & _).
      exact Hall.
    + eapply extends_trans; eassumption.
    + auto.
Qed.
End Cache.

(** C4: through any sequence of [get_active_planets] calls, starting from
    a universe whose history matches its cache (a new one does), every
    call returns; no coordinate is generated twice, the history of
    generation having no repetition and only growing; a cached list is
    never replaced; and every call returns exactly the lists stored in
    the cache for its 27 coordinates, so two calls that cover the same
    chunk return the very same bodies, identities included. *)
Theorem query_generates_each_chunk_once `{E : PyEnv}
    (positions : list Vec3.t) (u : Universe.t) (p : Proc) :
  consistent u ->
  exists u' p',
    queries positions (u, p) = (Ok (map (stored_around u') positions), (u', p'))
    /\ NoDup (Universe.generated u')
    /\ (exists new, Universe.generated u' = new ++ Universe.generated u)
    /\ (forall k l, Universe.planets u !! k = Some l ->
                    Universe.planets u' !! k = Some l)
    /\ (forall k, k ∈ Universe.generated u' <->
                  is_Some (Universe.planets u' !! k)).
Proof.
  intros Hc.
  destruct (queries_run positions u p) as (u' & p' & Hrun & Hext & Hc').
  exists u', p'. destruct (Hc' Hc) as [Hnd Hiff].
  destruct Hext as (_ & Hkeep & Hnew). auto.
Qed.

Lemma query_generates_each_chunk_once_witness :
  exists u' p',
    @queries demo_env [Vec3.mk 0 150 0; Vec3.mk 0 150 0]
             (Universe.__init__, @mkProc demo_env 1%Z 0 0)
    = (Ok (map (stored_around u') [Vec3.mk 0 150 0; Vec3.mk 0 150 0]), (u', p'))
    /\ NoDup (Universe.generated u').
Proof.
  assert (Hc : consistent Universe.__init__).
  { split; cbn.
    - apply NoDup_nil_2.
    - intros k. rewrite lookup_empty. split.
      + intros H. now apply not_elem_of_nil in H.
      + intros [? H]. discriminate. }
  destruct (@query_generates_each_chunk_once demo_env
              [Vec3.mk 0 150 0; Vec3.mk 0 150 0] Universe.__init__
              (@mkProc demo_env 1%Z 0 0) Hc)
    as (u' & p' & Hrun & Hnd & _).
  exists u', p'. split; assumption.
Defined.

(** *** Vectors *)

Lemma mag_sqr (a : Vec3.t) :
  Vec3.mag a * Vec3.mag a = Vec3.x a ^ 2 + Vec3.y a ^ 2 + Vec3.z a ^ 2.
Proof. unfold Vec3.mag. apply sqrt_sqrt. nra. Qed.

Lemma mag_nonneg (a : Vec3.t) : 0 <= Vec3.mag a.
Proof. unfold Vec3.mag. apply sqrt_pos. Qed.

Lemma mag_zero_inv (a : Vec3.t) : Vec3.mag a = 0 -> a = Vec3.mk 0 0 0.
Proof.
  intros H. pose proof (mag_sqr a) as Hs. rewrite H in Hs.
  destruct a as [x y z]. cbn [Vec3.x Vec3.y Vec3.z] in Hs.
  apply (f_equal3 Vec3.mk); nra.
Qed.

Lemma mag_origin : Vec3.mag (Vec3.mk 0 0 0) = 0.
Proof.
  unfold Vec3.mag. cbn [Vec3.x Vec3.y Vec3.z].
  replace (0 ^ 2 + 0 ^ 2 + 0 ^ 2) with 0 by ring. apply sqrt_0.
Qed.

Lemma normalize_unit (a : Vec3.t) :
  0 < Vec3.mag a -> Vec3.mag (Vec3.normalize a) = 1.
Proof.
  intros Hpos. unfold Vec3.normalize.
  destruct (Rlt_dec 0 (Vec3.mag a)) as [_|N]; [|contradiction].
  pose proof (mag_sqr a) as Hs. set (m := Vec3.mag a) in *.
  clearbody m. unfold Vec3.mag. cbn [Vec3.x Vec3.y Vec3.z].
  replace ((Vec3.x a / m) ^ 2 + (Vec3.y a / m) ^ 2 + (Vec3.z a / m) ^ 2)
    with 1; [apply sqrt_1|].
  field_simplify_eq; [|lra]. nra.
Qed.

Lemma normalize_null (a : Vec3.t) :
  ~ 0 < Vec3.mag a -> Vec3.normalize a = Vec3.mk 0 0 0.
Proof.
  intros N. unfold Vec3.normalize.
  destruct (Rlt_dec 0 (Vec3.mag a)); [contradiction | reflexivity].
Qed.

Lemma mag_mul (u : Vec3.t) (k : R) :
  Vec3.mag (Vec3.mul u k) = Rabs k * Vec3.mag u.
Proof.
  unfold Vec3.mag, Vec3.mul. cbn [Vec3.x Vec3.y Vec3.z].
  replace ((Vec3.x u * k) ^ 2 + (Vec3.y u * k) ^ 2 + (Vec3.z u * k) ^ 2)
    with ((k * k) * (Vec3.x u ^ 2 + Vec3.y u ^ 2 + Vec3.z u ^ 2)) by ring.
  rewrite sqrt_mult_alt by nra. f_equal.
  rewrite <- (sqrt_Rsqr_abs k). reflexivity.
Qed.

Lemma sub_add_cancel (p v : Vec3.t) : Vec3.sub (Vec3.add p v) p = v.
Proof.
  destruct p, v. unfold Vec3.sub, Vec3.add. cbn [Vec3.x Vec3.y Vec3.z].
  apply (f_equal3 Vec3.mk); ring.
Qed.

Lemma sub_zero_inv (a b : Vec3.t) : Vec3.sub a b = Vec3.mk 0 0 0 -> a = b.
Proof.
  destruct a, b. unfold Vec3.sub. cbn [Vec3.x Vec3.y Vec3.z].
  intros H. apply Vec3_eq_inv in H. apply (f_equal3 Vec3.mk); lra.
Qed.

Lemma mag_on_z (c : R) : 0 <= c -> Vec3.mag (Vec3.mk 0 0 c) = c.
Proof.
  intros Hc. unfold Vec3.mag. cbn [Vec3.x Vec3.y Vec3.z].
  replace (0 ^ 2 + 0 ^ 2 + c ^ 2) with (c * c) by ring.
  now apply sqrt_square.
Qed.

Lemma normalize_on_z (c : R) : c < 0 ->
  Vec3.normalize (Vec3.mk 0 0 c) = Vec3.mk 0 0 (-1).
Proof.
  intros Hc. unfold Vec3.normalize.
  assert (Hm : Vec3.mag (Vec3.mk 0 0 c) = - c).
  { unfold Vec3.mag. cbn [Vec3.x Vec3.y Vec3.z].
    replace (0 ^ 2 + 0 ^ 2 + c ^ 2) with ((- c) * (- c)) by ring.
    apply sqrt_square. lra. }
  rewrite Hm. destruct (Rlt_dec 0 (- c)) as [_|N]; [|lra].
  cbn [Vec3.x Vec3.y Vec3.z]. apply (f_equal3 Vec3.mk); field; lra.
Qed.

Lemma normalize_on_z_pos (c : R) : 0 < c ->
  Vec3.normalize (Vec3.mk 0 0 c) = Vec3.mk 0 0 1.
Proof.
  intros Hc. unfold Vec3.normalize. rewrite mag_on_z by lra.
  destruct (Rlt_dec 0 c) as [_|N]; [|lra].
  cbn [Vec3.x Vec3.y Vec3.z]. apply (f_equal3 Vec3.mk); field; lra.
Qed.

Lemma mag_along_z (a b c : R) :
  a = 0 -> b = 0 -> Vec3.mag (Vec3.mk a b c) = Rabs c.
Proof.
  intros -> ->. unfold Vec3.mag. cbn [Vec3.x Vec3.y Vec3.z].
  replace (0 ^ 2 + 0 ^ 2 + c ^ 2) with (Rsqr c) by (unfold Rsqr; ring).
  apply sqrt_Rsqr_abs.
Qed.

(** *** Craft: landing and bouncing *)

Lemma fly_landed_on (self : Saucer.t) (keys : key -> bool) (dx dy : Z)
    (rh : bool) (wd : Z) :
  Saucer.landed_on (Saucer.fly self keys dx dy rh wd) = Saucer.landed_on self.
Proof.
  unfold Saucer.fly.
  assert (Hcam : forall s, Saucer.landed_on (Saucer.camera s dx dy rh)
                           = Saucer.landed_on s)
    by (intros s; unfold Saucer.camera; now destruct rh).
  assert (Hdown : forall s, Saucer.landed_on (Saucer.descend s keys)
                            = Saucer.landed_on s)
    by (intros s; unfold Saucer.descend; now destruct (_ || _)%bool).
  assert (Hup : forall s, Saucer.landed_on (Saucer.ascend s keys)
                          = Saucer.landed_on s)
    by (intros s; unfold Saucer.ascend; now destruct (keys K_SPACE)).
  assert (Hright : forall s, Saucer.landed_on (Saucer.turn_right s keys)
                             = Saucer.landed_on s)
    by (intros s; unfold Saucer.turn_right; now destruct (_ || _)%bool).
  assert (Hleft : forall s, Saucer.landed_on (Saucer.turn_left s keys)
                            = Saucer.landed_on s)
    by (intros s; unfold Saucer.turn_left; now destruct (_ || _)%bool).
  assert (Hthrust : forall s, Saucer.landed_on (Saucer.thrust s keys)
                              = Saucer.landed_on s)
    by (intros s; unfold Saucer.thrust;
        now destruct (keys K_w), (keys K_s)).
  rewrite Hcam.
  change (Saucer.landed_on
            (Saucer.descend
               (Saucer.ascend
                  (Saucer.turn_right
                     (Saucer.turn_left
                        (Saucer.clamp_speed (Saucer.thrust self keys)) keys)
                     keys) keys) keys)
          = Saucer.landed_on self).
  rewrite Hdown, Hup, Hright, Hleft.
  change (Saucer.landed_on (Saucer.thrust self keys) = Saucer.landed_on self).
  apply Hthrust.
Qed.

Lemma update_flying (self : Saucer.t) (keys : key -> bool)
    (planets : list Planet.t) (dx dy : Z) (rh : bool) (wd : Z) :
  Saucer.landed_on self = None ->
  Saucer.update self keys planets dx dy rh wd
  = fold_left Saucer.collide planets (Saucer.fly self keys dx dy rh wd).
Proof. intros H. unfold Saucer.update. now rewrite H. Qed.

Lemma collide_lands (s : Saucer.t) (body : Planet.t) :
  can_land s body ->
  Saucer.collide s body
  = Saucer.mk (landing_spot s body) (Vec3.mk 0 0 0) (Saucer.yaw s) (-82) 0
              (Saucer.max_speed s) (Saucer.cam_yaw s) (Saucer.cam_pitch s)
              (Saucer.cam_dist s) (Some body) (Saucer.ui_message s).
Proof.
  intros [Hd Hv]. unfold in_reach in Hd. unfold Saucer.collide.
  destruct (Rlt_dec _ _) as [_|N]; [|contradiction].
  destruct (Rlt_dec _ _) as [_|N]; [|contradiction].
  reflexivity.
Qed.

Lemma collide_bounces (s : Saucer.t) (body : Planet.t) :
  in_reach s body -> Rabs (Saucer.speed s) >= 11 ->
  Saucer.collide s body
  = Saucer.mk (Vec3.sub (Saucer.pos s) (Vec3.mul (Saucer.vel s) 2))
              (Saucer.vel s) (Saucer.yaw s) (Saucer.pitch s)
              (Saucer.speed s * 0.3) (Saucer.max_speed s) (Saucer.cam_yaw s)
              (Saucer.cam_pitch s) (Saucer.cam_dist s) (Saucer.landed_on s)
              MsgTooFast.
Proof.
  intros Hd Hv. unfold in_reach in Hd. unfold Saucer.collide.
  destruct (Rlt_dec _ _) as [_|N]; [|contradiction].
  destruct (Rlt_dec _ _) as [Y|_]; [lra|].
  reflexivity.
Qed.

Lemma collide_out_of_reach (s : Saucer.t) (body : Planet.t) :
  ~ in_reach s body -> Saucer.collide s body = s.
Proof.
  intros Hd. unfold in_reach in Hd. unfold Saucer.collide.
  destruct (Rlt_dec _ _) as [Y|_]; [contradiction | reflexivity].
Qed.

Lemma collide_loop_out_of_reach (after : list Planet.t) (s : Saucer.t) :
  Forall (fun q => ~ in_reach s q) after ->
  fold_left Saucer.collide after s = s.
Proof.
  induction 1 as [|q after Hq _ IH]; cbn [fold_left]; [reflexivity|].
  now rewrite (collide_out_of_reach s q Hq).
Qed.

(** The landing spot without [normalize]: the point at distance
    [radius + 7] from the centre on the ray through the craft, and the
    centre itself for a craft that is exactly there. *)
Lemma landing_spot_on_ray (s : Saucer.t) (body : Planet.t) :
  Saucer.pos s <> Planet.pos body ->
  landing_spot s body
  = on_ray (Planet.pos body) (Saucer.pos s) (Planet.radius body + 7).
Proof.
  intros Hne. unfold landing_spot, on_ray, Vec3.dist, Vec3.normalize.
  pose proof (mag_nonneg (Vec3.sub (Saucer.pos s) (Planet.pos body))) as Hn.
  destruct (Rlt_dec 0 (Vec3.mag (Vec3.sub (Saucer.pos s) (Planet.pos body))))
    as [Hpos|Hzero].
  - set (m := Vec3.mag (Vec3.sub (Saucer.pos s) (Planet.pos body))) in *.
    clearbody m. unfold Vec3.add, Vec3.mul. cbn [Vec3.x Vec3.y Vec3.z].
    apply (f_equal3 Vec3.mk); field; lra.
  - exfalso. apply Hne. apply sub_zero_inv, mag_zero_inv. lra.
Qed.

Lemma landing_spot_at_centre (s : Saucer.t) (body : Planet.t) :
  Saucer.pos s = Planet.pos body -> landing_spot s body = Planet.pos body.
Proof.
  intros Heq. unfold landing_spot. rewrite Heq.
  replace (Vec3.sub (Planet.pos body) (Planet.pos body)) with (Vec3.mk 0 0 0).
  - rewrite normalize_null by (rewrite mag_origin; lra).
    destruct (Planet.pos body). unfold Vec3.add, Vec3.mul.
    cbn [Vec3.x Vec3.y Vec3.z]. apply (f_equal3 Vec3.mk); ring.
  - destruct (Planet.pos body). unfold Vec3.sub. cbn [Vec3.x Vec3.y Vec3.z].
    apply (f_equal3 Vec3.mk); ring.
Qed.

(** Through the landing loop a craft that started the tick in flight is
    in flight or has speed zero. *)
Lemma collide_flying_or_still (s : Saucer.t) (q : Planet.t) :
  Saucer.landed_on s = None \/ Saucer.speed s = 0 ->
  Saucer.landed_on (Saucer.collide s q) = None
  \/ Saucer.speed (Saucer.collide s q) = 0.
Proof.
  intros H. unfold Saucer.collide.
  destruct (Rlt_dec _ _); [|exact H].
  destruct (Rlt_dec _ _); cbn; [now right|].
  destruct H as [H | H]; [now left | right; rewrite H; ring].
Qed.

Lemma collide_loop_flying_or_still (planets : list Planet.t) :
  forall s, Saucer.landed_on s = None \/ Saucer.speed s = 0 ->
            Saucer.landed_on (fold_left Saucer.collide planets s) = None
            \/ Saucer.speed (fold_left Saucer.collide planets s) = 0.
Proof.
  induction planets as [|q planets IH]; intros s H; cbn [fold_left];
    [exact H|].
  apply IH. now apply collide_flying_or_still.
Qed.

(** C5 (as amended): in an [update] of a flying craft each body of the
    list is tested against the state [s] in which the landing loop
    reaches it: the craft after the controls and motion of the tick and
    after the loop's steps at the bodies [before] it.  If [s] is closer to
    the body than its radius plus 23, then with [|speed| < 11] the step
    lands the craft on that body, speed and velocity zero, pitch -82, at
    [body.pos + normalize(s.pos - body.pos) * (radius + 7)], which is the
    point at distance [radius + 7] from the centre on the ray through the
    craft, and the centre itself for a craft exactly at the centre; with
    [|speed| >= 11] the craft stays in flight, its position moved back by
    twice the velocity and its speed multiplied by 0.3.  The state after
    the step is the state at the end of the tick when no body [after] it
    is within reach of it. *)
Theorem landing_or_bounce (self : Saucer.t) (keys : key -> bool)
    (before after : list Planet.t) (body : Planet.t) (dx dy : Z) (rh : bool)
    (wd : Z) :
  Saucer.landed_on self = None ->
  let s := fold_left Saucer.collide before (Saucer.fly self keys dx dy rh wd) in
  let s1 := Saucer.collide s body in
  let s' := Saucer.update self keys (before ++ body :: after) dx dy rh wd in
  in_reach s body ->
  (Rabs (Saucer.speed s) < 11 ->
     Saucer.landed_on s1 = Some body
     /\ Saucer.speed s1 = 0
     /\ Saucer.vel s1 = Vec3.mk 0 0 0
     /\ Saucer.pitch s1 = -82
     /\ Saucer.pos s1 = landing_spot s body
     /\ (Saucer.pos s <> Planet.pos body ->
         Saucer.pos s1
         = on_ray (Planet.pos body) (Saucer.pos s) (Planet.radius body + 7))
     /\ (Saucer.pos s = Planet.pos body -> Saucer.pos s1 = Planet.pos body))
  /\ (Rabs (Saucer.speed s) >= 11 ->
     Saucer.landed_on s1 = None
     /\ Saucer.pos s1 = Vec3.sub (Saucer.pos s) (Vec3.mul (Saucer.vel s) 2)
     /\ Saucer.speed s1 = Saucer.speed s * 0.3)
  /\ (Forall (fun q => ~ in_reach s1 q) after -> s' = s1).
Proof.
  intros Hfly s s1 s' Hreach.
  assert (Hinv : Saucer.landed_on s = None \/ Saucer.speed s = 0).
  { apply collide_loop_flying_or_still. left. now rewrite fly_landed_on. }
  split; [|split].
  - intros Hv. subst s1. rewrite (collide_lands s body (conj Hreach Hv)).
    cbn [Saucer.landed_on Saucer.speed Saucer.vel Saucer.pitch Saucer.pos].
    repeat (split; [reflexivity|]). split.
    + apply landing_spot_on_ray.
    + apply landing_spot_at_centre.
  - intros Hv. subst s1. rewrite collide_bounces by assumption.
    cbn [Saucer.landed_on Saucer.speed Saucer.pos].
    split; [|split; reflexivity].
    destruct Hinv as [H | H]; [exact H|].
    rewrite H, Rabs_R0 in Hv. lra.
  - intros Hafter. subst s'.
    rewrite (update_flying _ _ _ _ _ _ _ Hfly), fold_left_app. fold s.
    cbn [fold_left]. fold s1. now apply collide_loop_out_of_reach.
Qed.

Lemma clamp_id (lo hi v : R) : lo <= v <= hi -> Rmax lo (Rmin v hi) = v.
Proof.
  intros [H1 H2]. rewrite Rmin_left by assumption. now apply Rmax_right.
Qed.

Lemma clamp_id' (lo hi v : R) : lo <= v <= hi -> Rmax lo (Rmin hi v) = v.
Proof.
  intros [H1 H2]. rewrite Rmin_right by assumption. now apply Rmax_right.
Qed.

Lemma forward_level (s : Saucer.t) :
  Saucer.yaw s = 0 -> Saucer.pitch s = 0 ->
  Saucer.get_forward_vector s = Vec3.mk 0 (-0) (-1).
Proof.
  intros Hy Hp. unfold Saucer.get_forward_vector, radians.
  rewrite Hy, Hp.
  replace (0 * PI / 180) with 0 by lra.
  rewrite sin_0, cos_0. f_equal; lra.
Qed.

(** The craft [craft_at z v] with only [W] held, after controls and
    motion: it has sped up by 0.85 and moved that far along [-z]. *)
Lemma fly_craft_at (z v : R) :
  -15 <= v + 0.85 <= 42 ->
  let s := Saucer.fly (craft_at z v) only_w 0 0 false 0 in
  Saucer.pos s = Vec3.mk 0 0 (z - (v + 0.85))
  /\ Saucer.speed s = v + 0.85
  /\ Saucer.vel s = Vec3.mk 0 0 (- (v + 0.85)).
Proof.
  intros Hv.
  assert (Hthrust : Saucer.thrust (craft_at z v) only_w = craft_at z (v + 0.85))
    by reflexivity.
  assert (Hclamp : Saucer.clamp_speed (craft_at z (v + 0.85))
                   = craft_at z (v + 0.85)).
  { unfold Saucer.clamp_speed, craft_at, Saucer.set_speed.
    cbn [Saucer.speed Saucer.max_speed]. now rewrite clamp_id by lra. }
  assert (Hturn : forall s, Saucer.descend
                              (Saucer.ascend
                                 (Saucer.turn_right (Saucer.turn_left s only_w)
                                    only_w) only_w) only_w = s)
    by reflexivity.
  assert (Htilt : Saucer.clamp_pitch (Saucer.tilt (craft_at z (v + 0.85)) 0)
                  = craft_at z (v + 0.85)).
  { unfold Saucer.clamp_pitch, Saucer.tilt, craft_at, Saucer.set_pitch.
    cbn [Saucer.pitch]. replace (0 - 0 * 4.5) with 0 by lra.
    now rewrite clamp_id' by lra. }
  assert (Hmove : Saucer.move (Saucer.set_velocity (craft_at z (v + 0.85)))
                  = Saucer.mk (Vec3.mk 0 0 (z - (v + 0.85)))
                              (Vec3.mk 0 0 (- (v + 0.85))) 0 0 (v + 0.85) 42
                              180 18 52 None MsgControls).
  { unfold Saucer.move, Saucer.set_velocity.
    rewrite forward_level by reflexivity.
    unfold craft_at, Saucer.set_vel, Saucer.set_pos.
    cbn [Saucer.pos Saucer.vel Saucer.yaw Saucer.pitch Saucer.speed
         Saucer.max_speed Saucer.cam_yaw Saucer.cam_pitch Saucer.cam_dist
         Saucer.landed_on Saucer.ui_message Vec3.mul Vec3.add Vec3.x Vec3.y
         Vec3.z].
    unfold Vec3.mul, Vec3.add. cbn [Vec3.x Vec3.y Vec3.z].
    f_equal; (apply (f_equal3 Vec3.mk); lra). }
  cbv zeta. unfold Saucer.fly. rewrite Hthrust, Hclamp, Hturn, Htilt, Hmove.
  repeat split; reflexivity.
Qed.

(** The craft of the example after controls and motion: at distance 115
    from the body at the origin. *)
Lemma example_in_reach (z v : R) :
  -15 <= v + 0.85 <= 42 -> z - (v + 0.85) = 115 ->
  in_reach (Saucer.fly (craft_at z v) only_w 0 0 false 0)
           (body_at 0 (Vec3.mk 0 0 0) "planet" 100).
Proof.
  intros Hv Hz. destruct (fly_craft_at z v Hv) as (Hp & _).
  unfold in_reach, Vec3.dist. rewrite Hp, Hz. unfold body_at, Vec3.sub.
  cbn [Planet.pos Planet.radius Vec3.x Vec3.y Vec3.z].
  rewrite mag_along_z by lra. unfold Rabs. destruct (Rcase_abs _); lra.
Qed.

(** The example of C5, with a second body far away in the list: at
    distance 115 from a body of radius 100, speed 5 lands, 107 from the
    centre on the side of the craft, and speed 20 bounces, back to 155
    from the centre. *)
Lemma landing_or_bounce_witness :
  let body := body_at 0 (Vec3.mk 0 0 0) "planet" 100 in
  let far := body_at 2 (Vec3.mk 0 0 (-5000)) "planet" 100 in
  let landed := Saucer.update (craft_at 120 4.15) only_w [body; far] 0 0 false 0 in
  let bounced := Saucer.update (craft_at 135 19.15) only_w [body; far] 0 0 false 0 in
  (Saucer.landed_on landed = Some body
   /\ Saucer.pos landed = Vec3.mk 0 0 107)
  /\ (Saucer.landed_on bounced = None
      /\ Saucer.speed bounced = 20 * 0.3
      /\ Saucer.pos bounced = Vec3.mk 0 0 155).
Proof.
  intros body far landed bounced.
  assert (Hfar : forall s, Vec3.x (Saucer.pos s) = 0 -> Vec3.y (Saucer.pos s) = 0 ->
            0 <= Vec3.z (Saucer.pos s) -> ~ in_reach s far).
  { intros s Hx Hy Hz. unfold in_reach, Vec3.dist, far, body_at, Vec3.sub.
    cbn [Planet.pos Planet.radius Vec3.x Vec3.y Vec3.z].
    rewrite mag_along_z by lra. unfold Rabs. destruct (Rcase_abs _); lra. }
  split.
  - destruct (fly_craft_at 120 4.15 ltac:(lra)) as (Hp & Hs & _).
    destruct (landing_or_bounce (craft_at 120 4.15) only_w [] [far] body
                0 0 false 0 eq_refl (example_in_reach 120 4.15 ltac:(lra) ltac:(lra)))
      as (Hland & _ & Hend).
    cbn [fold_left app] in Hland, Hend.
    destruct Hland as (Hon & _ & _ & _ & _ & Hray & _);
      [rewrite Hs; rewrite Rabs_right; lra|].
    assert (Hpos : Saucer.pos
                     (Saucer.collide
                        (Saucer.fly (craft_at 120 4.15) only_w 0 0 false 0) body)
                   = Vec3.mk 0 0 107).
    { rewrite Hray.
      - rewrite Hp. unfold on_ray, Vec3.dist, body, body_at, Vec3.sub.
        cbn [Planet.pos Planet.radius Vec3.x Vec3.y Vec3.z].
        rewrite mag_along_z by lra.
        replace (Rabs (120 - (4.15 + 0.85) - 0)) with 115
          by (unfold Rabs; destruct (Rcase_abs _); lra).
        unfold Vec3.add, Vec3.mul. cbn [Vec3.x Vec3.y Vec3.z].
        apply (f_equal3 Vec3.mk); lra.
      - rewrite Hp. unfold body, body_at. cbn [Planet.pos].
        intros H. apply Vec3_eq_inv in H. lra. }
    unfold landed. rewrite Hend.
    + split; assumption.
    + apply List.Forall_cons; [|apply List.Forall_nil].
      apply Hfar; rewrite Hpos; cbn [Vec3.x Vec3.y Vec3.z]; lra.
  - destruct (fly_craft_at 135 19.15 ltac:(lra)) as (Hp & Hs & Hvel).
    destruct (landing_or_bounce (craft_at 135 19.15) only_w [] [far] body
                0 0 false 0 eq_refl (example_in_reach 135 19.15 ltac:(lra) ltac:(lra)))
      as (_ & Hbounce & Hend).
    cbn [fold_left app] in Hbounce, Hend.
    destruct Hbounce as (Hon & Hpos & Hspeed);
      [rewrite Hs; rewrite Rabs_right; lra|].
    rewrite Hp, Hvel in Hpos. unfold Vec3.sub, Vec3.mul in Hpos.
    cbn [Vec3.x Vec3.y Vec3.z] in Hpos.
    unfold bounced. rewrite Hend.
    + split; [exact Hon|]. split; [rewrite Hspeed, Hs; lra|].
      rewrite Hpos. apply (f_equal3 Vec3.mk); lra.
    + apply List.Forall_cons; [|apply List.Forall_nil].
      apply Hfar; rewrite Hpos; cbn [Vec3.x Vec3.y Vec3.z]; lra.
Defined.

(** C5 (as stated) fails when the list holds another body.  The craft of
    the example at speed 20 is within reach of the body and bounces off
    it, back to 155 from its centre at speed 6; there it is within reach
    of the [other] body, 115 from its centre, below the landing speed: it
    ends the tick landed on [other], not in flight. *)
Lemma bounced_craft_lands_on_another_body :
  let body := body_at 0 (Vec3.mk 0 0 0) "planet" 100 in
  let other := body_at 1 (Vec3.mk 0 0 270) "planet" 100 in
  let s := Saucer.fly (craft_at 135 19.15) only_w 0 0 false 0 in
  let s' := Saucer.update (craft_at 135 19.15) only_w [body; other] 0 0 false 0 in
  in_reach s body
  /\ Rabs (Saucer.speed s) >= 11
  /\ Saucer.landed_on s' = Some other
  /\ Saucer.speed s' = 0
  /\ Saucer.landed_on s' <> None.
Proof.
  intros body other s s'.
  destruct (fly_craft_at 135 19.15 ltac:(lra)) as (Hp & Hs & Hvel).
  fold s in Hp, Hs, Hvel.
  assert (Hreach : in_reach s body)
    by exact (example_in_reach 135 19.15 ltac:(lra) ltac:(lra)).
  assert (Hfast : Rabs (Saucer.speed s) >= 11)
    by (rewrite Hs; rewrite Rabs_right; lra).
  split; [exact Hreach|]. split; [exact Hfast|].
  assert (Hrun : s' = Saucer.collide (Saucer.collide s body) other).
  { unfold s'.
    rewrite (update_flying (craft_at 135 19.15) only_w [body; other] 0 0 false 0
               eq_refl).
    reflexivity. }
  assert (Hland : can_land (Saucer.collide s body) other).
  { rewrite (collide_bounces s body Hreach Hfast). split.
    - unfold in_reach, Vec3.dist. cbn [Saucer.pos]. rewrite Hp, Hvel.
      unfold other, body_at, Vec3.sub, Vec3.mul.
      cbn [Planet.pos Planet.radius Vec3.x Vec3.y Vec3.z].
      rewrite mag_along_z by lra. unfold Rabs. destruct (Rcase_abs _); lra.
    - cbn [Saucer.speed]. rewrite Hs. rewrite Rabs_right; lra. }
  rewrite Hrun, (collide_lands _ other Hland).
  cbn [Saucer.landed_on Saucer.speed]. repeat split. discriminate.
Qed.

(** *** Craft: the landing loop *)

(** C10 (as amended): in an [update] of a flying craft the landing loop
    runs through the whole body list, also after a landing, and each body
    is tested against the state the loop has reached, not against the
    state after motion.  If [body] passes the landing test in the state in
    which the loop reaches it (whatever happened at the bodies [before],
    landings included), and no body [after] it passes the test in its
    turn, the craft ends the tick landed on [body], at the spot that
    landing snaps it to: the last body to pass the test in its turn wins.
    A later body is tested against the position the earlier landing has
    snapped the craft to. *)
Theorem landing_loop_last_body_wins (self : Saucer.t) (keys : key -> bool)
    (before after : list Planet.t) (body : Planet.t) (dx dy : Z) (rh : bool)
    (wd : Z) :
  Saucer.landed_on self = None ->
  let s := fold_left Saucer.collide before (Saucer.fly self keys dx dy rh wd) in
  can_land s body ->
  Forall (fun q => ~ can_land (Saucer.collide s body) q) after ->
  let s' := Saucer.update self keys (before ++ body :: after) dx dy rh wd in
  s' = Saucer.collide s body
  /\ Saucer.landed_on s' = Some body
  /\ Saucer.pos s' = landing_spot s body.
Proof.
  intros Hfly s Hland Hafter s'. subst s'.
  rewrite (update_flying _ _ _ _ _ _ _ Hfly), fold_left_app. fold s.
  cbn [fold_left].
  assert (Hstay : fold_left Saucer.collide after (Saucer.collide s body)
                  = Saucer.collide s body).
  { apply collide_loop_out_of_reach.
    eapply Forall_impl; [exact Hafter|]. cbn. intros q Hq Hreach.
    apply Hq. split; [assumption|].
    rewrite (collide_lands s body Hland). cbn [Saucer.speed].
    rewrite Rabs_R0. lra. }
  rewrite Hstay. split; [reflexivity|].
  rewrite (collide_lands s body Hland). split; reflexivity.
Qed.

(** Two bodies of radius 100, at the origin and at [z = 220], and a craft
    that comes to rest between them at [z = 110]: it first lands on the
    first body, at [z = 107], from where the second body is in reach, and
    it ends the tick landed on the second. *)
Lemma landing_loop_last_body_wins_witness :
  let first := body_at 0 (Vec3.mk 0 0 0) "planet" 100 in
  let second := body_at 1 (Vec3.mk 0 0 220) "planet" 100 in
  let s' := Saucer.update (craft_at 110 (-0.85)) only_w [first; second]
                          0 0 false 0 in
  can_land (Saucer.fly (craft_at 110 (-0.85)) only_w 0 0 false 0) first
  /\ Saucer.landed_on s' = Some second
  /\ Saucer.pos s' = Vec3.mk 0 0 113.
Proof.
  intros first second.
  destruct (fly_craft_at 110 (-0.85) ltac:(lra)) as (Hp & Hs & _).
  set (s0 := Saucer.fly (craft_at 110 (-0.85)) only_w 0 0 false 0) in *.
  assert (H1 : can_land s0 first).
  { split.
    - unfold in_reach, Vec3.dist. rewrite Hp.
      unfold first, body_at, Vec3.sub.
      cbn [Planet.pos Planet.radius Vec3.x Vec3.y Vec3.z].
      replace (0 - 0) with 0 by lra.
      rewrite mag_on_z by lra. lra.
    - rewrite Hs. replace (-0.85 + 0.85) with 0 by lra. rewrite Rabs_R0. lra. }
  assert (Hspot : landing_spot s0 first = Vec3.mk 0 0 107).
  { unfold landing_spot. rewrite Hp.
    unfold first, body_at, Vec3.sub.
    cbn [Planet.pos Planet.radius Vec3.x Vec3.y Vec3.z].
    replace (0 - 0) with 0 by lra.
    rewrite normalize_on_z_pos by lra.
    unfold Vec3.mul, Vec3.add. cbn [Vec3.x Vec3.y Vec3.z].
    apply (f_equal3 Vec3.mk); lra. }
  assert (H2 : can_land (fold_left Saucer.collide [first] s0) second).
  { cbn [fold_left]. rewrite (collide_lands s0 first H1), Hspot. split.
    - unfold in_reach, Vec3.dist.
      unfold second, body_at, Vec3.sub.
      cbn [Planet.pos Planet.radius Vec3.x Vec3.y Vec3.z Saucer.pos].
      replace (0 - 0) with 0 by lra.
      replace (Vec3.mag (Vec3.mk 0 0 (107 - 220))) with 113; [lra|].
      unfold Vec3.mag. cbn [Vec3.x Vec3.y Vec3.z].
      replace (0 ^ 2 + 0 ^ 2 + (107 - 220) ^ 2) with (113 * 113) by ring.
      symmetry. apply sqrt_square. lra.
    - cbn [Saucer.speed]. rewrite Rabs_R0. lra. }
  split; [exact H1|].
  destruct (landing_loop_last_body_wins (craft_at 110 (-0.85)) only_w [first] []
              second 0 0 false 0 eq_refl H2 (List.Forall_nil _)) as (_ & Hl & Hpos).
  split; [exact Hl|].
  cbn [app] in Hpos. rewrite Hpos. cbn [fold_left]. fold s0.
  rewrite (collide_lands s0 first H1), Hspot. unfold landing_spot.
  unfold second, body_at, Vec3.sub.
  cbn [Planet.pos Planet.radius Vec3.x Vec3.y Vec3.z Saucer.pos].
  replace (0 - 0) with 0 by lra.
  rewrite normalize_on_z by lra.
  unfold Vec3.mul, Vec3.add. cbn [Vec3.x Vec3.y Vec3.z].
  apply (f_equal3 Vec3.mk); lra.
Defined.

(** C10 (as stated) fails.  Two bodies of radius 100, at the origin and at
    [z = 244], and a craft that comes to rest between them at [z = 122]:
    both satisfy the landing condition for the craft after its motion,
    yet the craft ends the tick landed on the first, at [z = 107], from
    where the second is 137 away and out of reach. *)
Lemma landing_loop_first_body_can_win :
  let first := body_at 0 (Vec3.mk 0 0 0) "planet" 100 in
  let second := body_at 1 (Vec3.mk 0 0 244) "planet" 100 in
  let s := Saucer.fly (craft_at 122 (-0.85)) only_w 0 0 false 0 in
  let s' := Saucer.update (craft_at 122 (-0.85)) only_w [first; second]
                          0 0 false 0 in
  can_land s first
  /\ can_land s second
  /\ Saucer.landed_on s' = Some first
  /\ Saucer.pos s' = Vec3.mk 0 0 107
  /\ Saucer.landed_on s' <> Some second.
Proof.
  intros first second s s'.
  destruct (fly_craft_at 122 (-0.85) ltac:(lra)) as (Hp & Hs & _).
  fold s in Hp, Hs.
  assert (Hslow : Rabs (Saucer.speed s) < 11).
  { rewrite Hs. replace (-0.85 + 0.85) with 0 by lra. rewrite Rabs_R0. lra. }
  assert (H1 : can_land s first).
  { split; [|exact Hslow]. unfold in_reach, Vec3.dist. rewrite Hp.
    unfold first, body_at, Vec3.sub.
    cbn [Planet.pos Planet.radius Vec3.x Vec3.y Vec3.z].
    rewrite mag_along_z by lra. unfold Rabs. destruct (Rcase_abs _); lra. }
  assert (H2 : can_land s second).
  { split; [|exact Hslow]. unfold in_reach, Vec3.dist. rewrite Hp.
    unfold second, body_at, Vec3.sub.
    cbn [Planet.pos Planet.radius Vec3.x Vec3.y Vec3.z].
    rewrite mag_along_z by lra. unfold Rabs. destruct (Rcase_abs _); lra. }
  assert (Hspot : landing_spot s first = Vec3.mk 0 0 107).
  { rewrite landing_spot_on_ray.
    - rewrite Hp. unfold on_ray, Vec3.dist, first, body_at, Vec3.sub.
      cbn [Planet.pos Planet.radius Vec3.x Vec3.y Vec3.z].
      rewrite mag_along_z by lra.
      replace (Rabs (122 - (-0.85 + 0.85) - 0)) with 122
        by (unfold Rabs; destruct (Rcase_abs _); lra).
      unfold Vec3.add, Vec3.mul. cbn [Vec3.x Vec3.y Vec3.z].
      apply (f_equal3 Vec3.mk); lra.
    - rewrite Hp. unfold first, body_at. cbn [Planet.pos].
      intros H. apply Vec3_eq_inv in H. lra. }
  assert (Hout : ~ in_reach (Saucer.collide s first) second).
  { rewrite (collide_lands s first H1), Hspot.
    unfold in_reach, Vec3.dist, second, body_at, Vec3.sub.
    cbn [Saucer.pos Planet.pos Planet.radius Vec3.x Vec3.y Vec3.z].
    rewrite mag_along_z by lra. unfold Rabs. destruct (Rcase_abs _); lra. }
  assert (Hrun : s' = Saucer.collide s first).
  { unfold s'.
    rewrite (update_flying (craft_at 122 (-0.85)) only_w [first; second]
               0 0 false 0 eq_refl).
    cbn [fold_left]. fold s. exact (collide_out_of_reach _ _ Hout). }
  split; [exact H1|]. split; [exact H2|].
  rewrite Hrun, (collide_lands s first H1), Hspot.
  cbn [Saucer.landed_on Saucer.pos]. split; [reflexivity|].
  split; [reflexivity|].
  intros H.
  apply (f_equal (fun o => match o with
                           | Some b => Planet.oid b
                           | None => 0%nat
                           end)) in H.
  discriminate H.
Qed.

(** *** Orbital groups: [update] *)

Lemma update_orbit_moves (dt : R) (centre : Vec3.t) (b : Planet.t) (d w : R) :
  is_Some (Planet.parent b) ->
  as_number (Planet.orbitDistance b) = Some d -> 0.1 < d ->
  as_number (Planet.orbitSpeed b) = Some w ->
  Planet.update_orbit dt centre b
  = Ok (Planet.set_pos
          (Vec3.mk (Vec3.x centre + cos (Planet.orbitAngle b + w * dt * 0.3) * d)
                   (Vec3.y (Planet.pos b))
                   (Vec3.z centre + sin (Planet.orbitAngle b + w * dt * 0.3) * d))
          (Planet.set_orbitAngle (Planet.orbitAngle b + w * dt * 0.3) b)).
Proof.
  intros Hp Hd Hfar Hw. unfold Planet.update_orbit, py_gt, py_number.
  rewrite Hd, Hw. cbn [rbind].
  destruct (Rlt_dec 0.1 d) as [_|N]; [|contradiction].
  rewrite bool_decide_eq_true_2 by assumption. reflexivity.
Qed.

Lemma update_orbit_near (dt : R) (centre : Vec3.t) (b : Planet.t) (d : R) :
  as_number (Planet.orbitDistance b) = Some d -> d <= 0.1 ->
  Planet.update_orbit dt centre b = Ok b.
Proof.
  intros Hd Hnear. unfold Planet.update_orbit, py_gt, py_number.
  rewrite Hd. cbn [rbind].
  destruct (Rlt_dec 0.1 d) as [Y|_]; [lra | reflexivity].
Qed.

Lemma set_bodies_same (sys : SolarSystem.t) :
  SolarSystem.set_bodies (SolarSystem.bodies sys) sys = sys.
Proof. now destruct sys. Qed.

(** One iteration of the loop of [update]. *)
Lemma update_body_spec (dt : R) (sys : SolarSystem.t) (i : nat) (b : Planet.t) :
  SolarSystem.bodies sys !! i = Some b -> orbit_sound b ->
  exists b',
    SolarSystem.update_body dt sys i
    = Ok (SolarSystem.set_bodies (<[i := b']> (SolarSystem.bodies sys)) sys)
    /\ (orbits b -> moved dt (orbit_centre sys b) b b')
    /\ (~ orbits b -> b' = b).
Proof.
  intros Hi Hready. unfold SolarSystem.update_body, orbit_centre. rewrite Hi.
  destruct (Planet.parent b) as [ref|] eqn:Hp.
  - destruct Hready as (d & Hd & Hspeed); [eauto|].
    set (centre := match SolarSystem.find_body sys ref with
                   | Some parent => Planet.pos parent
                   | None => SolarSystem.center_pos sys
                   end).
    destruct (Rlt_dec 0.1 d) as [Hfar|Hnear].
    + destruct (Hspeed Hfar) as [w Hw].
      eexists. rewrite (update_orbit_moves dt centre b d w) by (rewrite ?Hp; eauto).
      cbn [rbind]. split; [reflexivity|]. split.
      * intros _. exists d, w. auto.
      * intros N. exfalso. apply N. split; [rewrite Hp|]; eauto.
    + exists b. rewrite (update_orbit_near dt centre b d Hd) by lra.
      cbn [rbind]. split; [reflexivity|]. split; [|reflexivity].
      intros [_ (d' & Hd' & Hfar)]. rewrite Hd in Hd'. injection Hd' as <-. lra.
  - exists b. rewrite list_insert_id by assumption. rewrite set_bodies_same.
    split; [reflexivity|]. split; [|reflexivity].
    intros [[? Hsome] _]. congruence.
Qed.

Lemma update_loop_spec (dt : R) (orig : SolarSystem.t) :
  Forall orbit_sound (SolarSystem.bodies orig) ->
  forall (m k : nat) (cur : list Planet.t),
    (k + m = length (SolarSystem.bodies orig))%nat ->
    length cur = length (SolarSystem.bodies orig) ->
    (forall i, (k <= i)%nat -> cur !! i = SolarSystem.bodies orig !! i) ->
    exists fin,
      SolarSystem.update_loop dt (SolarSystem.set_bodies cur orig) (seq k m)
      = Ok (SolarSystem.set_bodies fin orig)
      /\ length fin = length (SolarSystem.bodies orig)
      /\ (forall i, (i < k)%nat -> fin !! i = cur !! i)
      /\ (forall i b, (k <= i)%nat -> SolarSystem.bodies orig !! i = Some b ->
            exists b',
              fin !! i = Some b'
              /\ (orbits b ->
                  moved dt (orbit_centre
                              (SolarSystem.set_bodies
                                 (take i fin ++ drop i (SolarSystem.bodies orig))
                                 orig) b) b b')
              /\ (~ orbits b -> b' = b)).
Proof.
  intros Hready. induction m as [|m IH]; intros k cur Hkm Hlen Hrest.
  - exists cur. cbn [seq SolarSystem.update_loop]. split; [reflexivity|].
    split; [assumption|]. split; [auto|].
    intros i b Hki Hb. apply lookup_lt_Some in Hb. lia.
  - cbn [seq SolarSystem.update_loop].
    assert (Hk : (k < length (SolarSystem.bodies orig))%nat) by lia.
    destruct (lookup_lt_is_Some_2 _ _ Hk) as [b Hb].
    assert (Hcur : cur !! k = Some b) by (rewrite Hrest; [assumption | lia]).
    assert (Hrb : orbit_sound b).
    { rewrite Forall_forall in Hready. apply Hready.
      eapply list_elem_of_lookup_2. exact Hb. }
    destruct (update_body_spec dt (SolarSystem.set_bodies cur orig) k b Hcur Hrb)
      as (b' & Hstep & Hmove & Hstill).
    rewrite Hstep. cbn [rbind SolarSystem.set_bodies SolarSystem.bodies
                        SolarSystem.name SolarSystem.center_pos].
    destruct (IH (S k) (<[k := b']> cur)) as (fin & Hrun & Hflen & Hlow & Hhigh).
    + lia.
    + now rewrite length_insert.
    + intros i Hi. rewrite list_lookup_insert_ne by lia. apply Hrest. lia.
    + exists fin.
      change (SolarSystem.set_bodies (<[k:=b']> cur) orig)
        with (SolarSystem.mk (SolarSystem.name orig) (<[k:=b']> cur)
                             (SolarSystem.center_pos orig)) in Hrun.
      split; [exact Hrun|]. split; [assumption|]. split.
      * intros i Hi. rewrite Hlow by lia. apply list_lookup_insert_ne. lia.
      * intros i c Hki Hc. destruct (decide (i = k)) as [->|Hne].
        -- rewrite Hb in Hc. injection Hc as <-. exists b'.
           split; [|split; [|assumption]].
           ++ rewrite Hlow by lia. apply list_lookup_insert_eq. lia.
           ++ intros Ho. specialize (Hmove Ho).
              replace (take k fin ++ drop k (SolarSystem.bodies orig)) with cur;
                [exact Hmove|].
              apply list_eq. intros j.
              destruct (decide (j < k)%nat) as [Hj|Hj].
              ** rewrite lookup_app_l by (rewrite length_take; lia).
                 rewrite lookup_take_lt by lia. rewrite Hlow by lia.
                 symmetry. apply list_lookup_insert_ne. lia.
              ** rewrite lookup_app_r by (rewrite length_take; lia).
                 rewrite length_take, lookup_drop.
                 replace (k `min` length fin)%nat with k by lia.
                 replace (k + (j - k))%nat with j by lia.
                 apply Hrest. lia.
        -- apply Hhigh; [lia | assumption].
Qed.

(** What a run of [update] that returns tells about the group it was
    given, and what [update] raises. *)
Lemma orbit_sound_ext (b b' : Planet.t) :
  orbit_fields b' = orbit_fields b -> orbit_sound b' -> orbit_sound b.
Proof.
  unfold orbit_fields, orbit_sound. intros [= Hp Hd Hs]. now rewrite Hp, Hd, Hs.
Qed.

Lemma update_orbit_ok (dt : R) (centre : Vec3.t) (b b' : Planet.t) :
  Planet.update_orbit dt centre b = Ok b' ->
  orbit_fields b' = orbit_fields b /\ orbit_sound b.
Proof.
  unfold Planet.update_orbit, py_gt, py_number, orbit_sound.
  destruct (as_number (Planet.orbitDistance b)) as [d|] eqn:Hd;
    [|discriminate]. cbn [rbind].
  destruct (Rlt_dec 0.1 d) as [Hfar|Hnear]; cbn [andb].
  - destruct (bool_decide (is_Some (Planet.parent b))) eqn:Hp.
    + destruct (as_number (Planet.orbitSpeed b)) as [w|] eqn:Hw;
        [|discriminate]. cbn [rbind]. intros [= <-].
      split; [reflexivity|]. intros _. exists d. eauto.
    + intros [= <-]. split; [reflexivity|]. intros Hsome.
      apply bool_decide_eq_false_1 in Hp. contradiction.
  - intros [= <-]. split; [reflexivity|]. intros _. exists d.
    split; [reflexivity | intros; contradiction].
Qed.

Lemma update_orbit_error (dt : R) (centre : Vec3.t) (b : Planet.t) (e : exn) :
  Planet.update_orbit dt centre b = Raise e -> e = TypeError.
Proof.
  unfold Planet.update_orbit, py_gt, py_number.
  destruct (as_number (Planet.orbitDistance b)) as [d|];
    [|now intros [= <-]]. cbn [rbind].
  destruct (_ && _)%bool; [|discriminate].
  destruct (as_number (Planet.orbitSpeed b)) as [w|]; [|now intros [= <-]].
  discriminate.
Qed.

Lemma update_body_ok (dt : R) (sys sys' : SolarSystem.t) (i : nat) :
  SolarSystem.update_body dt sys i = Ok sys' ->
  orbit_fields <$> SolarSystem.bodies sys' = orbit_fields <$> SolarSystem.bodies sys
  /\ forall b, SolarSystem.bodies sys !! i = Some b -> orbit_sound b.
Proof.
  unfold SolarSystem.update_body.
  destruct (SolarSystem.bodies sys !! i) as [b|] eqn:Hb;
    [|intros [= <-]; split; [reflexivity | discriminate]].
  destruct (Planet.parent b) as [ref|] eqn:Hp.
  - destruct (Planet.update_orbit _ _ b) as [b'|e] eqn:Hu; [|discriminate].
    cbn [rbind]. intros [= <-]. apply update_orbit_ok in Hu as [Hf Hs].
    split; [|intros c [= <-]; exact Hs].
    cbn [SolarSystem.bodies SolarSystem.set_bodies].
    rewrite list_fmap_insert, Hf. apply list_insert_id.
    now rewrite list_lookup_fmap, Hb.
  - intros [= <-]. split; [reflexivity|].
    intros c [= <-] [? Hsome]. congruence.
Qed.

Lemma update_body_error (dt : R) (sys : SolarSystem.t) (i : nat) (e : exn) :
  SolarSystem.update_body dt sys i = Raise e -> e = TypeError.
Proof.
  unfold SolarSystem.update_body.
  destruct (SolarSystem.bodies sys !! i) as [b|]; [|discriminate].
  destruct (Planet.parent b) as [ref|]; [|discriminate].
  destruct (Planet.update_orbit _ _ b) as [b'|e'] eqn:Hu; [discriminate|].
  cbn [rbind]. intros [= <-]. exact (update_orbit_error _ _ _ _ Hu).
Qed.

Lemma update_loop_ok (dt : R) (indices : list nat) :
  forall sys sys',
    SolarSystem.update_loop dt sys indices = Ok sys' ->
    orbit_fields <$> SolarSystem.bodies sys' = orbit_fields <$> SolarSystem.bodies sys
    /\ forall i b, In i indices -> SolarSystem.bodies sys !! i = Some b ->
                   orbit_sound b.
Proof.
  induction indices as [|i rest IH]; intros sys sys' H;
    cbn [SolarSystem.update_loop] in H.
  - injection H as <-. split; [reflexivity | intros i b []].
  - destruct (SolarSystem.update_body dt sys i) as [sys1|e] eqn:H1;
      [|discriminate]. cbn [rbind] in H.
    apply update_body_ok in H1 as [F1 S1]. apply IH in H as [F S].
    split; [congruence|]. intros j b [<- | Hj] Hb; [exact (S1 b Hb)|].
    assert (Hf : (orbit_fields <$> SolarSystem.bodies sys1) !! j
                 = Some (orbit_fields b))
      by (now rewrite F1, list_lookup_fmap, Hb).
    rewrite list_lookup_fmap in Hf.
    destruct (SolarSystem.bodies sys1 !! j) as [b1|] eqn:Hb1; [|discriminate].
    apply (orbit_sound_ext b b1);
      [cbn [fmap option_fmap option_map] in Hf; congruence|].
    exact (S j b1 Hj Hb1).
Qed.

Lemma update_loop_error (dt : R) (indices : list nat) :
  forall sys e, SolarSystem.update_loop dt sys indices = Raise e -> e = TypeError.
Proof.
  induction indices as [|i rest IH]; intros sys e H;
    cbn [SolarSystem.update_loop] in H; [discriminate|].
  destruct (SolarSystem.update_body dt sys i) as [sys1|e1] eqn:H1;
    cbn [rbind] in H.
  - exact (IH _ _ H).
  - injection H as <-. exact (update_body_error _ _ _ _ H1).
Qed.

(** C6 (as amended): whether [update(dt)] returns is decided by the orbit
    fields.  For a group in which every body with a parent reference has
    a numeric orbit distance and, when it is above 0.1, a numeric orbit
    speed, [update(dt)] returns and keeps the number of bodies and the
    anchor.  A body with a parent reference and orbit distance above 0.1
    has its angle advanced by [orbitSpeed * dt * 0.3] and the [x] and [z]
    of its position set to those of the centre plus [cos(angle) * distance]
    and [sin(angle) * distance]; its [y] is left as it was.  The centre is
    the position, at that moment of the loop, of the body of the group
    that is the parent, and the anchor of the group when the reference
    designates no body of the group.  A body with no parent reference, or
    with orbit distance at most 0.1, is left unchanged.  For any other
    group [update(dt)] raises [TypeError]. *)
Theorem update_moves_bodies_in_the_plane (dt : R) (sys : SolarSystem.t) :
  (Forall orbit_sound (SolarSystem.bodies sys) ->
   exists sys',
     SolarSystem.update dt sys = Ok sys'
     /\ length (SolarSystem.bodies sys') = length (SolarSystem.bodies sys)
     /\ SolarSystem.center_pos sys' = SolarSystem.center_pos sys
     /\ forall i b, SolarSystem.bodies sys !! i = Some b ->
          exists b',
            SolarSystem.bodies sys' !! i = Some b'
            /\ (orbits b -> moved dt (orbit_centre (seen_at i sys sys') b) b b')
            /\ (~ orbits b -> b' = b))
  /\ (~ Forall orbit_sound (SolarSystem.bodies sys) ->
      SolarSystem.update dt sys = Raise TypeError).
Proof.
  split.
  - intros Hready.
    destruct (update_loop_spec dt sys Hready (length (SolarSystem.bodies sys)) 0
                (SolarSystem.bodies sys) eq_refl eq_refl (fun _ _ => eq_refl))
      as (fin & Hrun & Hlen & _ & Hall).
    exists (SolarSystem.set_bodies fin sys). unfold SolarSystem.update.
    rewrite set_bodies_same in Hrun. split; [exact Hrun|].
    split; [exact Hlen|]. split; [reflexivity|].
    intros i b Hb. apply (Hall i b); [lia | assumption].
  - intros Hbad. unfold SolarSystem.update.
    destruct (SolarSystem.update_loop dt sys _) as [sys'|e] eqn:Hrun.
    + exfalso. apply Hbad. apply update_loop_ok in Hrun as [_ Hs].
      apply Forall_forall. intros b Hb.
      apply list_elem_of_lookup_1 in Hb as [i Hi].
      apply (Hs i b); [|exact Hi].
      apply in_seq. apply lookup_lt_Some in Hi. lia.
    + f_equal. exact (update_loop_error _ _ _ _ Hrun).
Qed.

Lemma trio_sound : Forall orbit_sound (SolarSystem.bodies trio).
Proof.
  unfold trio. cbn [SolarSystem.bodies].
  repeat (apply List.Forall_cons;
          [intros _; cbn; eexists; split; [reflexivity | intros _; eauto]|]).
  apply List.Forall_nil.
Qed.

Lemma stalled_not_sound : ~ Forall orbit_sound (SolarSystem.bodies stalled).
Proof.
  unfold stalled. cbn [SolarSystem.bodies]. intros H.
  apply Forall_cons_1 in H as [_ H]. apply Forall_cons_1 in H as [H _].
  destruct H as (d & Hd & Hspeed); [cbn; eauto|].
  cbn in Hd. injection Hd as <-.
  destruct Hspeed as [w Hw]; [lra | discriminate Hw].
Qed.

(** In [trio] every orbit field is a number and [update] returns; in
    [stalled] the orbit speed of the orbiting body is text and [update]
    raises [TypeError]. *)
Lemma update_moves_bodies_in_the_plane_witness :
  (Forall orbit_sound (SolarSystem.bodies trio)
   /\ exists sys',
        SolarSystem.update 1 trio = Ok sys'
        /\ length (SolarSystem.bodies sys') = 3%nat
        /\ SolarSystem.center_pos sys' = Vec3.mk 100 0 0)
  /\ (~ Forall orbit_sound (SolarSystem.bodies stalled)
      /\ SolarSystem.update 1 stalled = Raise TypeError).
Proof.
  split.
  - split; [exact trio_sound|].
    destruct (proj1 (update_moves_bodies_in_the_plane 1 trio) trio_sound)
      as (sys' & Hrun & Hlen & Hc & _).
    exists sys'. auto.
  - split; [exact stalled_not_sound|].
    exact (proj2 (update_moves_bodies_in_the_plane 1 stalled) stalled_not_sound).
Defined.

Lemma trio_update :
  SolarSystem.update 1 trio
  = Ok (SolarSystem.mk (PStr "trio")
          [orbiter 0 (Vec3.mk 0 0 0) None (PInt 0) (PFloat 0.2);
           Planet.set_pos
             (Vec3.mk (0 + cos (0 + 0 * 1 * 0.3) * 10) 5
                      (0 + sin (0 + 0 * 1 * 0.3) * 10))
             (Planet.set_orbitAngle (0 + 0 * 1 * 0.3)
                (orbiter 1 (Vec3.mk 10 5 0) (Some 0%nat) (PInt 10) (PInt 0)));
           Planet.set_pos
             (Vec3.mk (100 + cos (0 + 0 * 1 * 0.3) * 10) 5
                      (0 + sin (0 + 0 * 1 * 0.3) * 10))
             (Planet.set_orbitAngle (0 + 0 * 1 * 0.3)
                (orbiter 2 (Vec3.mk 10 5 0) (Some 7%nat) (PInt 10) (PInt 0)))]
          (Vec3.mk 100 0 0)).
Proof.
  unfold SolarSystem.update, trio.
  cbn [SolarSystem.bodies length seq SolarSystem.update_loop].
  unfold SolarSystem.update_body at 1. cbn.
  destruct (Rlt_dec 0.1 10) as [_|N]; [|exfalso; lra]. cbn.
  unfold SolarSystem.update_body. cbn.
  destruct (Rlt_dec 0.1 10) as [_|N]; [|exfalso; lra]. reflexivity.
Qed.

Lemma orbit_angle_at_start (dt : R) :
  cos (0 + 0 * dt * 0.3) = 1 /\ sin (0 + 0 * dt * 0.3) = 0.
Proof.
  replace (0 + 0 * dt * 0.3) with 0 by lra. split; [apply cos_0 | apply sin_0].
Qed.

(** C6 (as stated) fails.  In [trio], after [update(1)]: the body that
    orbits the body at the origin is at [(10, 5, 0)], its own height, not
    at the parent's position plus [(cos * d, 0, sin * d)], which is
    [(10, 0, 0)]; and the body whose parent reference resolves to no body
    of the group has moved, to a circle around the anchor. *)
Lemma update_keeps_height_and_moves_strays :
  exists sys' parent moon moon' stray stray',
    SolarSystem.update 1 trio = Ok sys'
    /\ SolarSystem.bodies trio !! 0%nat = Some parent
    /\ SolarSystem.bodies trio !! 1%nat = Some moon
    /\ SolarSystem.bodies sys' !! 1%nat = Some moon'
    /\ SolarSystem.find_body trio 0 = Some parent
    /\ Planet.parent moon = Some 0%nat
    /\ Planet.pos moon'
       <> Vec3.add (Planet.pos parent)
            (Vec3.mk (cos (Planet.orbitAngle moon') * 10) 0
                     (sin (Planet.orbitAngle moon') * 10))
    /\ Planet.pos moon' = Vec3.mk 10 5 0
    /\ SolarSystem.bodies trio !! 2%nat = Some stray
    /\ SolarSystem.bodies sys' !! 2%nat = Some stray'
    /\ Planet.parent stray = Some 7%nat
    /\ SolarSystem.find_body trio 7 = None
    /\ Planet.pos stray = Vec3.mk 10 5 0
    /\ Planet.pos stray' = Vec3.mk 110 5 0.
Proof.
  destruct (orbit_angle_at_start 1) as [Hcos Hsin].
  do 6 eexists. split; [exact trio_update|].
  cbn [SolarSystem.bodies trio lookup list_lookup].
  repeat (split; [reflexivity|]).
  cbn [orbiter Planet.pos Planet.orbitAngle Planet.set_pos
       Planet.set_orbitAngle Vec3.add Vec3.x Vec3.y Vec3.z].
  rewrite Hcos, Hsin. split; [|split].
  - intros H. apply Vec3_eq_inv in H. cbn [Vec3.x Vec3.y Vec3.z] in H. lra.
  - f_equal; lra.
  - repeat (split; [reflexivity|]).
    cbn [orbiter Planet.pos Planet.set_pos Planet.set_orbitAngle].
    f_equal; lra.
Qed.

(** *** Planets: the colour *)

Lemma digit_is_plain (c : ascii) (v : Z) :
  digit_value c = Some v ->
  is_space c = false
  /\ Ascii.eqb c "+" = false /\ Ascii.eqb c "-" = false
  /\ Ascii.eqb c "_" = false
  /\ Ascii.eqb c "x" = false /\ Ascii.eqb c "X" = false.
Proof.
  destruct c as [[] [] [] [] [] [] [] []]; cbv; intros H;
    try discriminate H; repeat split; reflexivity.
Qed.

(** Two hex digits parse to the byte they denote. *)
Lemma int16_two_digits (c1 c2 : ascii) (v1 v2 : Z) :
  digit_value c1 = Some v1 -> digit_value c2 = Some v2 ->
  int16 (String c1 (String c2 EmptyString)) = Ok (v1 * 16 + v2)%Z.
Proof.
  intros H1 H2.
  destruct (digit_is_plain c1 v1 H1) as (S1 & P1 & M1 & U1 & _).
  destruct (digit_is_plain c2 v2 H2) as (S2 & P2 & M2 & U2 & X2 & X2').
  unfold int16. cbn [list_ascii_of_string skip_spaces]. rewrite S1.
  cbn [strip_sign]. rewrite P1, M1.
  cbn [strip_prefix]. rewrite X2, X2', andb_false_r.
  cbn [starts_with_underscore]. rewrite U1.
  cbn [scan_digits]. rewrite U1, H1, U2, H2. cbn [skip_spaces].
  f_equal. lia.
Qed.

Lemma substring_short (n m : nat) (s : string) :
  (String.length s <= n)%nat -> substring n m s = EmptyString.
Proof.
  revert s; induction n as [|n IH]; intros s Hlen.
  - destruct s; [|cbn in Hlen; lia]. now destruct m.
  - destruct s as [|c s]; [reflexivity|]. cbn. apply IH. cbn in Hlen. lia.
Qed.

Lemma hex_pair_text_error (s : string) (start : nat) (e : exn) :
  hex_pair (PStr s) start = Raise e -> e = ValueError.
Proof.
  unfold hex_pair, int16.
  destruct (strip_sign _) as [sign rest].
  destruct (starts_with_underscore _); [now intros [= <-]|].
  destruct (scan_digits _ _ _ _) as [[[n []] tl]|];
    try (now intros [= <-]).
  destruct (skip_spaces tl); [discriminate | now intros [= <-]].
Qed.

Lemma decode_color_well_formed (s : string) (r g b : Z) :
  hex_rgb s = Some (r, g, b) ->
  Planet.decode_color (PStr s) = Ok (IZR r / 255, IZR g / 255, IZR b / 255).
Proof.
  unfold hex_rgb.
  destruct s as [|c0 [|r1 [|r2 [|g1 [|g2 [|b1 [|b2 rest]]]]]]]; try discriminate.
  destruct (digit_value r1) as [vr1|] eqn:R1; [|discriminate].
  destruct (digit_value r2) as [vr2|] eqn:R2; [|discriminate].
  destruct (digit_value g1) as [vg1|] eqn:G1; [|discriminate].
  destruct (digit_value g2) as [vg2|] eqn:G2; [|discriminate].
  destruct (digit_value b1) as [vb1|] eqn:B1; [|discriminate].
  destruct (digit_value b2) as [vb2|] eqn:B2; [|discriminate].
  intros [= <- <- <-]. unfold Planet.decode_color, hex_pair.
  cbn [substring].
  replace (substring 0 0 rest) with EmptyString by (now destruct rest).
  rewrite (int16_two_digits _ _ _ _ R1 R2), (int16_two_digits _ _ _ _ G1 G2),
    (int16_two_digits _ _ _ _ B1 B2).
  reflexivity.
Qed.

Lemma decode_color_too_short (s : string) :
  (String.length s <= 5)%nat ->
  Planet.decode_color (PStr s) = Raise ValueError.
Proof.
  intros Hlen. unfold Planet.decode_color.
  destruct (hex_pair (PStr s) 1) as [r|e] eqn:Hr; cbn [rbind];
    [|now rewrite (hex_pair_text_error _ _ _ Hr)].
  destruct (hex_pair (PStr s) 3) as [g|e] eqn:Hg; cbn [rbind];
    [|now rewrite (hex_pair_text_error _ _ _ Hg)].
  unfold hex_pair. now rewrite substring_short.
Qed.

Lemma decode_color_not_text (v : pyval) :
  (forall s, v <> PStr s) -> Planet.decode_color v = Raise TypeError.
Proof.
  intros Hv. destruct v; try reflexivity. now destruct (Hv s).
Qed.

Lemma py_float_plain (E : PyEnv) (v : pyval) :
  plain_number v -> exists r, py_float v = Ok r.
Proof.
  intros [r Hr]. destruct v; try discriminate; cbn in *; unfold py_number;
    cbn; eauto.
Qed.

Section Colour.
Context `{E : PyEnv}.

(** The constructor on a manifest whose other parts convert: it
    returns a planet of the decoded colour, or raises what decoding
    the colour raises. *)
Lemma init_by_color (pos : Vec3.t) (items : list (string * pyval))
    (heightmap_bytes : option entry) (p : Proc) (ocean : pyval) :
  rest_converts items heightmap_bytes ->
  ocean_of (PDict items) = Ok ocean ->
  match Planet.decode_color ocean with
  | Ok c =>
      exists b p',
        Planet.__init__ pos (PDict items) heightmap_bytes p = (Ok b, p')
        /\ Planet.color b = c /\ Planet.pos b = pos
        /\ Planet.data b = PDict items /\ Planet.oid b = next_oid p
        /\ Planet.parent b = None
  | Raise e =>
      exists p', Planet.__init__ pos (PDict items) heightmap_bytes p = (Raise e, p')
  end.
Proof.
  intros [(params & Hparams & Hradius & Hring) Hmap] Hocean.
  destruct (py_float_plain E _ Hradius) as [radius Hr].
  destruct (py_float_plain E _ Hring) as [ring Hg].
  unfold ocean_of in Hocean. cbn [py_get rbind] in Hocean.
  unfold Planet.__init__, bind, new_oid, lift_result, random.
  cbn [py_get]. rewrite Hparams. cbn [py_get]. rewrite Hr.
  destruct (rng_random _) as [u g].
  destruct (default (PDict []) (assoc "colors" items)) as [| | | | | |c];
    try discriminate Hocean.
  cbn [py_get] in Hocean |- *. injection Hocean as ->.
  destruct (Planet.decode_color ocean) as [c'|e].
  - rewrite Hg.
    destruct Hmap as [-> | [-> | ->]]; cbn; eauto 10.
  - eauto.
Qed.
End Colour.

(** C7 (as amended): on a manifest whose other parts convert, the
    constructor gives the planet the default colour [#4488ff] whenever
    [colors], or [ocean] within it, is absent; it gives a text of the
    shape [#RRGGBB] the colour [(RR/255, GG/255, BB/255)]; and on a text
    with fewer than six characters, as on a value that is not text, it
    does not substitute the default: it raises, and no planet is built. *)
Theorem init_color `{E : PyEnv} (pos : Vec3.t) (items : list (string * pyval))
    (heightmap_bytes : option entry) (p : Proc) :
  rest_converts items heightmap_bytes ->
  (ocean_absent items ->
     exists b p',
       Planet.__init__ pos (PDict items) heightmap_bytes p = (Ok b, p')
       /\ Planet.color b = default_color)
  /\ (forall s r g b,
        ocean_of (PDict items) = Ok (PStr s) -> hex_rgb s = Some (r, g, b) ->
        exists body p',
          Planet.__init__ pos (PDict items) heightmap_bytes p = (Ok body, p')
          /\ Planet.color body = (IZR r / 255, IZR g / 255, IZR b / 255))
  /\ (forall s,
        ocean_of (PDict items) = Ok (PStr s) -> (String.length s <= 5)%nat ->
        exists p',
          Planet.__init__ pos (PDict items) heightmap_bytes p
          = (Raise ValueError, p'))
  /\ (forall v,
        ocean_of (PDict items) = Ok v -> (forall s, v <> PStr s) ->
        exists p',
          Planet.__init__ pos (PDict items) heightmap_bytes p
          = (Raise TypeError, p')).
Proof.
  intros Hrest. split; [|split; [|split]].
  - intros Habs.
    assert (Hocean : ocean_of (PDict items) = Ok (PStr "#4488ff")).
    { unfold ocean_of. cbn [py_get rbind].
      destruct Habs as [-> | (c & -> & Hc)]; cbn [default py_get];
        [reflexivity | ]. cbv [Datatypes.id py_get]. now rewrite Hc. }
    pose proof (init_by_color pos items heightmap_bytes p _ Hrest Hocean) as H.
    rewrite (decode_color_well_formed "#4488ff" 68 136 255 eq_refl) in H.
    destruct H as (b & p' & Hrun & Hcol & _). eauto.
  - intros s r g b Hocean Hhex.
    pose proof (init_by_color pos items heightmap_bytes p _ Hrest Hocean) as H.
    rewrite (decode_color_well_formed s r g b Hhex) in H.
    destruct H as (body & p' & Hrun & Hcol & _). eauto.
  - intros s Hocean Hlen.
    pose proof (init_by_color pos items heightmap_bytes p _ Hrest Hocean) as H.
    now rewrite (decode_color_too_short s Hlen) in H.
  - intros v Hocean Hv.
    pose proof (init_by_color pos items heightmap_bytes p _ Hrest Hocean) as H.
    now rewrite (decode_color_not_text v Hv) in H.
Qed.

Lemma init_color_witness :
  let items := [("seed", PStr "Aqua");
                ("params", PDict [("radius", PInt 150)]);
                ("colors", PDict [("ocean", PStr "#112233")])] in
  rest_converts items None
  /\ exists body p',
       @Planet.__init__ demo_env (Vec3.mk 0 0 0) (PDict items) None
                        (@mkProc demo_env 1%Z 0 0) = (Ok body, p')
       /\ Planet.color body = (IZR 17 / 255, IZR 34 / 255, IZR 51 / 255).
Proof.
  intros items.
  assert (Hrest : rest_converts items None).
  { split; [|now left].
    exists [("radius", PInt 150)].
    split; [reflexivity | split; eexists; reflexivity]. }
  split; [exact Hrest|].
  destruct (@init_color demo_env (Vec3.mk 0 0 0) items None
              (@mkProc demo_env 1%Z 0 0) Hrest) as (_ & Hhex & _).
  exact (Hhex "#112233" 17%Z 34%Z 51%Z eq_refl eq_refl).
Defined.

(** C7 (as stated) fails: on a colour text that is too short, or that
    has characters that are not hex digits, the constructor raises
    [ValueError] and builds no planet. *)
Lemma init_fails_on_malformed_color :
  fst (@Planet.__init__ demo_env (Vec3.mk 0 0 0)
         (PDict [("colors", PDict [("ocean", PStr "#12")])]) None
         (@mkProc demo_env 1%Z 0 0))
  = Raise ValueError
  /\ fst (@Planet.__init__ demo_env (Vec3.mk 0 0 0)
            (PDict [("colors", PDict [("ocean", PStr "#GGGGGG")])]) None
            (@mkProc demo_env 1%Z 0 0))
     = Raise ValueError.
Proof. split; reflexivity. Qed.

(** *** Import: parent references *)

Lemma list_index_spec {A} (l : list A) (i : Z) :
  list_index l i
  = if (0 <=? i)%Z then
      match l !! Z.to_nat i with Some a => Ok a | None => Raise IndexError end
    else if (- Z.of_nat (length l) <=? i)%Z then
      match l !! Z.to_nat (i + Z.of_nat (length l)) with
      | Some a => Ok a
      | None => Raise IndexError
      end
    else Raise IndexError.
Proof.
  unfold list_index.
  destruct (Z.leb_spec 0 i) as [Hi|Hi].
  - destruct (Z.ltb_spec i 0) as [?|_]; [lia|].
    rewrite (proj2 (Z.leb_le 0 i)) by lia. cbn [andb].
    destruct (Z.ltb_spec i (Z.of_nat (length l))) as [Hlt|Hge]; [reflexivity|].
    rewrite lookup_ge_None_2 by lia. reflexivity.
  - destruct (Z.ltb_spec i 0) as [_|?]; [|lia].
    destruct (Z.leb_spec (- Z.of_nat (length l)) i) as [Hlo|Hlo].
    + rewrite (proj2 (Z.leb_le 0 (i + Z.of_nat (length l)))) by lia.
      rewrite (proj2 (Z.ltb_lt (i + Z.of_nat (length l)) (Z.of_nat (length l))))
        by lia.
      reflexivity.
    + destruct (Z.leb_spec 0 (i + Z.of_nat (length l))) as [?|_]; [lia|].
      reflexivity.
Qed.

(** The parent statement of [load_solar_system] on an [int] reference:
    an index at or past the number of bodies added so far is ignored; an
    index below it is looked up as Python does, from the end when it is
    negative, and raises [IndexError] when it is below minus that
    number. *)
Lemma resolve_parent_int (info : pyval) (sys : SolarSystem.t)
    (planet : Planet.t) (i : Z) :
  py_get info "parentId" PNone = Ok (PInt i) ->
  resolve_parent info sys planet
  = if (i <? Z.of_nat (length (SolarSystem.bodies sys)))%Z then
      let+ q := list_index (SolarSystem.bodies sys) i in
      Ok (Planet.set_parent (Some (Planet.oid q)) planet)
    else Ok planet.
Proof.
  intros Hget. unfold resolve_parent. rewrite Hget. cbn [rbind].
  destruct info as [| | | | | |items]; try discriminate Hget.
  cbn [py_get] in Hget. cbn [py_item].
  destruct (assoc "parentId" items) as [v|]; [|discriminate Hget].
  cbn [default] in Hget. injection Hget as ->.
  cbn [rbind py_number as_number]. rewrite INR_IZR_INZ.
  destruct (Rlt_dec _ _) as [Hlt|Hge];
    destruct (Z.ltb_spec i (Z.of_nat (length (SolarSystem.bodies sys))))
      as [Hz|Hz]; try reflexivity.
  - apply lt_IZR in Hlt. lia.
  - apply IZR_lt in Hz. contradiction.
Qed.

Lemma add_body_name (sys : SolarSystem.t) (body : Planet.t) :
  SolarSystem.name (SolarSystem.add_body sys body) = SolarSystem.name sys.
Proof. unfold SolarSystem.add_body. now destruct (py_eq_str _ _). Qed.

Lemma rock_converts : rest_converts [("seed", PStr "Rock")] None.
Proof.
  split; [|now left]. exists []. split; [reflexivity|].
  split; eexists; reflexivity.
Qed.

(** C8, at the failing input: a system archive whose first body carries
    [parentId = -1].  No body is in the group yet, [-1 < 0] passes the
    range test, and indexing the empty list raises [IndexError]: the
    import ends with a load error and no group, where the claim has the
    reference ignored.  With [parentId = 0], the index the body itself is
    about to take, the reference is ignored and the body is imported
    without a parent. *)
Theorem negative_parent_index_fails_import :
  (let out := @load_editor_zip demo_env (Some (system_zip (PInt (-1)))) demo_world in
   fst out = Ok tt
   /\ Saucer.ui_message (player (snd out)) = MsgLoadError IndexError
   /\ custom_systems (snd out) = [])
  /\ (let out := @load_editor_zip demo_env (Some (system_zip (PInt 0))) demo_world in
      Saucer.ui_message (player (snd out)) = MsgLoadedSystem (PStr "Sol")
      /\ map (fun g => map Planet.parent (SolarSystem.bodies g))
             (custom_systems (snd out)) = [[None]]).
Proof.
  set (pos := Vec3.add (Vec3.copy (Vec3.mk 0 150 0)) (Vec3.mk 300 0 0)).
  set (p0 := @mkProc demo_env 1%Z 0 0).
  pose proof (@init_by_color demo_env pos [("seed", PStr "Rock")] None p0
                (PStr "#4488ff") rock_converts eq_refl) as Hinit.
  rewrite (decode_color_well_formed "#4488ff" 68 136 255 eq_refl) in Hinit.
  destruct Hinit as (b & p' & Hrun & _ & _ & _ & _ & Hparent).
  assert (Hload : forall ref,
    @load_editor_zip demo_env (Some (system_zip ref)) demo_world
    = match resolve_parent
              (PDict [("file", PStr "rock.zip"); ("orbitDistance", PInt 300);
                      ("parentId", ref)])
              (SolarSystem.set_center_pos (Vec3.copy (Vec3.mk 0 150 0))
                 (SolarSystem.__init__ (PStr "Sol")))
              (Planet.set_orbit (PInt 300) (PFloat 0.2) b)
      with
      | Ok planet =>
          (Ok tt,
           @mkWorld demo_env
             (Saucer.set_ui_message (MsgLoadedSystem (PStr "Sol")) Saucer.__init__)
             [SolarSystem.add_body
                (SolarSystem.set_center_pos (Vec3.copy (Vec3.mk 0 150 0))
                   (SolarSystem.__init__ (PStr "Sol"))) planet] p')
      | Raise e =>
          (Ok tt,
           @mkWorld demo_env
             (Saucer.set_ui_message (MsgLoadError e) Saucer.__init__) [] p')
      end).
  { intros ref.
    unfold load_editor_zip, demo_world, system_zip, rock_zip, try_except.
    unfold bind at 1. unfold lift_result at 1. cbn [open_zip].
    cbn [has_file assoc String.eqb Ascii.eqb Bool.eqb].
    unfold load_solar_system, load_bodies, load_body, player_pos, publish,
      with_proc, zoom, get, ret, bind, lift_result, modify.
    cbn -[Planet.__init__ resolve_parent].
    fold pos p0. rewrite Hrun.
    destruct (resolve_parent _ _ _) as [planet|e]; [|reflexivity].
    unfold set_ui_message, modify. rewrite add_body_name. reflexivity. }
  split.
  - cbv zeta. rewrite Hload.
    rewrite (resolve_parent_int _ _ _ (-1)) by reflexivity.
    cbn. repeat split; reflexivity.
  - cbv zeta. rewrite Hload.
    rewrite (resolve_parent_int _ _ _ 0) by reflexivity.
    cbn [SolarSystem.bodies SolarSystem.set_center_pos SolarSystem.__init__ length].
    change (0 <? Z.of_nat 0)%Z with false. cbn -[SolarSystem.add_body].
    split; [reflexivity|]. rewrite add_body_bodies. cbn. now rewrite Hparent.
Qed.

(** *** Import: what a failed import leaves behind *)

Lemma bind_inv {S A B} (c : M S A) (k : A -> M S B) (s s' : S) (r : result B) :
  bind c k s = (r, s') ->
  (exists a s1, c s = (Ok a, s1) /\ k a s1 = (r, s'))
  \/ (exists e, c s = (Raise e, s') /\ r = Raise e).
Proof.
  unfold bind. destruct (c s) as [[a|e] s1]; intros H.
  - left. eauto.
  - right. injection H as <- <-. eauto.
Qed.

Lemma bind_ok_inv {S A B} (c : M S A) (k : A -> M S B) (s s' : S) (b : B) :
  bind c k s = (Ok b, s') ->
  exists a s1, c s = (Ok a, s1) /\ k a s1 = (Ok b, s').
Proof.
  intros H. apply bind_inv in H as [H | (e & _ & H)]; [exact H | discriminate].
Qed.

(** The constructor records the data it is given. *)
Lemma init_data `{E : PyEnv} (pos : Vec3.t) (data : pyval)
    (heightmap_bytes : option entry) (p p' : Proc) (b : Planet.t) :
  Planet.__init__ pos data heightmap_bytes p = (Ok b, p') ->
  Planet.data b = data.
Proof.
  unfold Planet.__init__. intros H.
  repeat (apply bind_ok_inv in H; destruct H as (? & ? & _ & H)).
  unfold ret in H. injection H as <- _. reflexivity.
Qed.

Section Frame.
Context `{E : PyEnv}.

Lemma quiet_bind {A B} (c : M World A) (k : A -> M World B) :
  quiet c -> (forall a, quiet (k a)) -> quiet (bind c k).
Proof.
  intros Hc Hk w r w' H.
  apply bind_inv in H as [(a & w1 & H1 & H2) | (e & H1 & _)].
  - destruct (Hc _ _ _ H1) as [P1 L1]. destruct (Hk a _ _ _ H2) as [P2 L2].
    split; congruence.
  - exact (Hc _ _ _ H1).
Qed.

Lemma quiet_lift {A} (r : result A) : quiet (lift_result r).
Proof. intros w r' w' [= _ <-]. split; reflexivity. Qed.

Lemma quiet_ret {A} (a : A) : quiet (ret a).
Proof. intros w r' w' [= _ <-]. split; reflexivity. Qed.

Lemma quiet_with_proc {A} (c : M Proc A) : quiet (with_proc c).
Proof.
  intros w r w'. unfold with_proc, zoom. destruct (c (proc w)) as [r1 p1].
  intros [= _ <-]. split; reflexivity.
Qed.

Lemma quiet_get : quiet get.
Proof. intros w r w' [= _ <-]. split; reflexivity. Qed.

Lemma quiet_player_pos : quiet player_pos.
Proof. intros w r w' [= _ <-]. split; reflexivity. Qed.

Lemma quiet_galaxy_body (sys : SolarSystem.t) (body_data : pyval) :
  quiet (galaxy_body sys body_data).
Proof.
  unfold galaxy_body.
  repeat (apply quiet_bind; [|intros ?]);
    auto using quiet_lift, quiet_with_proc, quiet_ret.
Qed.

Lemma quiet_galaxy_bodies (items : list pyval) :
  forall sys, quiet (galaxy_bodies sys items).
Proof.
  induction items as [|item items IH]; intros sys; cbn [galaxy_bodies].
  - apply quiet_ret.
  - apply quiet_bind; [apply quiet_galaxy_body | intros ?; apply IH].
Qed.

Lemma quiet_galaxy_system (sys_data : pyval) : quiet (galaxy_system sys_data).
Proof.
  unfold galaxy_system.
  repeat (apply quiet_bind; [|intros ?]);
    try apply quiet_galaxy_bodies;
    auto using quiet_lift, quiet_with_proc, quiet_get, quiet_ret.
Qed.

Lemma quiet_load_body (z : archive) (sys : SolarSystem.t) (info : pyval) :
  quiet (load_body z sys info).
Proof.
  unfold load_body. apply quiet_bind; [apply quiet_lift | intros file].
  destruct (in_namelist z file); [|apply quiet_ret].
  repeat (apply quiet_bind; [|intros ?]);
    auto using quiet_lift, quiet_with_proc, quiet_ret.
Qed.

Lemma quiet_load_bodies (z : archive) (infos : list pyval) :
  forall sys, quiet (load_bodies z sys infos).
Proof.
  induction infos as [|info infos IH]; intros sys; cbn [load_bodies].
  - apply quiet_ret.
  - apply quiet_bind; [apply quiet_load_body | intros ?; apply IH].
Qed.

(** What [galaxy_body] and [galaxy_bodies] add to the group. *)
Lemma galaxy_body_adds (sys sys' : SolarSystem.t) (body_data : pyval)
    (w w' : World) :
  galaxy_body sys body_data w = (Ok sys', w') ->
  SolarSystem.name sys' = SolarSystem.name sys
  /\ map Planet.data (SolarSystem.bodies sys')
     = map Planet.data (SolarSystem.bodies sys) ++ [body_data].
Proof.
  unfold galaxy_body. intros H.
  apply bind_ok_inv in H as (d & w1 & _ & H).
  apply bind_ok_inv in H as (pos & w2 & _ & H).
  apply bind_ok_inv in H as (planet & w3 & Hinit & H).
  apply bind_ok_inv in H as (od & w4 & _ & H).
  apply bind_ok_inv in H as (os & w5 & _ & H).
  unfold ret in H. injection H as <- _.
  unfold with_proc, zoom in Hinit.
  destruct (Planet.__init__ _ _ _ _) as [r p1] eqn:Hrun.
  injection Hinit as -> _. apply init_data in Hrun.
  rewrite add_body_name, add_body_bodies, map_app. cbn. now rewrite Hrun.
Qed.

Lemma galaxy_bodies_add (items : list pyval) :
  forall (sys sys' : SolarSystem.t) (w w' : World),
    galaxy_bodies sys items w = (Ok sys', w') ->
    SolarSystem.name sys' = SolarSystem.name sys
    /\ map Planet.data (SolarSystem.bodies sys')
       = map Planet.data (SolarSystem.bodies sys) ++ items.
Proof.
  induction items as [|item items IH]; intros sys sys' w w' H;
    cbn [galaxy_bodies] in H.
  - unfold ret in H. injection H as <- _. now rewrite app_nil_r.
  - apply bind_ok_inv in H as (sys1 & w1 & H1 & H).
    apply galaxy_body_adds in H1 as [N1 B1]. apply IH in H as [N B].
    split; [congruence|]. rewrite B, B1, <- app_assoc. reflexivity.
Qed.

(** A group that [galaxy_system] returns is complete. *)
Lemma galaxy_system_complete (sys_data : pyval) (sys : SolarSystem.t)
    (w w' : World) :
  galaxy_system sys_data w = (Ok sys, w') -> complete_group sys_data sys.
Proof.
  unfold galaxy_system. intros H.
  apply bind_ok_inv in H as (name & w1 & Hname & H).
  apply bind_ok_inv in H as (base & w2 & _ & H).
  apply bind_ok_inv in H as (dx & w3 & _ & H).
  apply bind_ok_inv in H as (dz & w4 & _ & H).
  apply bind_ok_inv in H as (bodies & w5 & Hbodies & H).
  apply bind_ok_inv in H as (items & w6 & Hitems & H).
  apply galaxy_bodies_add in H as [N B]. cbn in N, B.
  unfold lift_result in Hname, Hbodies, Hitems.
  injection Hname as Hname _. injection Hbodies as Hbodies _.
  injection Hitems as Hitems _.
  split.
  - now rewrite N.
  - unfold descriptor_bodies. rewrite Hbodies. cbn [rbind]. now rewrite B.
Qed.

(** The loop of [load_galaxy]: it publishes complete groups for the
    descriptors it gets through, all of them when it returns and fewer
    when it raises. *)
Lemma galaxy_systems_publish (descriptors : list pyval) :
  forall (w w' : World) (r : result unit),
    galaxy_systems descriptors w = (r, w') ->
    player w' = player w
    /\ exists n gs,
         custom_systems w' = custom_systems w ++ gs
         /\ Forall2 complete_group (take n descriptors) gs
         /\ (n <= length descriptors)%nat
         /\ (is_ok r -> n = length descriptors)
         /\ (~ is_ok r -> (n < length descriptors)%nat).
Proof.
  induction descriptors as [|d ds IH]; intros w w' r H;
    cbn [galaxy_systems] in H.
  - unfold ret in H. injection H as <- <-. split; [reflexivity|].
    exists 0%nat, []. rewrite app_nil_r. cbn [take length].
    split; [reflexivity|]. split; [constructor|].
    split; [lia|]. split; [reflexivity|]. intros N. now destruct N.
  - apply bind_inv in H as [(sys & w1 & Hsys & H) | (e & Hsys & ->)].
    + pose proof (quiet_galaxy_system d _ _ _ Hsys) as [P1 L1].
      apply galaxy_system_complete in Hsys.
      apply bind_inv in H as [([] & w2 & Hpub & H) | (e & Hpub & _)];
        [|discriminate Hpub].
      unfold publish, modify in Hpub. injection Hpub as <-.
      apply IH in H as (P & n & gs & L & Hall & Hn & Hok & Hfail).
      cbn [player custom_systems] in P, L. split; [congruence|].
      exists (S n), (sys :: gs). rewrite L, L1, <- app_assoc.
      cbn [take length app].
      split; [reflexivity|]. split; [now constructor|].
      split; [lia|]. split.
      * intros Hr. rewrite Hok by assumption. reflexivity.
      * intros Hr. apply Hfail in Hr. lia.
    + pose proof (quiet_galaxy_system d _ _ _ Hsys) as [P1 L1].
      split; [assumption|]. exists 0%nat, []. rewrite L1, app_nil_r.
      cbn [take length].
      split; [reflexivity|]. split; [constructor|].
      split; [lia|]. split; [intros []|intros _; lia].
Qed.

Lemma publishes_last_bind {A B} (c : M World A) (k : A -> M World B) :
  quiet c -> (forall a, publishes_last (k a)) -> publishes_last (bind c k).
Proof.
  intros Hc Hk w r w' H.
  apply bind_inv in H as [(a & w1 & H1 & H2) | (e & H1 & ->)].
  - destruct (Hc _ _ _ H1) as [P1 L1]. specialize (Hk a _ _ _ H2).
    destruct r; [assumption|]. destruct Hk as [P2 L2]. split; congruence.
  - exact (Hc _ _ _ H1).
Qed.

Lemma publishes_last_end (sys : SolarSystem.t) (m : message) :
  reports_success m -> publishes_last (publish sys ;; set_ui_message m).
Proof. intros Hm w r w' [= <- <-]. exact Hm. Qed.

Lemma load_single_planet_last (z : archive) :
  publishes_last (load_single_planet z).
Proof.
  unfold load_single_planet.
  repeat first [ apply publishes_last_end; eexists; eauto
               | apply publishes_last_bind; [|intros ?] ];
    auto using quiet_lift, quiet_with_proc, quiet_player_pos, quiet_ret.
Qed.

Lemma load_solar_system_last (z : archive) :
  publishes_last (load_solar_system z).
Proof.
  unfold load_solar_system.
  repeat first [ apply publishes_last_end; eexists; eauto
               | apply publishes_last_bind; [|intros ?] ];
    try apply quiet_load_bodies;
    auto using quiet_lift, quiet_with_proc, quiet_player_pos, quiet_ret.
Qed.

Lemma lift_inv {A} (x : result A) (w w' : World) (r : result A) :
  lift_result x w = (r, w') -> r = x /\ w' = w.
Proof. intros [= <- <-]. auto. Qed.

(** [load_galaxy]: the groups it has published when it stops, by
    raising or by returning, are complete groups for the first
    descriptors of the manifest; and it returns with a success message. *)
Lemma load_galaxy_publishes (z : archive) (w w' : World) (r : result unit) :
  load_galaxy z w = (r, w') ->
  (exists n gs,
     custom_systems w' = custom_systems w ++ gs
     /\ Forall2 complete_group (take n (galaxy_descriptors (EZip z))) gs)
  /\ match r with
     | Raise _ => player w' = player w
     | Ok _ =>
         reports_success (Saucer.ui_message (player w'))
         /\ Saucer.set_ui_message (Saucer.ui_message (player w')) (player w)
            = player w'
     end.
Proof.
  assert (Hnone : exists n gs,
            custom_systems w = custom_systems w ++ gs
            /\ Forall2 complete_group
                 (take n (galaxy_descriptors (EZip z))) gs).
  { exists 0%nat, []. rewrite app_nil_r. split; [reflexivity | constructor]. }
  unfold load_galaxy. intros H.
  apply bind_inv in H as [(raw & w1 & H1 & H) | (e & H1 & ->)];
    apply lift_inv in H1 as [H1 ->]; [|split; [exact Hnone | reflexivity]].
  apply bind_inv in H as [(galaxy & w1 & H2 & H) | (e & H2 & ->)];
    apply lift_inv in H2 as [H2 ->]; [|split; [exact Hnone | reflexivity]].
  apply bind_inv in H as [(systems & w1 & H3 & H) | (e & H3 & ->)];
    apply lift_inv in H3 as [H3 ->]; [|split; [exact Hnone | reflexivity]].
  apply bind_inv in H as [(first & w1 & H4 & H) | (e & H4 & ->)];
    apply lift_inv in H4 as [H4 ->]; [|split; [exact Hnone | reflexivity]].
  apply bind_inv in H as [(descriptors & w1 & H5 & H) | (e & H5 & ->)];
    apply lift_inv in H5 as [H5 ->]; [|split; [exact Hnone | reflexivity]].
  assert (Hdesc : galaxy_descriptors (EZip z) = descriptors).
  { unfold galaxy_descriptors. cbn [open_zip rbind].
    rewrite <- H1. cbn [rbind]. rewrite <- H2. cbn [rbind].
    rewrite <- H3. cbn [rbind]. rewrite <- H4. cbn [rbind].
    now rewrite <- H5. }
  rewrite Hdesc. clear Hnone.
  apply bind_inv in H as [([] & w1 & Hloop & H) | (e & Hloop & ->)];
    apply galaxy_systems_publish in Hloop
      as (P & n & gs & L & Hall & _);
    [|split; [exists n, gs; split; [exact L | exact Hall] | exact P]].
  apply bind_inv in H as [(name & w2 & H6 & H) | (e & H6 & ->)];
    apply lift_inv in H6 as [H6 ->];
    [|split; [exists n, gs; split; [exact L | exact Hall] | exact P]].
  unfold set_ui_message, modify in H. injection H as <- <-.
  cbn [player custom_systems Saucer.ui_message Saucer.set_ui_message].
  split; [exists n, gs; split; [exact L | exact Hall]|]. split.
  - exists name. auto.
  - rewrite P. reflexivity.
Qed.
End Frame.

(** C9: an import call never raises: a failure ends up in the status
    message only.  When the call ends with a failure message, whatever the
    kind of archive, the craft is as before but for that message, and the
    groups the call has appended to the live list are complete groups for
    the first descriptors of the galaxy manifest, each bearing the name
    and holding every body of its descriptor; a planet or system archive,
    as an unreadable one, has appended none.  The group being built when
    the failure occurs is not in the list. *)
Theorem failed_import_publishes_only_complete_groups `{E : PyEnv}
    (file : entry) (w : World) :
  let out := load_editor_zip (Some file) w in
  fst out = Ok tt
  /\ (reports_failure (Saucer.ui_message (player (snd out))) ->
      Saucer.set_ui_message (Saucer.ui_message (player (snd out))) (player w)
      = player (snd out)
      /\ exists n gs,
           custom_systems (snd out) = custom_systems w ++ gs
           /\ Forall2 complete_group (take n (galaxy_descriptors file)) gs
           /\ (assoc "galaxy_data.json"
                     (match file with EZip files => files | _ => [] end) = None ->
               gs = [])).
Proof.
  assert (Hclash : forall m, reports_success m -> reports_failure m -> False).
  { intros m (name & [-> | [-> | ->]]) [H | [e H]]; discriminate H. }
  assert (Hnone : exists (n : nat) (gs : list SolarSystem.t),
              custom_systems w = custom_systems w ++ gs
              /\ Forall2 complete_group (take n (galaxy_descriptors file)) gs
              /\ (assoc "galaxy_data.json"
                     (match file with EZip files => files | _ => [] end) = None ->
                  gs = [])).
  { exists 0%nat, []. rewrite app_nil_r.
    split; [reflexivity|]. split; [constructor | reflexivity]. }
  cbv zeta. unfold load_editor_zip, try_except.
  destruct (bind _ _ w) as [r w1] eqn:Hbody.
  apply bind_inv in Hbody as [(z & w0 & Hopen & Hbody) | (e & Hopen & ->)];
    apply lift_inv in Hopen as [Hopen Hsame]; subst.
  2: { cbn. split; [reflexivity|]. intros _. split; [now destruct (player w)|].
       exact Hnone. }
  destruct file as [| files | | |]; try discriminate Hopen.
  cbn [open_zip] in Hopen. injection Hopen as ->.
  unfold has_file in Hbody.
  destruct (assoc "galaxy_data.json" files) as [g|] eqn:Hg.
  - apply load_galaxy_publishes in Hbody as [(n & gs & L & Hall) Hr].
    destruct r as [[]|e].
    + cbn [fst snd]. split; [reflexivity|]. intros Hfail.
      destruct Hr as [Hs _]. destruct (Hclash _ Hs Hfail).
    + cbn [fst snd set_ui_message modify player custom_systems
           Saucer.ui_message Saucer.set_ui_message].
      split; [reflexivity|]. intros _. rewrite Hr.
      split; [reflexivity|]. exists n, gs.
      split; [assumption|]. split; [assumption | discriminate].
  - assert (Hlast : publishes_last
              (if match assoc "system_data.json" files with
                  | Some _ => true | None => false end
               then load_solar_system files
               else if match assoc "planet_data.json" files with
                       | Some _ => true | None => false end
                    then load_single_planet files
                    else set_ui_message MsgUnknownFormat) \/
            (r, w1) = set_ui_message MsgUnknownFormat w).
    { destruct (assoc "system_data.json" files);
        [left; apply load_solar_system_last|].
      destruct (assoc "planet_data.json" files);
        [left; apply load_single_planet_last|].
      right. now rewrite Hbody. }
    destruct Hlast as [Hlast | Hunknown].
    + specialize (Hlast _ _ _ Hbody). destruct r as [[]|e].
      * cbn [fst snd]. split; [reflexivity|]. intros Hfail.
        destruct (Hclash _ Hlast Hfail).
      * destruct Hlast as [P L].
        cbn [fst snd set_ui_message modify player custom_systems
             Saucer.ui_message Saucer.set_ui_message].
        split; [reflexivity|]. intros _. rewrite P, L.
        split; [reflexivity | exact Hnone].
    + injection Hunknown as -> ->.
      cbn [fst snd set_ui_message modify player custom_systems
           Saucer.ui_message Saucer.set_ui_message].
      split; [reflexivity|]. intros _. split; [reflexivity | exact Hnone].
Qed.

Lemma galaxy_zip_run :
  let out := @load_editor_zip demo_env (Some galaxy_zip) demo_world in
  Saucer.ui_message (player (snd out)) = MsgLoadError ValueError
  /\ map SolarSystem.name (custom_systems (snd out)) = [PStr "One"].
Proof.
  cbv zeta. split.
  - reflexivity.
  - reflexivity.
Qed.

(** The first system of [galaxy_zip] is published, complete; the second,
    whose second body has a colour that cannot be decoded, is not. *)
Lemma failed_import_publishes_only_complete_groups_witness :
  let out := @load_editor_zip demo_env (Some galaxy_zip) demo_world in
  reports_failure (Saucer.ui_message (player (snd out)))
  /\ map SolarSystem.name (custom_systems (snd out)) = [PStr "One"]
  /\ exists n gs,
       custom_systems (snd out) = custom_systems demo_world ++ gs
       /\ Forall2 complete_group (take n (galaxy_descriptors galaxy_zip)) gs.
Proof.
  cbv zeta. destruct galaxy_zip_run as [Hmsg Hnames].
  assert (Hfail : reports_failure
            (Saucer.ui_message
               (player (snd (@load_editor_zip demo_env (Some galaxy_zip)
                               demo_world))))).
  { right. exists ValueError. exact Hmsg. }
  split; [exact Hfail|]. split; [exact Hnames|].
  destruct (@failed_import_publishes_only_complete_groups demo_env galaxy_zip
              demo_world) as [_ H].
  destruct (H Hfail) as (_ & n & gs & L & Hall & _).
  exists n, gs. split; assumption.
Defined.

(** ** Further properties of the code *)

(** *** Vectors *)

(** [normalize] never divides by zero: the zero vector is returned as it
    is, and every other vector is scaled to length one. *)
Theorem normalize_unit_or_zero (a : Vec3.t) :
  (a = Vec3.mk 0 0 0 /\ Vec3.normalize a = Vec3.mk 0 0 0)
  \/ (a <> Vec3.mk 0 0 0 /\ Vec3.mag (Vec3.normalize a) = 1).
Proof.
  pose proof (mag_nonneg a) as Hn.
  destruct (Rlt_dec 0 (Vec3.mag a)) as [Hpos|Hzero].
  - right. split; [|now apply normalize_unit].
    intros ->. rewrite mag_origin in Hpos. lra.
  - left. split; [|now apply normalize_null].
    apply mag_zero_inv. lra.
Qed.

Lemma dot_le_mag (a b : Vec3.t) :
  Vec3.x a * Vec3.x b + Vec3.y a * Vec3.y b + Vec3.z a * Vec3.z b
  <= Vec3.mag a * Vec3.mag b.
Proof.
  pose proof (mag_sqr a) as Ha. pose proof (mag_sqr b) as Hb.
  pose proof (mag_nonneg a) as Na. pose proof (mag_nonneg b) as Nb.
  set (A := Vec3.mag a) in *. set (B := Vec3.mag b) in *.
  destruct a as [x1 y1 z1], b as [x2 y2 z2]. cbn [Vec3.x Vec3.y Vec3.z] in *.
  clearbody A B.
  remember (x1 * x2 + y1 * y2 + z1 * z2) as d eqn:Hdef.
  assert (HAB : 0 <= A * B) by (apply Rmult_le_pos; assumption).
  destruct (Rle_dec d 0) as [Hd|Hd]; [now apply Rle_trans with 0|].
  assert (Hcs : d * d <= (A * B) * (A * B)).
  { replace ((A * B) * (A * B)) with ((A * A) * (B * B)) by ring.
    rewrite Ha, Hb. subst d.
    pose proof (pow2_ge_0 (x1 * y2 - y1 * x2)).
    pose proof (pow2_ge_0 (x1 * z2 - z1 * x2)).
    pose proof (pow2_ge_0 (y1 * z2 - z1 * y2)).
    replace ((x1 ^ 2 + y1 ^ 2 + z1 ^ 2) * (x2 ^ 2 + y2 ^ 2 + z2 ^ 2))
      with ((x1 * x2 + y1 * y2 + z1 * z2) * (x1 * x2 + y1 * y2 + z1 * z2)
            + ((x1 * y2 - y1 * x2) ^ 2 + (x1 * z2 - z1 * x2) ^ 2
               + (y1 * z2 - z1 * y2) ^ 2)) by ring.
    lra. }
  assert (Hd' : 0 < d) by lra.
  destruct (Rle_dec d (A * B)) as [Y|N]; [exact Y|].
  assert (A * B < d) by lra. nra.
Qed.

Lemma mag_add_le (a b : Vec3.t) :
  Vec3.mag (Vec3.add a b) <= Vec3.mag a + Vec3.mag b.
Proof.
  pose proof (dot_le_mag a b) as Hdot.
  pose proof (mag_sqr a) as Ha. pose proof (mag_sqr b) as Hb.
  pose proof (mag_sqr (Vec3.add a b)) as Hab.
  pose proof (mag_nonneg a) as Na. pose proof (mag_nonneg b) as Nb.
  pose proof (mag_nonneg (Vec3.add a b)) as Nab.
  set (A := Vec3.mag a) in *. set (B := Vec3.mag b) in *.
  set (C := Vec3.mag (Vec3.add a b)) in *.
  destruct a as [x1 y1 z1], b as [x2 y2 z2].
  unfold Vec3.add in Hab. cbn [Vec3.x Vec3.y Vec3.z] in *.
  clearbody A B C.
  assert (C * C <= (A + B) * (A + B)) by nra.
  nra.
Qed.

Lemma dist_triangle (a b c : Vec3.t) :
  Vec3.dist a c <= Vec3.dist a b + Vec3.dist b c.
Proof.
  unfold Vec3.dist.
  replace (Vec3.sub a c) with (Vec3.add (Vec3.sub a b) (Vec3.sub b c)).
  - apply mag_add_le.
  - unfold Vec3.add, Vec3.sub. cbn [Vec3.x Vec3.y Vec3.z].
    apply (f_equal3 Vec3.mk); ring.
Qed.

(** [dist] is a distance: symmetric, never negative, zero exactly between
    equal points, and it obeys the triangle inequality. *)
Theorem dist_is_a_metric (a b c : Vec3.t) :
  Vec3.dist a b = Vec3.dist b a
  /\ 0 <= Vec3.dist a b
  /\ (Vec3.dist a b = 0 <-> a = b)
  /\ Vec3.dist a c <= Vec3.dist a b + Vec3.dist b c.
Proof.
  split; [|split; [|split]].
  - unfold Vec3.dist, Vec3.mag, Vec3.sub. cbn [Vec3.x Vec3.y Vec3.z].
    f_equal. ring.
  - apply mag_nonneg.
  - split.
    + intros H. apply mag_zero_inv in H. unfold Vec3.sub in H.
      apply Vec3_eq_inv in H. destruct a, b. cbn [Vec3.x Vec3.y Vec3.z] in H.
      apply (f_equal3 Vec3.mk); lra.
    + intros ->. unfold Vec3.dist, Vec3.mag, Vec3.sub.
      cbn [Vec3.x Vec3.y Vec3.z].
      replace ((Vec3.x b - Vec3.x b) ^ 2 + (Vec3.y b - Vec3.y b) ^ 2
               + (Vec3.z b - Vec3.z b) ^ 2) with 0 by ring.
      apply sqrt_0.
  - apply dist_triangle.
Qed.

(** *** Angles *)

Lemma py_mod_range (a m : R) : 0 < m -> 0 <= py_mod a m < m.
Proof.
  intros Hm. unfold py_mod.
  pose proof (Zfloor_bound (a / m)) as [H1 H2].
  assert (Ha : a = a / m * m) by (field; lra).
  split; nra.
Qed.

Lemma lerp_angle_bound (current target t : R) :
  0 <= t <= 1 ->
  Rabs (lerp_angle current target t - current) <= 180 * t.
Proof.
  intros Ht. unfold lerp_angle.
  pose proof (py_mod_range (target - current + 180) 360 ltac:(lra)) as Hm.
  set (d := py_mod (target - current + 180) 360) in *. clearbody d.
  replace (current + (d - 180) * t - current) with ((d - 180) * t) by ring.
  apply Rabs_le. split; nra.
Qed.

(** [lerp_angle] turns along the shorter arc: for [t] between 0 and 1 the
    result is at most [180 * t] degrees away from [current], and at
    [t = 1] it is the target up to whole turns. *)
Theorem lerp_angle_shorter_arc (current target t : R) :
  0 <= t <= 1 ->
  Rabs (lerp_angle current target t - current) <= 180 * t
  /\ exists k : Z, lerp_angle current target 1 = target + 360 * IZR k.
Proof.
  intros Ht. split; [now apply lerp_angle_bound|].
  exists (- Zfloor ((target - current + 180) / 360))%Z.
  unfold lerp_angle, py_mod. rewrite opp_IZR. ring.
Qed.

Lemma lerp_angle_shorter_arc_witness :
  0 <= 1 <= 1
  /\ Rabs (lerp_angle 350 10 1 - 350) <= 180 * 1
  /\ lerp_angle 350 10 1 = 370.
Proof.
  assert (Ht : 0 <= 1 <= 1) by lra.
  split; [exact Ht|]. split.
  - exact (proj1 (lerp_angle_shorter_arc 350 10 1 Ht)).
  - unfold lerp_angle, py_mod.
    rewrite (Zfloor_eq (-1) ((10 - 350 + 180) / 360)); [lra|].
    split; lra.
Defined.

(** *** The craft's heading *)

Lemma forward_sqr (s : Saucer.t) :
  Vec3.x (Saucer.get_forward_vector s) ^ 2
  + Vec3.y (Saucer.get_forward_vector s) ^ 2
  + Vec3.z (Saucer.get_forward_vector s) ^ 2 = 1.
Proof.
  unfold Saucer.get_forward_vector. cbn [Vec3.x Vec3.y Vec3.z].
  set (y := radians (Saucer.yaw s)). set (p := radians (Saucer.pitch s)).
  pose proof (sin2_cos2 y) as Hy. pose proof (sin2_cos2 p) as Hp.
  unfold Rsqr in Hy, Hp. clearbody y p. nra.
Qed.

Lemma mag_of_unit (a : Vec3.t) :
  Vec3.x a ^ 2 + Vec3.y a ^ 2 + Vec3.z a ^ 2 = 1 -> Vec3.mag a = 1.
Proof. intros H. unfold Vec3.mag. rewrite H. apply sqrt_1. Qed.

(** The forward vector has length one, whatever the yaw and pitch. *)
Theorem forward_vector_is_unit (s : Saucer.t) :
  Vec3.mag (Saucer.get_forward_vector s) = 1.
Proof.
  unfold Vec3.mag. rewrite forward_sqr. apply sqrt_1.
Qed.

(** *** The craft in flight *)

Lemma clamp_between (lo hi v : R) :
  lo <= hi -> lo <= Rmax lo (Rmin v hi) <= hi.
Proof.
  intros H. unfold Rmax, Rmin.
  destruct (Rle_dec v hi), (Rle_dec lo _); lra.
Qed.

Lemma clamp_between' (lo hi v : R) :
  lo <= hi -> lo <= Rmax lo (Rmin hi v) <= hi.
Proof.
  intros H. unfold Rmax, Rmin.
  destruct (Rle_dec hi v), (Rle_dec lo _); lra.
Qed.

(** What each statement of [fly] does to the fields read below. *)
Lemma camera_fields (a : Saucer.t) (dx dy : Z) (rh : bool) :
  let s := Saucer.camera a dx dy rh in
  Saucer.speed s = Saucer.speed a /\ Saucer.max_speed s = Saucer.max_speed a
  /\ Saucer.pitch s = Saucer.pitch a /\ Saucer.yaw s = Saucer.yaw a
  /\ Saucer.vel s = Saucer.vel a /\ Saucer.pos s = Saucer.pos a.
Proof. unfold Saucer.camera. destruct rh; cbn; auto 10. Qed.

Lemma move_fields (a : Saucer.t) :
  let s := Saucer.move a in
  Saucer.speed s = Saucer.speed a /\ Saucer.max_speed s = Saucer.max_speed a
  /\ Saucer.pitch s = Saucer.pitch a /\ Saucer.yaw s = Saucer.yaw a
  /\ Saucer.vel s = Saucer.vel a
  /\ Saucer.pos s = Vec3.add (Saucer.pos a) (Saucer.vel a).
Proof. cbn. auto 10. Qed.

Lemma set_velocity_fields (a : Saucer.t) :
  let s := Saucer.set_velocity a in
  Saucer.speed s = Saucer.speed a /\ Saucer.max_speed s = Saucer.max_speed a
  /\ Saucer.pitch s = Saucer.pitch a /\ Saucer.yaw s = Saucer.yaw a
  /\ Saucer.vel s = Vec3.mul (Saucer.get_forward_vector a) (Saucer.speed a)
  /\ Saucer.pos s = Saucer.pos a.
Proof. cbn. auto 10. Qed.

Lemma pitch_fields (a : Saucer.t) (wd : Z) :
  let s := Saucer.clamp_pitch (Saucer.tilt a wd) in
  Saucer.speed s = Saucer.speed a /\ Saucer.max_speed s = Saucer.max_speed a
  /\ Saucer.pitch s = Rmax (-78) (Rmin 78 (Saucer.pitch a - IZR wd * 4.5))
  /\ Saucer.yaw s = Saucer.yaw a /\ Saucer.pos s = Saucer.pos a.
Proof. cbn. auto 10. Qed.

Lemma vertical_fields (a : Saucer.t) (keys : key -> bool) :
  let s := Saucer.descend (Saucer.ascend a keys) keys in
  Saucer.speed s = Saucer.speed a /\ Saucer.max_speed s = Saucer.max_speed a
  /\ Saucer.pitch s = Saucer.pitch a /\ Saucer.yaw s = Saucer.yaw a
  /\ Saucer.pos s = Vec3.add (Saucer.pos a) (Vec3.mk 0 (climb keys) 0).
Proof.
  unfold Saucer.descend, Saucer.ascend, climb.
  destruct (keys K_SPACE), (keys K_LCTRL || keys K_c)%bool;
    cbn; (repeat (split; [reflexivity|]));
    destruct (Saucer.pos a) as [x y z]; unfold Vec3.add;
    cbn [Vec3.x Vec3.y Vec3.z]; apply (f_equal3 Vec3.mk); lra.
Qed.

Lemma turn_fields (a : Saucer.t) (keys : key -> bool) :
  let s := Saucer.turn_right (Saucer.turn_left a keys) keys in
  Saucer.speed s = Saucer.speed a /\ Saucer.max_speed s = Saucer.max_speed a
  /\ Saucer.pitch s = Saucer.pitch a /\ Saucer.pos s = Saucer.pos a.
Proof.
  unfold Saucer.turn_right, Saucer.turn_left.
  destruct (keys K_a || keys K_LEFT)%bool, (keys K_d || keys K_RIGHT)%bool;
    cbn; auto.
Qed.

Lemma speed_fields (a : Saucer.t) (keys : key -> bool) :
  let s := Saucer.clamp_speed (Saucer.thrust a keys) in
  Saucer.speed s
  = Rmax (-15) (Rmin (Saucer.speed (Saucer.thrust a keys)) (Saucer.max_speed a))
  /\ Saucer.max_speed s = Saucer.max_speed a
  /\ Saucer.pitch s = Saucer.pitch a /\ Saucer.pos s = Saucer.pos a.
Proof.
  unfold Saucer.clamp_speed, Saucer.thrust.
  destruct (keys K_w), (keys K_s); cbn; auto.
Qed.

Lemma forward_ext (a b : Saucer.t) :
  Saucer.yaw a = Saucer.yaw b -> Saucer.pitch a = Saucer.pitch b ->
  Saucer.get_forward_vector a = Saucer.get_forward_vector b.
Proof. unfold Saucer.get_forward_vector. now intros -> ->. Qed.

(** The fields of the craft after [fly], in terms of those before. *)
Lemma fly_fields (self : Saucer.t) (keys : key -> bool) (dx dy : Z)
    (rh : bool) (wd : Z) :
  let s := Saucer.fly self keys dx dy rh wd in
  Saucer.speed s
  = Rmax (-15) (Rmin (Saucer.speed (Saucer.thrust self keys))
                     (Saucer.max_speed self))
  /\ Saucer.max_speed s = Saucer.max_speed self
  /\ Saucer.pitch s = Rmax (-78) (Rmin 78 (Saucer.pitch self - IZR wd * 4.5))
  /\ Saucer.vel s = Vec3.mul (Saucer.get_forward_vector s) (Saucer.speed s)
  /\ Saucer.pos s
     = Vec3.add (Vec3.add (Saucer.pos self) (Vec3.mk 0 (climb keys) 0))
                (Saucer.vel s).
Proof.
  cbv zeta. unfold Saucer.fly.
  pose proof (speed_fields self keys) as (S1 & M1 & P1 & Q1).
  set (s1 := Saucer.clamp_speed (Saucer.thrust self keys)) in *.
  pose proof (turn_fields s1 keys) as (S2 & M2 & P2 & Q2).
  set (s2 := Saucer.turn_right (Saucer.turn_left s1 keys) keys) in *.
  pose proof (vertical_fields s2 keys) as (S3 & M3 & P3 & Y3 & Q3).
  set (s3 := Saucer.descend (Saucer.ascend s2 keys) keys) in *.
  pose proof (pitch_fields s3 wd) as (S4 & M4 & P4 & Y4 & Q4).
  set (s4 := Saucer.clamp_pitch (Saucer.tilt s3 wd)) in *.
  pose proof (set_velocity_fields s4) as (S5 & M5 & P5 & Y5 & V5 & Q5).
  set (s5 := Saucer.set_velocity s4) in *.
  pose proof (move_fields s5) as (S6 & M6 & P6 & Y6 & V6 & Q6).
  set (s6 := Saucer.move s5) in *.
  pose proof (camera_fields s6 dx dy rh) as (S7 & M7 & P7 & Y7 & V7 & Q7).
  set (s7 := Saucer.camera s6 dx dy rh) in *.
  clearbody s1 s2 s3 s4 s5 s6 s7. cbv zeta in *.
  assert (Hvel : Saucer.vel s7
                 = Vec3.mul (Saucer.get_forward_vector s7) (Saucer.speed s7)).
  { rewrite V7, V6, V5, S7, S6, S5. f_equal.
    apply forward_ext; congruence. }
  split; [|split; [|split; [|split]]].
  - rewrite S7, S6, S5, S4, S3, S2, S1. reflexivity.
  - congruence.
  - rewrite P7, P6, P5, P4, P3, P2, P1. reflexivity.
  - exact Hvel.
  - rewrite Q7, Q6, Q5, Q4, Q3, Q2, Q1, V7, V6. reflexivity.
Qed.

(** One tick of flight.  The speed ends within [-15, max_speed] and the
    pitch within [-78, 78]; the velocity is the unit forward vector times
    the speed, so its length is [|speed|]; and the position is the old one,
    raised or lowered by the vertical keys, plus the velocity. *)
Theorem fly_step (self : Saucer.t) (keys : key -> bool) (dx dy : Z)
    (rh : bool) (wd : Z) :
  -15 <= Saucer.max_speed self ->
  let s := Saucer.fly self keys dx dy rh wd in
  -15 <= Saucer.speed s <= Saucer.max_speed self
  /\ Saucer.max_speed s = Saucer.max_speed self
  /\ -78 <= Saucer.pitch s <= 78
  /\ Saucer.vel s = Vec3.mul (Saucer.get_forward_vector s) (Saucer.speed s)
  /\ Vec3.mag (Saucer.vel s) = Rabs (Saucer.speed s)
  /\ Saucer.pos s
     = Vec3.add (Vec3.add (Saucer.pos self) (Vec3.mk 0 (climb keys) 0))
                (Saucer.vel s).
Proof.
  intros Hmax. cbv zeta.
  destruct (fly_fields self keys dx dy rh wd) as (S & M & P & V & Q).
  split; [|split; [|split; [|split; [|split]]]].
  - rewrite S. now apply clamp_between.
  - exact M.
  - rewrite P. apply clamp_between'. lra.
  - exact V.
  - rewrite V, mag_mul, (mag_of_unit _ (forward_sqr _)). ring.
  - exact Q.
Qed.

Lemma fly_step_witness :
  -15 <= Saucer.max_speed (craft_at 120 4.15)
  /\ -15 <= Saucer.speed (Saucer.fly (craft_at 120 4.15) only_w 0 0 false 0) <= 42.
Proof.
  assert (H : -15 <= Saucer.max_speed (craft_at 120 4.15)) by (cbn; lra).
  split; [exact H|].
  exact (proj1 (fly_step (craft_at 120 4.15) only_w 0 0 false 0 H)).
Defined.

(** The camera.  Under manual control its pitch is kept within
    [-68, 68]; otherwise the pitch closes 9% of its gap to 18 degrees and
    the yaw turns by at most [0.12 * 180] degrees, towards the point
    behind the craft. *)
Theorem camera_follows (a : Saucer.t) (dx dy : Z) :
  (-68 <= Saucer.cam_pitch (Saucer.camera a dx dy true) <= 68
   /\ Saucer.cam_yaw (Saucer.camera a dx dy true)
      = Saucer.cam_yaw a + IZR dx * 0.28)
  /\ (Saucer.cam_pitch (Saucer.camera a dx dy false) - 18
      = 0.91 * (Saucer.cam_pitch a - 18)
      /\ Rabs (Saucer.cam_yaw (Saucer.camera a dx dy false) - Saucer.cam_yaw a)
         <= 21.6).
Proof.
  unfold Saucer.camera. cbn [Saucer.cam_pitch Saucer.cam_yaw Saucer.set_cam].
  split; split.
  - apply clamp_between'. lra.
  - reflexivity.
  - unfold lerp. lra.
  - pose proof (lerp_angle_bound (Saucer.cam_yaw a) (Saucer.yaw a + 180)
                  0.12 ltac:(lra)) as H.
    lra.
Qed.

(** *** Landing and take-off *)

(** A landing puts the craft on the ray from the body's centre through
    the craft, at distance [radius + 7] from the centre; a craft that was
    exactly at the centre is left there. *)
Theorem landing_rests_above_surface (s : Saucer.t) (body : Planet.t) :
  can_land s body -> -7 <= Planet.radius body ->
  let s' := Saucer.collide s body in
  Saucer.landed_on s' = Some body
  /\ ((Saucer.pos s <> Planet.pos body
       /\ Saucer.pos s'
          = on_ray (Planet.pos body) (Saucer.pos s) (Planet.radius body + 7)
       /\ 0 <= (Planet.radius body + 7)
               / Vec3.dist (Saucer.pos s) (Planet.pos body)
       /\ Vec3.dist (Saucer.pos s') (Planet.pos body) = Planet.radius body + 7)
      \/ (Saucer.pos s = Planet.pos body /\ Saucer.pos s' = Planet.pos body)).
Proof.
  intros Hland Hr. cbv zeta. rewrite (collide_lands s body Hland).
  cbn [Saucer.landed_on Saucer.pos]. split; [reflexivity|].
  pose proof (mag_nonneg (Vec3.sub (Saucer.pos s) (Planet.pos body))) as Hn.
  destruct (Rlt_dec 0 (Vec3.mag (Vec3.sub (Saucer.pos s) (Planet.pos body))))
    as [Hpos|Hzero].
  - left.
    assert (Hne : Saucer.pos s <> Planet.pos body).
    { intros Heq. rewrite Heq in Hpos.
      replace (Vec3.sub (Planet.pos body) (Planet.pos body))
        with (Vec3.mk 0 0 0) in Hpos.
      - rewrite mag_origin in Hpos. lra.
      - destruct (Planet.pos body). unfold Vec3.sub.
        cbn [Vec3.x Vec3.y Vec3.z]. apply (f_equal3 Vec3.mk); ring. }
    split; [exact Hne|]. split; [now apply landing_spot_on_ray|]. split.
    + unfold Vec3.dist, Rdiv. apply Rmult_le_pos; [lra|].
      left. now apply Rinv_0_lt_compat.
    + unfold landing_spot, Vec3.dist.
      rewrite sub_add_cancel, mag_mul, (normalize_unit _ Hpos), Rabs_right; lra.
  - right. split; [apply sub_zero_inv, mag_zero_inv; lra|].
    apply landing_spot_at_centre. apply sub_zero_inv, mag_zero_inv. lra.
Qed.

Lemma landing_rests_above_surface_witness :
  let body := body_at 0 (Vec3.mk 0 0 0) "planet" 100 in
  let s := Saucer.mk (Vec3.mk 0 0 115) (Vec3.mk 0 0 (-5)) 0 0 5 42 180 18 52
                     None MsgControls in
  can_land s body
  /\ Saucer.landed_on (Saucer.collide s body) = Some body
  /\ Saucer.pos (Saucer.collide s body) = Vec3.mk 0 0 107.
Proof.
  intros body s.
  assert (Hland : can_land s body).
  { split.
    - unfold in_reach, Vec3.dist, s, body, body_at, Vec3.sub.
      cbn [Saucer.pos Planet.pos Planet.radius Vec3.x Vec3.y Vec3.z].
      rewrite mag_along_z by lra. unfold Rabs. destruct (Rcase_abs _); lra.
    - unfold s. cbn [Saucer.speed]. rewrite Rabs_right; lra. }
  split; [exact Hland|].
  destruct (landing_rests_above_surface s body Hland ltac:(cbn; lra))
    as (Hon & [(_ & Hray & _) | (Heq & _)]).
  - split; [exact Hon|]. rewrite Hray.
    unfold on_ray, Vec3.dist, s, body, body_at, Vec3.sub.
    cbn [Saucer.pos Planet.pos Planet.radius Vec3.x Vec3.y Vec3.z].
    rewrite mag_along_z by lra.
    replace (Rabs (115 - 0)) with 115
      by (unfold Rabs; destruct (Rcase_abs _); lra).
    unfold Vec3.add, Vec3.mul. cbn [Vec3.x Vec3.y Vec3.z].
    apply (f_equal3 Vec3.mk); lra.
  - exfalso. unfold s, body, body_at in Heq. cbn [Saucer.pos Planet.pos] in Heq.
    apply Vec3_eq_inv in Heq. lra.
Defined.

(** The landing loop never un-lands a craft. *)
Lemma collide_keeps_landed (s : Saucer.t) (q : Planet.t) :
  is_Some (Saucer.landed_on s) -> is_Some (Saucer.landed_on (Saucer.collide s q)).
Proof.
  intros H. unfold Saucer.collide.
  destruct (Rlt_dec _ _); [|assumption].
  destruct (Rlt_dec _ _); cbn; eauto.
Qed.

Lemma collide_loop_keeps_landed (planets : list Planet.t) :
  forall s, is_Some (Saucer.landed_on s) ->
            is_Some (Saucer.landed_on (fold_left Saucer.collide planets s)).
Proof.
  induction planets as [|q planets IH]; intros s H; cbn [fold_left];
    [assumption|].
  apply IH. now apply collide_keeps_landed.
Qed.

(** A slow craft in reach of a body of the list ends the loop landed. *)
Lemma collide_loop_lands (body : Planet.t) (planets : list Planet.t) :
  forall s, In body planets -> can_land s body ->
            is_Some (Saucer.landed_on (fold_left Saucer.collide planets s)).
Proof.
  induction planets as [|q planets IH]; intros s Hin Hland; [destruct Hin|].
  cbn [fold_left].
  destruct (Rlt_dec (Vec3.dist (Saucer.pos s) (Planet.pos q))
                    (Planet.radius q + 23)) as [Hq|Hq].
  - apply collide_loop_keeps_landed.
    rewrite (collide_lands s q) by (split; [exact Hq | apply Hland]).
    cbn. eauto.
  - rewrite (collide_out_of_reach s q Hq).
    destruct Hin as [-> | Hin]; [destruct Hland; contradiction|].
    now apply IH.
Qed.

Lemma mag_on_y (k : R) : Vec3.mag (Vec3.mk 0 k 0) = Rabs k.
Proof.
  unfold Vec3.mag. cbn [Vec3.x Vec3.y Vec3.z].
  replace (0 ^ 2 + k ^ 2 + 0 ^ 2) with (Rsqr k) by (unfold Rsqr; ring).
  apply sqrt_Rsqr_abs.
Qed.

Lemma climb_bound (keys : key -> bool) : Rabs (climb keys) <= 2.5.
Proof.
  unfold climb. apply Rabs_le.
  destruct (keys K_SPACE), (keys K_LCTRL || keys K_c)%bool; lra.
Qed.

Lemma thrust_speed_cases (s : Saucer.t) (keys : key -> bool) :
  Saucer.speed (Saucer.thrust s keys) = Saucer.speed s + 0.85
  \/ Saucer.speed (Saucer.thrust s keys) = Saucer.speed s - 0.95
  \/ Saucer.speed (Saucer.thrust s keys) = Saucer.speed s * 0.96.
Proof.
  unfold Saucer.thrust. destruct (keys K_w), (keys K_s); cbn; auto.
Qed.

(** The tick in which a landed craft takes off. *)
Lemma takeoff_tick (self : Saucer.t) (body : Planet.t) (keys : key -> bool)
    (planets : list Planet.t) (dx dy wd : Z) (rh : bool) :
  Saucer.landed_on self = Some body -> keys K_SPACE = true ->
  let s1 := Saucer.update self keys planets dx dy rh wd in
  Saucer.landed_on s1 = None /\ Saucer.speed s1 = 10
  /\ Saucer.pos s1 = Saucer.pos self
  /\ Saucer.max_speed s1 = Saucer.max_speed self.
Proof.
  intros Hon Hspace. cbv zeta. unfold Saucer.update.
  rewrite Hon, Hspace. cbn. auto.
Qed.

(** A craft in flight at speed 10, no farther than [radius + 7] from a
    body of the list, ends the tick landed. *)
Lemma slow_craft_relands (s1 : Saucer.t) (body : Planet.t)
    (keys : key -> bool) (planets : list Planet.t) (dx dy wd : Z) (rh : bool) :
  Saucer.landed_on s1 = None -> Saucer.speed s1 = 10 ->
  -11 < Saucer.max_speed s1 ->
  Vec3.dist (Saucer.pos s1) (Planet.pos body) <= Planet.radius body + 7 ->
  In body planets ->
  is_Some (Saucer.landed_on (Saucer.update s1 keys planets dx dy rh wd)).
Proof.
  intros L1 S1 Hmax Hnear Hin.
  rewrite (update_flying _ _ _ _ _ _ _ L1).
  apply (collide_loop_lands body); [exact Hin|].
  destruct (fly_fields s1 keys dx dy rh wd) as (S & M & _ & V & Q).
  set (f := Saucer.fly s1 keys dx dy rh wd) in *. clearbody f.
  assert (Hslow : Rabs (Saucer.speed f) < 11).
  { rewrite S. apply Rabs_def1;
      destruct (thrust_speed_cases s1 keys) as [E | [E | E]];
      rewrite E, S1; unfold Rmax, Rmin;
      repeat destruct (Rle_dec _ _); lra. }
  split; [|exact Hslow]. unfold in_reach.
  pose proof (dist_triangle (Saucer.pos f) (Saucer.pos s1) (Planet.pos body)) as Htri.
  assert (Hstep : Vec3.dist (Saucer.pos f) (Saucer.pos s1) < 13.5).
  { unfold Vec3.dist. rewrite Q.
    replace (Vec3.sub
               (Vec3.add (Vec3.add (Saucer.pos s1) (Vec3.mk 0 (climb keys) 0))
                         (Saucer.vel f)) (Saucer.pos s1))
      with (Vec3.add (Vec3.mk 0 (climb keys) 0) (Saucer.vel f)).
    - pose proof (mag_add_le (Vec3.mk 0 (climb keys) 0) (Saucer.vel f)) as Hle.
      rewrite mag_on_y in Hle. pose proof (climb_bound keys) as Hc.
      assert (Hv : Vec3.mag (Saucer.vel f) = Rabs (Saucer.speed f)).
      { rewrite V, mag_mul, (mag_of_unit _ (forward_sqr _)). ring. }
      lra.
    - destruct (Saucer.pos s1), (Saucer.vel f). unfold Vec3.sub, Vec3.add.
      cbn [Vec3.x Vec3.y Vec3.z]. apply (f_equal3 Vec3.mk); ring. }
  lra.
Qed.

(** Taking off does not get the craft away.  A craft landed on a body,
    no farther than [radius + 7] from its centre, takes off on [SPACE]
    with speed 10 and stays where it is for that tick; at the end of the
    next tick, whatever the controls, it is landed again whenever that
    body is among the bodies passed to [update]: the speed it can have
    reached is below 11 and it has moved by less than the 16 units that
    separate it from the landing range. *)
Theorem takeoff_lands_again (self : Saucer.t) (body : Planet.t)
    (keys1 keys2 : key -> bool) (planets1 planets2 : list Planet.t)
    (dx1 dy1 wd1 dx2 dy2 wd2 : Z) (rh1 rh2 : bool) :
  Saucer.landed_on self = Some body ->
  keys1 K_SPACE = true ->
  -11 < Saucer.max_speed self ->
  Vec3.dist (Saucer.pos self) (Planet.pos body) <= Planet.radius body + 7 ->
  In body planets2 ->
  let s1 := Saucer.update self keys1 planets1 dx1 dy1 rh1 wd1 in
  let s2 := Saucer.update s1 keys2 planets2 dx2 dy2 rh2 wd2 in
  Saucer.landed_on s1 = None
  /\ Saucer.speed s1 = 10
  /\ Saucer.pos s1 = Saucer.pos self
  /\ is_Some (Saucer.landed_on s2).
Proof.
  intros Hon Hspace Hmax Hnear Hin. cbv zeta.
  destruct (takeoff_tick self body keys1 planets1 dx1 dy1 wd1 rh1 Hon Hspace)
    as (L1 & S1 & P1 & M1).
  split; [exact L1|]. split; [exact S1|]. split; [exact P1|].
  apply (slow_craft_relands _ body); try assumption.
  - rewrite M1. exact Hmax.
  - rewrite P1. exact Hnear.
Qed.

Lemma takeoff_lands_again_witness :
  let body := body_at 0 (Vec3.mk 0 0 0) "planet" 100 in
  let s1 := Saucer.update (landed_at 107 body) only_space [] 0 0 false 0 in
  let s2 := Saucer.update s1 only_w [body] 0 0 false 0 in
  Saucer.landed_on s1 = None /\ is_Some (Saucer.landed_on s2).
Proof.
  intros body.
  assert (Hnear : Vec3.dist (Saucer.pos (landed_at 107 body)) (Planet.pos body)
                  <= Planet.radius body + 7).
  { unfold Vec3.dist, landed_at, body, body_at, Vec3.sub.
    cbn [Saucer.pos Planet.pos Planet.radius Vec3.x Vec3.y Vec3.z].
    replace (0 - 0) with 0 by lra. replace (107 - 0) with 107 by lra.
    rewrite mag_on_z by lra. lra. }
  assert (Hmax : -11 < Saucer.max_speed (landed_at 107 body)) by (cbn; lra).
  destruct (takeoff_lands_again (landed_at 107 body) body only_space only_w
              [] [body] 0 0 0 0 0 0 false false eq_refl eq_refl Hmax Hnear
              (or_introl eq_refl)) as (H1 & _ & _ & H2).
  split; assumption.
Defined.

(** *** The procedural universe *)

Section Bodies.
Context `{E : PyEnv}.

Lemma generate_planet_body (size cx cy cz : Z) (p q : Proc) (a : Planet.t) :
  randint_in_range -> (0 <= size)%Z ->
  Universe.generate_planet size cx cy cz p = (Ok a, q) ->
  generated_body size (cx, cy, cz) a
  /\ Planet.oid a = next_oid p /\ next_oid q = S (next_oid p).
Proof.
  intros Hr Hsize. unfold Universe.generate_planet, bind, randint, random.
  pose proof (Hr 0%Z size (rng p) Hsize) as Rx.
  destruct (rng_randint 0 size (rng p)) as [rx g1].
  cbn [rng next_oid next_texture fst] in *.
  pose proof (Hr 0%Z size g1 Hsize) as Ry.
  destruct (rng_randint 0 size g1) as [ry g2].
  cbn [rng next_oid next_texture fst] in *.
  pose proof (Hr 0%Z size g2 Hsize) as Rz.
  destruct (rng_randint 0 size g2) as [rz g3].
  cbn [rng next_oid next_texture fst] in *.
  pose proof (Hr 80%Z 250%Z g3 ltac:(lia)) as Rr.
  destruct (rng_randint 80 250 g3) as [rr g4].
  cbn [rng next_oid next_texture fst] in *.
  destruct (rng_random g4) as [c1 g5]. cbn [rng next_oid next_texture].
  destruct (rng_random g5) as [c2 g6]. cbn [rng next_oid next_texture].
  destruct (rng_random g6) as [c3 g7]. cbn [rng next_oid next_texture].
  rewrite proc_planet_init. cbn [rng next_oid next_texture].
  intros [= <- <-]. cbn [next_oid Planet.oid].
  split; [|split; reflexivity].
  unfold generated_body, in_cube.
  cbn [Planet.pos Planet.radius Planet.color Planet.parent Planet.texture_id
       Vec3.x Vec3.y Vec3.z].
  repeat split; try (apply IZR_le; lia).
Qed.

Lemma generate_planets_bodies (n : nat) (size cx cy cz : Z) :
  randint_in_range -> (0 <= size)%Z ->
  forall (acc l : list Planet.t) (p q : Proc),
    Universe.generate_planets n size cx cy cz acc p = (Ok l, q) ->
    exists new,
      l = acc ++ new
      /\ Forall (generated_body size (cx, cy, cz)) new
      /\ map Planet.oid new = seq (next_oid p) n
      /\ next_oid q = (next_oid p + n)%nat.
Proof.
  intros Hr Hsize.
  induction n as [|n IH]; intros acc l p q H; cbn [Universe.generate_planets] in H.
  - unfold ret in H. injection H as <- <-. exists [].
    rewrite app_nil_r. split; [reflexivity|]. split; [constructor|].
    split; [reflexivity | lia].
  - unfold bind in H.
    destruct (Universe.generate_planet size cx cy cz p) as [[a|e] p1] eqn:Ha;
      [|discriminate H].
    apply (generate_planet_body _ _ _ _ _ _ _ Hr Hsize) in Ha
      as (Hbody & Hid & Hnext).
    apply IH in H as (new & -> & Hall & Hids & Hq).
    exists (a :: new). rewrite <- app_assoc. split; [reflexivity|].
    split; [now constructor|]. split.
    + cbn [map seq]. rewrite Hid, Hids, Hnext. reflexivity.
    + lia.
Qed.

(** The run of [visit] over coordinates that are all cached. *)
Lemma visit_cached (coords : list chunk) (u : Universe.t) (p : Proc) :
  Forall (fun k => is_Some (Universe.planets u !! k)) coords ->
  forall active,
    Universe.visit coords active (u, p)
    = (Ok (active
           ++ concat (map (fun k => default [] (Universe.planets u !! k)) coords)),
       (u, p)).
Proof.
  induction 1 as [|[[x y] z] rest [l Hl] _ IH]; intros active.
  - cbn. now rewrite app_nil_r.
  - cbn [Universe.visit]. unfold bind at 1.
    unfold Universe.generate_chunk at 1, bind at 1, get at 1. cbn [fst].
    rewrite Hl. unfold ret at 1. unfold bind at 1, get at 1. cbn [fst].
    rewrite Hl, IH. cbn [map concat]. rewrite Hl. cbn [default].
    now rewrite app_assoc.
Qed.

End Bodies.

Lemma demo_randint_in_range : @randint_in_range demo_env.
Proof.
  intros a b g Hab. cbn [rng_randint demo_env fst].
  pose proof (Z.mod_pos_bound g (b - a + 1) ltac:(lia)). lia.
Qed.

(** A newly generated chunk holds at most two bodies when [randint]
    keeps to its range; each lies in the closed cube of the chunk (the far
    faces included), has a radius between 80 and 250, the default colour,
    no parent and no texture. *)
Theorem generated_bodies_in_range `{E : PyEnv} (cx cy cz : Z)
    (u : Universe.t) (p : Proc) :
  randint_in_range ->
  (0 <= Universe.chunk_size u)%Z ->
  Universe.planets u !! (cx, cy, cz) = None ->
  exists l s',
    Universe.generate_chunk cx cy cz (u, p) = (Ok tt, s')
    /\ Universe.planets (fst s') !! (cx, cy, cz) = Some l
    /\ length l
       = Z.to_nat (fst (rng_randint 0 2 (rng_seed (hash_chunk (cx, cy, cz)))))
    /\ (length l <= 2)%nat
    /\ Forall (generated_body (Universe.chunk_size u) (cx, cy, cz)) l.
Proof.
  intros Hr Hsize Hnone.
  destruct (generate_chunk_fresh cx cy cz u p Hnone) as (l & q & Hgen & Hrun).
  exists l. eexists. split; [exact Hrun|]. cbn [fst Universe.planets].
  split; [apply lookup_insert_eq|].
  apply (generate_planets_bodies _ _ _ _ _ Hr Hsize) in Hgen
    as (new & -> & Hall & Hids & _).
  cbn [app].
  assert (Hlen : length new
                 = Z.to_nat (fst (rng_randint 0 2
                                    (rng_seed (hash_chunk (cx, cy, cz))))))
    by (now rewrite <- (length_map Planet.oid), Hids, length_seq).
  split; [exact Hlen|]. split; [|exact Hall]. rewrite Hlen.
  pose proof (Hr 0%Z 2%Z (rng_seed (hash_chunk (cx, cy, cz))) ltac:(lia)). lia.
Qed.

(** The chunk [(1, 0, 0)] of the demonstration generator holds two
    bodies. *)
Lemma generated_bodies_in_range_witness :
  exists l s',
    @Universe.generate_chunk demo_env 1 0 0
       (Universe.__init__, @mkProc demo_env 1%Z 0 0) = (Ok tt, s')
    /\ Universe.planets (fst s') !! (1, 0, 0)%Z = Some l
    /\ length l = 2%nat
    /\ Forall (generated_body 2000 (1, 0, 0)%Z) l.
Proof.
  destruct (@generated_bodies_in_range demo_env 1 0 0 Universe.__init__
              (@mkProc demo_env 1%Z 0 0) demo_randint_in_range)
    as (l & s' & Hrun & Hl & Hlen & _ & Hall).
  - cbn. lia.
  - reflexivity.
  - exists l, s'. split; [exact Hrun|]. split; [exact Hl|].
    split; [|exact Hall]. rewrite Hlen. vm_compute. reflexivity.
Defined.

(** A query repeated from anywhere in the same chunk returns the same
    bodies and changes nothing: neither the cache nor the state of the
    random generator nor the identity counters. *)
Theorem repeated_query_changes_nothing `{E : PyEnv} (pos pos' : Vec3.t)
    (u : Universe.t) (p : Proc) :
  Universe.get_chunk u pos' = Universe.get_chunk u pos ->
  exists l s1,
    Universe.get_active_planets pos (u, p) = (Ok l, s1)
    /\ Universe.get_active_planets pos' s1 = (Ok l, s1).
Proof.
  intros Hsame.
  destruct (get_active_planets_run pos u p) as (u' & p' & Hq & Hext & Hall & _).
  exists (stored_around u' pos), (u', p'). split; [exact Hq|].
  assert (Hchunk : Universe.get_chunk u' pos' = Universe.get_chunk u pos).
  { rewrite <- Hsame. unfold Universe.get_chunk.
    destruct Hext as (-> & _). reflexivity. }
  unfold Universe.get_active_planets, bind, get. cbn [fst].
  rewrite Hchunk, (visit_cached _ _ _ Hall). cbn [app].
  unfold stored_around. do 3 f_equal.
  unfold Universe.get_chunk. destruct Hext as (-> & _). reflexivity.
Qed.

Lemma repeated_query_changes_nothing_witness :
  exists l s1,
    @Universe.get_active_planets demo_env (Vec3.mk 0 150 0)
       (Universe.__init__, @mkProc demo_env 1%Z 0 0) = (Ok l, s1)
    /\ @Universe.get_active_planets demo_env (Vec3.mk 10 150 5) s1 = (Ok l, s1).
Proof.
  apply (@repeated_query_changes_nothing demo_env).
  unfold Universe.get_chunk, Universe.floordiv, Universe.__init__.
  cbn [Universe.chunk_size Vec3.x Vec3.y Vec3.z].
  rewrite (Zfloor_eq 0 (10 / 2000)), (Zfloor_eq 0 (0 / 2000)),
    (Zfloor_eq 0 (5 / 2000)); [reflexivity | | |]; split; lra.
Defined.

(** *** Object identities in the cache *)

Lemma neighbours_NoDup (c : chunk) : NoDup (Universe.neighbours c).
Proof.
  destruct c as [[cx cy] cz]. unfold Universe.neighbours.
  cbn -[Z.add Z.sub].
  repeat (apply NoDup_cons_2;
          [ rewrite ?elem_of_cons, elem_of_nil;
            intros H; repeat (destruct H as [H|H]; [injection H; lia|]);
            exact H
          | ]).
  apply NoDup_nil_2.
Qed.

Lemma concat_map_submseteq {A B} (f : A -> list B) (l k : list A) :
  l ⊆+ k -> concat (map f l) ⊆+ concat (map f k).
Proof.
  induction 1 as [|x l k _ IH|x y l|x l k _ IH|l k m _ IH1 _ IH2]; cbn [map concat].
  - constructor.
  - now apply submseteq_skips_l.
  - rewrite !app_assoc. apply submseteq_app; [|reflexivity].
    apply Permutation_submseteq, Permutation_app_comm.
  - now apply submseteq_inserts_l.
  - now transitivity (concat (map f k)).
Qed.

Lemma submseteq_NoDup {A} (l k : list A) : l ⊆+ k -> NoDup k -> NoDup l.
Proof.
  intros Hsub Hnd. apply submseteq_Permutation in Hsub as [rest Hperm].
  rewrite Hperm in Hnd. now apply NoDup_app in Hnd as (? & _).
Qed.

Section Identity.
Context `{E : PyEnv}.

Lemma generate_planets_ids (n : nat) (size cx cy cz : Z) :
  forall (acc l : list Planet.t) (p q : Proc),
    Universe.generate_planets n size cx cy cz acc p = (Ok l, q) ->
    exists new,
      l = acc ++ new
      /\ map Planet.oid new = seq (next_oid p) n
      /\ next_oid q = (next_oid p + n)%nat.
Proof.
  induction n as [|n IH]; intros acc l p q H; cbn [Universe.generate_planets] in H.
  - unfold ret in H. injection H as <- <-. exists [].
    rewrite app_nil_r. split; [reflexivity|]. split; [reflexivity | lia].
  - unfold bind in H.
    destruct (generate_planet_agree size cx cy cz p p eq_refl)
      as (a & _ & p1 & _ & Ha & _ & _ & _ & Hid & Hnext).
    rewrite Ha in H. apply IH in H as (new & -> & Hids & Hq).
    exists (a :: new). rewrite <- app_assoc. split; [reflexivity|]. split.
    + cbn [map seq]. rewrite Hid, Hids, Hnext. reflexivity.
    + lia.
Qed.

Lemma generate_chunk_distinct (cx cy cz : Z) (s s' : Universe.state)
    (r : result unit) :
  distinct_objects s ->
  Universe.generate_chunk cx cy cz s = (r, s') -> distinct_objects s'.
Proof.
  destruct s as [u p]. intros (Hc & Hnd & Hlt) Hrun. cbn [fst snd] in *.
  destruct (Universe.planets u !! (cx, cy, cz)) as [l|] eqn:Hk.
  - unfold Universe.generate_chunk, bind, get in Hrun. cbn [fst] in Hrun.
    rewrite Hk in Hrun. injection Hrun as _ <-.
    exact (conj Hc (conj Hnd Hlt)).
  - destruct (generate_chunk_run cx cy cz u p) as (u1 & p1 & Hrun1 & _ & _ & Hc1).
    destruct (generate_chunk_fresh cx cy cz u p Hk) as (l & q & Hgen & Hrun2).
    rewrite Hrun2 in Hrun. injection Hrun as _ <-.
    rewrite Hrun2 in Hrun1. injection Hrun1 as <- <-.
    apply generate_planets_ids in Hgen as (new & -> & Hids & Hq).
    cbn [app next_oid] in *.
    assert (Hall : cached_bodies
                     (Universe.mk (Universe.chunk_size u)
                        (<[(cx, cy, cz) := new]> (Universe.planets u))
                        ((cx, cy, cz) :: Universe.generated u))
                   = new ++ cached_bodies u).
    { unfold cached_bodies. cbn [Universe.planets Universe.generated map concat].
      rewrite lookup_insert_eq. cbn [default]. do 2 f_equal.
      apply map_ext_Forall, Forall_forall. intros k Hin.
      rewrite lookup_insert_ne; [reflexivity|]. intros <-.
      apply (proj2 Hc) in Hin as [? Hin]. congruence. }
    split; [auto|]. cbn [fst snd]. rewrite Hall, map_app, Hids. split.
    + apply NoDup_app. split; [apply NoDup_seq|]. split; [|exact Hnd].
      intros x Hx Hold. apply elem_of_seq in Hx.
      apply list_elem_of_fmap in Hold as (b & -> & Hb).
      rewrite Forall_forall in Hlt. specialize (Hlt b Hb). lia.
    + apply Forall_app. split.
      * apply Forall_forall. intros b Hb.
        assert (Hin : Planet.oid b ∈ seq (next_oid p) (Z.to_nat
                        (fst (rng_randint 0 2 (rng_seed (hash_chunk (cx, cy, cz))))))).
        { rewrite <- Hids. apply list_elem_of_fmap. eauto. }
        apply elem_of_seq in Hin. lia.
      * eapply Forall_impl; [exact Hlt|]. cbn. intros b Hb. lia.
Qed.

Lemma visit_distinct (coords : list chunk) :
  forall (active : list Planet.t) (s s' : Universe.state)
         (r : result (list Planet.t)),
    distinct_objects s ->
    Universe.visit coords active s = (r, s') -> distinct_objects s'.
Proof.
  induction coords as [|[[x y] z] rest IH]; intros active s s' r Hs H;
    cbn [Universe.visit] in H.
  - unfold ret in H. injection H as _ <-. exact Hs.
  - apply bind_inv in H as [([] & s1 & Hgen & H) | (e & Hgen & _)];
      [|exact (generate_chunk_distinct _ _ _ _ _ _ Hs Hgen)].
    apply generate_chunk_distinct in Hgen; [|exact Hs].
    apply bind_inv in H as [(s2 & s3 & Hget & H) | (e & Hget & _)];
      [|discriminate Hget].
    unfold get in Hget. injection Hget as <- <-.
    destruct (Universe.planets (fst s1) !! (x, y, z)).
    + exact (IH _ _ _ _ Hgen H).
    + unfold raise in H. injection H as _ <-. exact Hgen.
Qed.

End Identity.

(** A query never returns the same planet object twice, and this stays
    so from one query to the next: in a universe whose cached bodies are
    distinct objects (a new universe is one), [get_active_planets]
    returns bodies with pairwise distinct identities and leaves such a
    universe. *)
Theorem query_returns_distinct_objects `{E : PyEnv} (pos : Vec3.t)
    (s : Universe.state) :
  distinct_objects s ->
  exists l s',
    Universe.get_active_planets pos s = (Ok l, s')
    /\ NoDup (map Planet.oid l)
    /\ distinct_objects s'.
Proof.
  destruct s as [u p]. intros Hs.
  destruct (get_active_planets_run pos u p) as (u' & p' & Hq & Hext & Hall & _).
  exists (stored_around u' pos), (u', p'). split; [exact Hq|].
  assert (Hs' : distinct_objects (u', p')).
  { unfold Universe.get_active_planets, bind, get in Hq. cbn [fst] in Hq.
    exact (visit_distinct _ _ _ _ _ Hs Hq). }
  split; [|exact Hs']. destruct Hs' as ((Hgnd & Hiff) & Hnd & _).
  cbn [fst] in *.
  apply (submseteq_NoDup _ (map Planet.oid (cached_bodies u'))); [|exact Hnd].
  apply fmap_submseteq. unfold stored_around, cached_bodies.
  apply concat_map_submseteq, NoDup_submseteq; [apply neighbours_NoDup|].
  intros k Hk. apply Hiff. rewrite Forall_forall in Hall.
  destruct Hext as (Hsize & _). unfold Universe.get_chunk in *.
  rewrite Hsize in Hk. exact (Hall k Hk).
Qed.

Lemma query_returns_distinct_objects_witness :
  exists l s',
    @Universe.get_active_planets demo_env (Vec3.mk 0 150 0)
       (Universe.__init__, @mkProc demo_env 1%Z 0 0) = (Ok l, s')
    /\ NoDup (map Planet.oid l).
Proof.
  assert (Hs : @distinct_objects demo_env
                 (Universe.__init__, @mkProc demo_env 1%Z 0 0)).
  { split; [split|split]; cbn.
    - apply NoDup_nil_2.
    - intros k. rewrite lookup_empty. split.
      + intros H. now apply not_elem_of_nil in H.
      + intros [? H]. discriminate.
    - apply NoDup_nil_2.
    - constructor. }
  destruct (@query_returns_distinct_objects demo_env (Vec3.mk 0 150 0) _ Hs)
    as (l & s' & Hq & Hnd & _).
  exists l, s'. split; assumption.
Defined.

(** *** Orbits *)

Lemma orbit_step_inv (dt : R) (centre : Vec3.t) (b b' : Planet.t) (d : R) :
  is_Some (Planet.parent b) ->
  as_number (Planet.orbitDistance b) = Some d -> 0.1 < d ->
  Planet.update_orbit dt centre b = Ok b' ->
  exists w,
    as_number (Planet.orbitSpeed b) = Some w
    /\ b' = Planet.set_pos
              (Vec3.mk (Vec3.x centre + cos (Planet.orbitAngle b + w * dt * 0.3) * d)
                       (Vec3.y (Planet.pos b))
                       (Vec3.z centre + sin (Planet.orbitAngle b + w * dt * 0.3) * d))
              (Planet.set_orbitAngle (Planet.orbitAngle b + w * dt * 0.3) b).
Proof.
  intros Hp Hd Hfar H.
  destruct (as_number (Planet.orbitSpeed b)) as [w|] eqn:Hw.
  - rewrite (update_orbit_moves dt centre b d w Hp Hd Hfar Hw) in H.
    injection H as <-. eauto.
  - unfold Planet.update_orbit, py_gt, py_number in H.
    rewrite Hd, Hw in H. cbn [rbind] in H.
    destruct (Rlt_dec 0.1 d); [|lra].
    rewrite bool_decide_eq_true_2 in H by assumption. discriminate H.
Qed.

(** An orbit step puts the body on the circle of radius [orbitDistance]
    around the centre it is given, in the horizontal plane, wherever the
    body was before; the height, the distance and the parent are kept. *)
Theorem orbit_step_stays_on_circle (dt : R) (centre : Vec3.t)
    (b b' : Planet.t) (d : R) :
  is_Some (Planet.parent b) ->
  as_number (Planet.orbitDistance b) = Some d -> 0.1 < d ->
  Planet.update_orbit dt centre b = Ok b' ->
  (Vec3.x (Planet.pos b') - Vec3.x centre) ^ 2
  + (Vec3.z (Planet.pos b') - Vec3.z centre) ^ 2 = d ^ 2
  /\ Vec3.y (Planet.pos b') = Vec3.y (Planet.pos b)
  /\ Planet.orbitDistance b' = Planet.orbitDistance b
  /\ Planet.parent b' = Planet.parent b.
Proof.
  intros Hp Hd Hfar H.
  destruct (orbit_step_inv dt centre b b' d Hp Hd Hfar H) as (w & _ & ->).
  cbn [Planet.pos Planet.set_pos Planet.set_orbitAngle Planet.orbitDistance
       Planet.parent Vec3.x Vec3.y Vec3.z].
  split; [|auto].
  set (a := Planet.orbitAngle b + w * dt * 0.3).
  pose proof (sin2_cos2 a) as Hsc. unfold Rsqr in Hsc. clearbody a.
  replace ((Vec3.x centre + cos a * d - Vec3.x centre) ^ 2
           + (Vec3.z centre + sin a * d - Vec3.z centre) ^ 2)
    with ((sin a * sin a + cos a * cos a) * d ^ 2) by ring.
  rewrite Hsc. ring.
Qed.

Lemma orbit_step_stays_on_circle_witness :
  let b := orbiter 1 (Vec3.mk 500 5 7) (Some 0%nat) (PInt 10) (PInt 0) in
  exists b',
    Planet.update_orbit (1 / 60) (Vec3.mk 100 0 0) b = Ok b'
    /\ (Vec3.x (Planet.pos b') - 100) ^ 2 + (Vec3.z (Planet.pos b') - 0) ^ 2
       = 10 ^ 2.
Proof.
  intros b.
  assert (Hp : is_Some (Planet.parent b)) by (cbn; eauto).
  assert (Hfar : 0.1 < 10) by lra.
  pose proof (update_orbit_moves (1 / 60) (Vec3.mk 100 0 0) b 10 0 Hp eq_refl
                Hfar eq_refl) as Hrun.
  eexists. split; [exact Hrun|].
  exact (proj1 (orbit_step_stays_on_circle (1 / 60) (Vec3.mk 100 0 0) b _ 10
                  Hp eq_refl Hfar Hrun)).
Defined.

(** Two orbit steps around the same centre amount to one step of the
    summed time, errors included. *)
Theorem orbit_steps_compose (dt1 dt2 : R) (centre : Vec3.t) (b : Planet.t) :
  (let+ b1 := Planet.update_orbit dt1 centre b in
   Planet.update_orbit dt2 centre b1)
  = Planet.update_orbit (dt1 + dt2) centre b.
Proof.
  unfold Planet.update_orbit, py_gt, py_number.
  destruct (as_number (Planet.orbitDistance b)) as [d|] eqn:Hd;
    cbn [rbind]; [|reflexivity].
  destruct (Rlt_dec 0.1 d) as [Hfar|Hnear]; cbn [andb].
  - destruct (Planet.parent b) as [ref|] eqn:Hp.
    + rewrite bool_decide_eq_true_2 by eauto.
      destruct (as_number (Planet.orbitSpeed b)) as [w|] eqn:Hw;
        cbn [rbind]; [|reflexivity].
      cbn [Planet.set_pos Planet.set_orbitAngle Planet.orbitDistance
           Planet.orbitSpeed Planet.parent Planet.orbitAngle Planet.pos
           Vec3.x Vec3.y Vec3.z].
      rewrite Hd, Hw. cbn [rbind].
      destruct (Rlt_dec 0.1 d); [|contradiction]. cbn [andb].
      rewrite bool_decide_eq_true_2 by eauto.
      replace (Planet.orbitAngle b + w * dt1 * 0.3 + w * dt2 * 0.3)
        with (Planet.orbitAngle b + w * (dt1 + dt2) * 0.3) by ring.
      reflexivity.
    + rewrite bool_decide_eq_false_2 by (intros [? ?]; discriminate).
      cbn [rbind]. rewrite Hd. cbn [rbind].
      destruct (Rlt_dec 0.1 d); [|contradiction]. cbn [andb].
      rewrite Hp, bool_decide_eq_false_2 by (intros [? ?]; discriminate).
      reflexivity.
  - cbn [rbind]. rewrite Hd. cbn [rbind].
    destruct (Rlt_dec 0.1 d); [contradiction|]. reflexivity.
Qed.

(** *** Groups that never move *)

Lemma update_loop_static (dt : R) (sys : SolarSystem.t) (indices : list nat) :
  Forall (fun b => Planet.parent b = None) (SolarSystem.bodies sys) ->
  SolarSystem.update_loop dt sys indices = Ok sys.
Proof.
  intros Hall. induction indices as [|i rest IH]; [reflexivity|].
  cbn [SolarSystem.update_loop].
  assert (Hi : SolarSystem.update_body dt sys i = Ok sys).
  { unfold SolarSystem.update_body.
    destruct (SolarSystem.bodies sys !! i) as [b|] eqn:Hb; [|reflexivity].
    rewrite Forall_forall in Hall.
    rewrite (Hall b (list_elem_of_lookup_2 _ _ _ Hb)). reflexivity. }
  rewrite Hi. exact IH.
Qed.

Lemma init_fields `{E : PyEnv} (pos : Vec3.t) (data : pyval)
    (heightmap_bytes : option entry) (p p' : Proc) (b : Planet.t) :
  Planet.__init__ pos data heightmap_bytes p = (Ok b, p') ->
  Planet.parent b = None /\ Planet.pos b = pos /\ Planet.oid b = next_oid p
  /\ py_get data "seed" (PStr "Unknown") = Ok (Planet.name b).
Proof.
  unfold Planet.__init__. intros H.
  apply bind_ok_inv in H as (self & p1 & Hid & H).
  unfold new_oid in Hid. injection Hid as <- <-.
  apply bind_ok_inv in H as (name & p2 & Hname & H).
  unfold lift_result in Hname. injection Hname as Hname _.
  repeat (apply bind_ok_inv in H; destruct H as (? & ? & _ & H)).
  unfold ret in H. injection H as <- _. cbn. auto.
Qed.

Section Static.
Context `{E : PyEnv}.

Lemma with_proc_init (pos : Vec3.t) (data : pyval) (h : option entry)
    (w w' : World) (b : Planet.t) :
  with_proc (Planet.__init__ pos data h) w = (Ok b, w') ->
  exists p', Planet.__init__ pos data h (proc w) = (Ok b, p')
             /\ w' = mkWorld (player w) (custom_systems w) p'.
Proof.
  unfold with_proc, zoom.
  destruct (Planet.__init__ pos data h (proc w)) as [r p'].
  intros [= -> <-]. eauto.
Qed.

Lemma galaxy_body_parentless (sys sys' : SolarSystem.t) (body_data : pyval)
    (w w' : World) :
  parentless sys ->
  galaxy_body sys body_data w = (Ok sys', w') -> parentless sys'.
Proof.
  unfold galaxy_body, parentless. intros Hsys H.
  apply bind_ok_inv in H as (d & w1 & _ & H).
  apply bind_ok_inv in H as (pos & w2 & _ & H).
  apply bind_ok_inv in H as (planet & w3 & Hinit & H).
  apply bind_ok_inv in H as (od & w4 & _ & H).
  apply bind_ok_inv in H as (os & w5 & _ & H).
  unfold ret in H. injection H as <- _.
  apply with_proc_init in Hinit as (p' & Hinit & _).
  apply init_fields in Hinit as (Hp & _).
  rewrite add_body_bodies. apply Forall_app. split; [exact Hsys|].
  constructor; [exact Hp | constructor].
Qed.

Lemma galaxy_bodies_parentless (items : list pyval) :
  forall (sys sys' : SolarSystem.t) (w w' : World),
    parentless sys ->
    galaxy_bodies sys items w = (Ok sys', w') -> parentless sys'.
Proof.
  induction items as [|item items IH]; intros sys sys' w w' Hsys H;
    cbn [galaxy_bodies] in H.
  - unfold ret in H. injection H as <- _. exact Hsys.
  - apply bind_ok_inv in H as (sys1 & w1 & H1 & H).
    eapply IH; [|exact H]. eapply galaxy_body_parentless; eassumption.
Qed.

Lemma galaxy_system_parentless (sys_data : pyval) (sys : SolarSystem.t)
    (w w' : World) :
  galaxy_system sys_data w = (Ok sys, w') -> parentless sys.
Proof.
  unfold galaxy_system. intros H.
  apply bind_ok_inv in H as (name & w1 & _ & H).
  apply bind_ok_inv in H as (base & w2 & _ & H).
  apply bind_ok_inv in H as (dx & w3 & _ & H).
  apply bind_ok_inv in H as (dz & w4 & _ & H).
  apply bind_ok_inv in H as (bodies & w5 & _ & H).
  apply bind_ok_inv in H as (items & w6 & _ & H).
  eapply galaxy_bodies_parentless; [|exact H]. constructor.
Qed.

Lemma galaxy_systems_parentless (descriptors : list pyval) :
  forall (w w' : World) (r : result unit),
    galaxy_systems descriptors w = (r, w') ->
    exists new,
      custom_systems w' = custom_systems w ++ new /\ Forall parentless new.
Proof.
  induction descriptors as [|d ds IH]; intros w w' r H;
    cbn [galaxy_systems] in H.
  - unfold ret in H. injection H as _ <-. exists [].
    rewrite app_nil_r. split; [reflexivity | constructor].
  - apply bind_inv in H as [(sys & w1 & Hsys & H) | (e & Hsys & _)].
    + pose proof (quiet_galaxy_system d _ _ _ Hsys) as [_ L1].
      apply galaxy_system_parentless in Hsys.
      apply bind_inv in H as [([] & w2 & Hpub & H) | (e & Hpub & _)];
        [|discriminate Hpub].
      unfold publish, modify in Hpub. injection Hpub as <-.
      apply IH in H as (new & L & Hall). cbn [custom_systems] in L.
      exists (sys :: new). rewrite L, L1, <- app_assoc.
      split; [reflexivity | now constructor].
    + pose proof (quiet_galaxy_system d _ _ _ Hsys) as [_ L1].
      exists []. rewrite L1, app_nil_r. split; [reflexivity | constructor].
Qed.

Lemma load_galaxy_parentless (z : archive) (w w' : World) (r : result unit) :
  load_galaxy z w = (r, w') ->
  exists new,
    custom_systems w' = custom_systems w ++ new /\ Forall parentless new.
Proof.
  assert (Hnone : exists new,
            custom_systems w = custom_systems w ++ new /\ Forall parentless new).
  { exists []. rewrite app_nil_r. split; [reflexivity | constructor]. }
  unfold load_galaxy. intros H.
  do 5 (apply bind_inv in H as [(? & ? & H1 & H) | (e & H1 & _)];
        apply lift_inv in H1 as [_ ->]; [|exact Hnone]).
  clear Hnone.
  apply bind_inv in H as [([] & w1 & Hloop & H) | (e & Hloop & _)];
    apply galaxy_systems_parentless in Hloop as (new & L & Hall);
    [|exists new; auto].
  apply bind_inv in H as [(name & w2 & H6 & H) | (e & H6 & _)];
    apply lift_inv in H6 as [_ ->]; [|exists new; auto].
  unfold set_ui_message, modify in H. injection H as _ <-.
  exists new. auto.
Qed.
End Static.

(** The groups a galaxy import adds never move: no body of theirs gets a
    parent, so [update] leaves each of them exactly as it is, whatever
    orbit distance and speed the manifest gave. *)
Theorem galaxy_groups_never_move `{E : PyEnv} (z : archive) (w : World) :
  exists new,
    custom_systems (snd (load_galaxy z w)) = custom_systems w ++ new
    /\ Forall (fun g => Forall (fun b => Planet.parent b = None)
                               (SolarSystem.bodies g)
                        /\ forall dt, SolarSystem.update dt g = Ok g) new.
Proof.
  destruct (load_galaxy z w) as [r w'] eqn:H.
  apply load_galaxy_parentless in H as (new & L & Hall).
  exists new. split; [exact L|].
  eapply Forall_impl; [exact Hall|]. cbn. intros g Hg. split; [exact Hg|].
  intros dt. now apply update_loop_static.
Qed.

(** *** Imports *)

Lemma set_ui_message_same (s : Saucer.t) :
  Saucer.set_ui_message (Saucer.ui_message s) s = s.
Proof. now destruct s. Qed.

Lemma list_index_inv {A} (l : list A) (i : Z) (a : A) :
  list_index l i = Ok a -> exists n, l !! n = Some a.
Proof.
  unfold list_index. destruct (_ && _)%bool; [|discriminate].
  destruct (l !! _) as [x|] eqn:Hx; [|discriminate].
  intros [= <-]. eauto.
Qed.

Lemma resolve_parent_cases (info : pyval) (sys : SolarSystem.t)
    (planet planet' : Planet.t) :
  resolve_parent info sys planet = Ok planet' ->
  planet' = planet
  \/ exists n q, SolarSystem.bodies sys !! n = Some q
                 /\ planet' = Planet.set_parent (Some (Planet.oid q)) planet.
Proof.
  unfold resolve_parent.
  destruct (py_get info "parentId" PNone) as [ref|e]; [|discriminate].
  cbn [rbind].
  assert (Hgen :
    (let+ ref0 := py_item info "parentId" in
     let+ r := py_number ref0 in
     if Rlt_dec r (INR (length (SolarSystem.bodies sys)))
     then match ref0 with
          | PInt i =>
              let+ q := list_index (SolarSystem.bodies sys) i in
              Ok (Planet.set_parent (Some (Planet.oid q)) planet)
          | PBool b =>
              let+ q := list_index (SolarSystem.bodies sys) (if b then 1 else 0)%Z in
              Ok (Planet.set_parent (Some (Planet.oid q)) planet)
          | _ => Raise TypeError
          end
     else Ok planet) = Ok planet' ->
    planet' = planet
    \/ exists n q, SolarSystem.bodies sys !! n = Some q
                   /\ planet' = Planet.set_parent (Some (Planet.oid q)) planet).
  { destruct (py_item info "parentId") as [ref0|e]; [|discriminate].
    cbn [rbind]. destruct (py_number ref0) as [r|e]; [|discriminate].
    cbn [rbind]. destruct (Rlt_dec _ _); [|intros [= <-]; now left].
    destruct ref0; try discriminate;
      (destruct (list_index _ _) as [q|e] eqn:Hq; [|discriminate]);
      cbn [rbind]; intros [= <-]; right;
      apply list_index_inv in Hq as [k Hk]; eauto. }
  destruct ref; try exact Hgen. intros [= <-]. now left.
Qed.

Lemma parents_precede_snoc (l : list Planet.t) (b : Planet.t) :
  parents_precede l ->
  (forall ref, Planet.parent b = Some ref ->
               exists i q, l !! i = Some q /\ Planet.oid q = ref) ->
  parents_precede (l ++ [b]).
Proof.
  intros Hl Hb j c ref Hj Hc.
  destruct (decide (j < length l)%nat) as [Hlt|Hge].
  - rewrite lookup_app_l in Hj by assumption.
    destruct (Hl j c ref Hj Hc) as (i & q & Hi & Hq & Hid).
    exists i, q. split; [assumption|]. split; [|assumption].
    rewrite lookup_app_l by lia. assumption.
  - rewrite lookup_app_r in Hj by lia.
    destruct (j - length l)%nat as [|k] eqn:Hk; [|discriminate Hj].
    injection Hj as <-.
    destruct (Hb ref Hc) as (i & q & Hq & Hid).
    pose proof (lookup_lt_Some _ _ _ Hq) as Hi.
    exists i, q. split; [lia|]. split; [|assumption].
    rewrite lookup_app_l by assumption. assumption.
Qed.

Section Imports.
Context `{E : PyEnv}.

Lemma load_body_skip (z : archive) (sys : SolarSystem.t) (info : pyval)
    (w : World) :
  listed z info = false -> load_body z sys info w = (Ok sys, w).
Proof.
  unfold listed, load_body, bind, lift_result.
  destruct (py_item info "file") as [file|e]; [|discriminate].
  now intros ->.
Qed.

Lemma load_body_precede (z : archive) (sys sys' : SolarSystem.t)
    (info : pyval) (w w' : World) :
  parents_precede (SolarSystem.bodies sys) ->
  load_body z sys info w = (Ok sys', w') ->
  parents_precede (SolarSystem.bodies sys').
Proof.
  unfold load_body. intros Hsys H.
  apply bind_ok_inv in H as (file & w1 & _ & H).
  destruct (in_namelist z file).
  2: { unfold ret in H. injection H as <- _. exact Hsys. }
  apply bind_ok_inv in H as (nested & w2 & _ & H).
  apply bind_ok_inv in H as (body_zip & w3 & _ & H).
  apply bind_ok_inv in H as (raw & w4 & _ & H).
  apply bind_ok_inv in H as (data & w5 & _ & H).
  apply bind_ok_inv in H as (h_bytes & w6 & _ & H).
  apply bind_ok_inv in H as (d & w7 & _ & H).
  apply bind_ok_inv in H as (pos & w8 & _ & H).
  apply bind_ok_inv in H as (planet & w9 & Hinit & H).
  apply bind_ok_inv in H as (od & w10 & _ & H).
  apply bind_ok_inv in H as (os & w11 & _ & H).
  apply bind_ok_inv in H as (planet' & w12 & Hres & H).
  unfold ret in H. injection H as <- _.
  apply with_proc_init in Hinit as (p' & Hinit & _).
  apply init_fields in Hinit as (Hp & _).
  apply lift_inv in Hres as [Hres _]. symmetry in Hres.
  rewrite add_body_bodies. apply parents_precede_snoc; [exact Hsys|].
  intros ref Href.
  apply resolve_parent_cases in Hres as [-> | (n & q & Hq & ->)].
  - cbn [Planet.parent Planet.set_orbit] in Href. congruence.
  - cbn [Planet.parent Planet.set_parent] in Href. injection Href as <-.
    eauto.
Qed.

Lemma load_bodies_precede (z : archive) (infos : list pyval) :
  forall (sys sys' : SolarSystem.t) (w w' : World),
    parents_precede (SolarSystem.bodies sys) ->
    load_bodies z sys infos w = (Ok sys', w') ->
    parents_precede (SolarSystem.bodies sys').
Proof.
  induction infos as [|info infos IH]; intros sys sys' w w' Hsys H;
    cbn [load_bodies] in H.
  - unfold ret in H. injection H as <- _. exact Hsys.
  - apply bind_ok_inv in H as (sys1 & w1 & H1 & H).
    eapply IH; [|exact H]. eapply load_body_precede; eassumption.
Qed.

(** *** What any import can change *)

Lemma appends_quiet {A} (c : M World A) : quiet c -> appends 0 c.
Proof.
  intros Hc w r w' H. destruct (Hc _ _ _ H) as [P L]. split.
  - exists []. rewrite app_nil_r. split; [exact L | cbn; lia].
  - rewrite P. apply set_ui_message_same.
Qed.

Lemma appends_mono {A} (n m : nat) (c : M World A) :
  (n <= m)%nat -> appends n c -> appends m c.
Proof.
  intros Hnm Hc w r w' H. destruct (Hc _ _ _ H) as [(new & L & Hlen) P].
  split; [|exact P]. exists new. split; [exact L | lia].
Qed.

Lemma appends_bind {A B} (n m : nat) (c : M World A) (k : A -> M World B) :
  appends n c -> (forall a, appends m (k a)) -> appends (n + m) (bind c k).
Proof.
  intros Hc Hk w r w' H.
  apply bind_inv in H as [(a & w1 & H1 & H2) | (e & H1 & _)].
  - destruct (Hc _ _ _ H1) as [(new1 & L1 & Hl1) P1].
    destruct (Hk a _ _ _ H2) as [(new2 & L2 & Hl2) P2]. split.
    + exists (new1 ++ new2). rewrite L2, L1, <- app_assoc.
      split; [reflexivity|]. rewrite length_app. lia.
    + rewrite <- P2, <- P1. now destruct (player w).
  - destruct (Hc _ _ _ H1) as [(new1 & L1 & Hl1) P1]. split; [|exact P1].
    exists new1. split; [exact L1 | lia].
Qed.

Lemma appends_lift_bind {A B} (n : nat) (x : result A) (k : A -> M World B) :
  (forall a, x = Ok a -> appends n (k a)) -> appends n (bind (lift_result x) k).
Proof.
  intros Hk w r w' H. unfold bind, lift_result in H. destruct x as [a|e].
  - exact (Hk a eq_refl _ _ _ H).
  - injection H as _ <-. split; [|apply set_ui_message_same].
    exists []. rewrite app_nil_r. split; [reflexivity | cbn; lia].
Qed.

Lemma appends_publish (sys : SolarSystem.t) : appends 1 (publish sys).
Proof.
  intros w r w' [= _ <-]. cbn [custom_systems player]. split.
  - exists [sys]. split; [reflexivity | cbn; lia].
  - apply set_ui_message_same.
Qed.

Lemma appends_msg (m : message) : appends 0 (set_ui_message m).
Proof.
  intros w r w' [= _ <-]. cbn [custom_systems player]. split.
  - exists []. rewrite app_nil_r. split; [reflexivity | cbn; lia].
  - now destruct (player w).
Qed.

Lemma appends_try {A} (n m : nat) (c : M World A) (h : exn -> M World A) :
  appends n c -> (forall e, appends m (h e)) -> appends (n + m) (try_except c h).
Proof.
  intros Hc Hh w r w' H. unfold try_except in H.
  destruct (c w) as [[a|e] w1] eqn:H1.
  - injection H as <- <-.
    exact (appends_mono n (n + m) c ltac:(lia) Hc _ _ _ H1).
  - destruct (Hc _ _ _ H1) as [(new1 & L1 & Hl1) P1].
    destruct (Hh e _ _ _ H) as [(new2 & L2 & Hl2) P2]. split.
    + exists (new1 ++ new2). rewrite L2, L1, <- app_assoc.
      split; [reflexivity|]. rewrite length_app. lia.
    + rewrite <- P2, <- P1. now destruct (player w).
Qed.

Lemma appends_tail (sys : SolarSystem.t) (m : message) :
  appends 1 (publish sys ;; set_ui_message m).
Proof. apply (appends_bind 1 0); [apply appends_publish | intros _; apply appends_msg]. Qed.

Lemma galaxy_systems_appends (descriptors : list pyval) :
  appends (length descriptors) (galaxy_systems descriptors).
Proof.
  induction descriptors as [|d ds IH]; cbn [galaxy_systems length].
  - apply appends_quiet, quiet_ret.
  - apply (appends_bind 0 (S (length ds)));
      [apply appends_quiet, quiet_galaxy_system | intros sys].
    apply (appends_bind 1 (length ds)); [apply appends_publish | intros _; exact IH].
Qed.

Lemma chars_length (s : string) : length (chars s) = String.length s.
Proof. induction s as [|c s IH]; cbn; [reflexivity | now rewrite IH]. Qed.

Lemma substring_length_le (n m : nat) (s : string) :
  (String.length (substring n m s) <= m)%nat.
Proof.
  revert n m. induction s as [|c s IH]; intros [|n] [|m]; cbn; try lia.
  - specialize (IH 0%nat m). lia.
  - apply (IH n 0%nat).
  - apply (IH n (S m)).
Qed.

Lemma first4_length (systems first : pyval) (descriptors : list pyval) :
  py_first4 systems = Ok first -> py_iter first = Ok descriptors ->
  (length descriptors <= 4)%nat.
Proof.
  destruct systems; try discriminate; intros [= <-] [= <-].
  - rewrite chars_length. apply substring_length_le.
  - rewrite length_take. lia.
Qed.

Lemma load_galaxy_appends (z : archive) : appends 4 (load_galaxy z).
Proof.
  unfold load_galaxy.
  apply appends_lift_bind. intros raw _.
  apply appends_lift_bind. intros galaxy _.
  apply appends_lift_bind. intros systems _.
  apply appends_lift_bind. intros first Hfirst.
  apply appends_lift_bind. intros descriptors Hdesc.
  pose proof (first4_length _ _ _ Hfirst Hdesc) as Hlen.
  apply (appends_mono (length descriptors + 0)); [lia|].
  apply appends_bind; [apply galaxy_systems_appends | intros _].
  apply appends_lift_bind. intros name _. apply appends_msg.
Qed.

Lemma load_solar_system_appends (z : archive) : appends 1 (load_solar_system z).
Proof.
  unfold load_solar_system.
  do 3 (apply appends_lift_bind; intros ? _).
  apply (appends_bind 0 1); [apply appends_quiet, quiet_player_pos | intros base].
  do 2 (apply appends_lift_bind; intros ? _).
  apply (appends_bind 0 1); [apply appends_quiet, quiet_load_bodies | intros sys].
  apply appends_tail.
Qed.

Lemma load_single_planet_appends (z : archive) :
  appends 1 (load_single_planet z).
Proof.
  unfold load_single_planet.
  do 3 (apply appends_lift_bind; intros ? _).
  apply (appends_bind 0 1); [apply appends_quiet, quiet_player_pos | intros base].
  do 4 (apply (appends_bind 0 1);
        [apply appends_quiet, quiet_with_proc | intros ?]).
  apply appends_tail.
Qed.

Lemma load_editor_zip_appends (file : option entry) :
  appends 4 (load_editor_zip file).
Proof.
  destruct file as [file|]; cbn [load_editor_zip].
  2: { apply (appends_mono 0); [lia | apply appends_quiet, quiet_ret]. }
  apply (appends_try 4 0); [|intros e; apply appends_msg].
  apply appends_lift_bind. intros z _.
  destruct (has_file z "galaxy_data.json"); [apply load_galaxy_appends|].
  destruct (has_file z "system_data.json");
    [apply (appends_mono 1); [lia | apply load_solar_system_appends]|].
  destruct (has_file z "planet_data.json");
    [apply (appends_mono 1); [lia | apply load_single_planet_appends]|].
  apply (appends_mono 0); [lia | apply appends_msg].
Qed.

Lemma with_proc_randint (a b : Z) (w w' : World) (n : Z) :
  with_proc (randint a b) w = (Ok n, w') ->
  n = fst (rng_randint a b (rng (proc w)))
  /\ player w' = player w /\ custom_systems w' = custom_systems w.
Proof.
  unfold with_proc, zoom, randint.
  destruct (rng_randint a b (rng (proc w))) as [m g].
  intros [= <- <-]. auto.
Qed.

End Imports.

(** A system import silently skips the entries whose file is not in the
    archive: the loop over the manifest does exactly what it does over the
    manifest without them. *)
Theorem missing_files_are_skipped `{E : PyEnv} (z : archive)
    (infos : list pyval) (sys : SolarSystem.t) (w : World) :
  load_bodies z sys infos w
  = load_bodies z sys (List.filter (listed z) infos) w.
Proof.
  revert sys w.
  induction infos as [|info infos IH]; intros sys w; [reflexivity|].
  cbn [load_bodies List.filter].
  destruct (listed z info) eqn:HL.
  - cbn [load_bodies]. unfold bind.
    destruct (load_body z sys info w) as [[sys1|e] w1]; [apply IH | reflexivity].
  - unfold bind. rewrite (load_body_skip z sys info w HL). apply IH.
Qed.

(** In the group a system import publishes, every parent reference
    designates a body placed earlier in the list: no body is its own
    parent and no two bodies orbit each other. *)
Theorem imported_parents_come_first `{E : PyEnv} (z : archive) (w w' : World) :
  load_solar_system z w = (Ok tt, w') ->
  exists sys,
    custom_systems w' = custom_systems w ++ [sys]
    /\ parents_precede (SolarSystem.bodies sys)
    /\ Saucer.ui_message (player w') = MsgLoadedSystem (SolarSystem.name sys).
Proof.
  unfold load_solar_system. intros H.
  apply bind_ok_inv in H as (raw & w1 & H1 & H).
  apply lift_inv in H1 as [_ ->].
  apply bind_ok_inv in H as (manifest & w1 & H1 & H).
  apply lift_inv in H1 as [_ ->].
  apply bind_ok_inv in H as (name & w1 & H1 & H).
  apply lift_inv in H1 as [_ ->].
  apply bind_ok_inv in H as (base & w1 & H1 & H).
  pose proof (quiet_player_pos _ _ _ H1) as [P1 L1].
  apply bind_ok_inv in H as (bodies & w2 & H2 & H).
  apply lift_inv in H2 as [_ ->].
  apply bind_ok_inv in H as (infos & w2 & H2 & H).
  apply lift_inv in H2 as [_ ->].
  apply bind_ok_inv in H as (sys & w2 & Hload & H).
  pose proof (quiet_load_bodies _ _ _ _ _ _ Hload) as [P2 L2].
  apply load_bodies_precede in Hload;
    [|intros j b ref Hj; cbn in Hj; now rewrite lookup_nil in Hj].
  unfold publish, set_ui_message, bind, modify in H. injection H as <-.
  exists sys. cbn [custom_systems player Saucer.ui_message Saucer.set_ui_message].
  split; [congruence|]. split; [exact Hload | reflexivity].
Qed.

(** The import of [pair_zip], whose second body names the first as its
    parent. *)
Lemma rock_init (pos : Vec3.t) (p : @Proc demo_env) :
  exists b p',
    @Planet.__init__ demo_env pos (PDict [("seed", PStr "Rock")]) None p
    = (Ok b, p')
    /\ Planet.parent b = None.
Proof.
  pose proof (@init_by_color demo_env pos [("seed", PStr "Rock")] None p
                (PStr "#4488ff") rock_converts eq_refl) as Hinit.
  rewrite (decode_color_well_formed "#4488ff" 68 136 255 eq_refl) in Hinit.
  destruct Hinit as (b & p' & Hrun & _ & _ & _ & _ & Hparent). eauto.
Qed.

Lemma load_rock (sys : SolarSystem.t) (ref : pyval) (w : @World demo_env) :
  exists b p',
    Planet.parent b = None
    /\ @load_body demo_env (archive_of pair_zip) sys (rock_info ref) w
       = match resolve_parent (rock_info ref) sys
                 (Planet.set_orbit (PInt 300) (PFloat 0.2) b)
         with
         | Ok planet =>
             (Ok (SolarSystem.add_body sys planet),
              @mkWorld demo_env (player w) (custom_systems w) p')
         | Raise e =>
             (Raise e, @mkWorld demo_env (player w) (custom_systems w) p')
         end.
Proof.
  destruct (rock_init (Vec3.add (SolarSystem.center_pos sys) (Vec3.mk 300 0 0))
              (proc w)) as (b & p' & Hrun & Hparent).
  exists b, p'. split; [exact Hparent|].
  unfold load_body, rock_info, pair_zip, rock_zip, archive_of, with_proc, zoom,
    bind, lift_result, ret.
  cbn -[Planet.__init__ resolve_parent]. rewrite Hrun.
  destruct (resolve_parent _ _ _); reflexivity.
Qed.

Lemma pair_import_run :
  exists first second sys w',
    @load_solar_system demo_env (archive_of pair_zip) demo_world = (Ok tt, w')
    /\ custom_systems w' = [sys]
    /\ SolarSystem.bodies sys = [first; second]
    /\ Planet.parent first = None
    /\ Planet.parent second = Some (Planet.oid first).
Proof.
  set (sys0 := SolarSystem.set_center_pos (Vec3.copy (Vec3.mk 0 150 0))
                 (SolarSystem.__init__ (PStr "Pair"))).
  destruct (load_rock sys0 PNone demo_world) as (b1 & p1 & Hp1 & Hrun1).
  change (resolve_parent (rock_info PNone) sys0
            (Planet.set_orbit (PInt 300) (PFloat 0.2) b1))
    with (Ok (Planet.set_orbit (PInt 300) (PFloat 0.2) b1)) in Hrun1.
  cbv beta iota in Hrun1.
  set (first := Planet.set_orbit (PInt 300) (PFloat 0.2) b1) in *.
  set (sys1 := SolarSystem.add_body sys0 first) in *.
  set (w1 := @mkWorld demo_env (player demo_world) (custom_systems demo_world) p1)
    in *.
  assert (Hb1 : SolarSystem.bodies sys1 = [first])
    by (unfold sys1; now rewrite add_body_bodies).
  destruct (load_rock sys1 (PInt 0) w1) as (b2 & p2 & Hp2 & Hrun2).
  rewrite (resolve_parent_int (rock_info (PInt 0)) sys1 _ 0 eq_refl), Hb1
    in Hrun2.
  cbn [length] in Hrun2. change (0 <? Z.of_nat 1)%Z with true in Hrun2.
  change (list_index [first] 0) with (Ok first) in Hrun2.
  cbn [rbind] in Hrun2. cbv beta iota in Hrun2.
  set (second := Planet.set_parent (Some (Planet.oid first))
                   (Planet.set_orbit (PInt 300) (PFloat 0.2) b2)) in *.
  exists first, second, (SolarSystem.add_body sys1 second). eexists.
  split; [|split; [|split; [|split]]].
  - change (@load_solar_system demo_env (archive_of pair_zip) demo_world)
      with (bind (@load_bodies demo_env (archive_of pair_zip) sys0
                    [rock_info PNone; rock_info (PInt 0)])
                 (fun sys => publish sys ;;
                             set_ui_message (MsgLoadedSystem (SolarSystem.name sys)))
                 demo_world).
    cbn [load_bodies]. unfold bind at 1. unfold bind at 1. rewrite Hrun1.
    unfold bind at 1. rewrite Hrun2. reflexivity.
  - reflexivity.
  - now rewrite add_body_bodies, Hb1.
  - exact Hp1.
  - reflexivity.
Qed.

Lemma imported_parents_come_first_witness :
  exists sys first second,
    custom_systems
      (snd (@load_solar_system demo_env (archive_of pair_zip) demo_world))
    = [sys]
    /\ SolarSystem.bodies sys = [first; second]
    /\ Planet.parent second = Some (Planet.oid first)
    /\ parents_precede (SolarSystem.bodies sys).
Proof.
  destruct pair_import_run as (first & second & sys & w' & Hrun & L & Hb & _ & Hp).
  destruct (@imported_parents_come_first demo_env _ _ _ Hrun)
    as (sys' & L' & Hpre & _).
  rewrite Hrun. cbn [snd]. rewrite L in L'. cbn in L'. injection L' as <-.
  exists sys, first, second. auto.
Defined.

(** Whatever file it is given, an import keeps the groups that were
    there, in their order, appends at most four, and changes nothing of
    the player but the status message. *)
Theorem import_only_appends `{E : PyEnv} (file : option entry) (w : World) :
  let out := load_editor_zip file w in
  (exists new,
     custom_systems (snd out) = custom_systems w ++ new
     /\ (length new <= 4)%nat)
  /\ Saucer.set_ui_message (Saucer.ui_message (player (snd out))) (player w)
     = player (snd out).
Proof.
  cbv zeta. destruct (load_editor_zip file w) as [r w'] eqn:H.
  exact (load_editor_zip_appends file w r w' H).
Qed.

(** A planet import that succeeds publishes one group holding the planet
    alone, named after it; the planet has no parent and, [randint] keeping
    to its range, lies 800 to 1400 units from the player along [x] and
    along [z] and 80 to 300 units above. *)
Theorem imported_planet_placement `{E : PyEnv} (z : archive) (w w' : World) :
  randint_in_range ->
  load_single_planet z w = (Ok tt, w') ->
  exists planet sys,
    custom_systems w' = custom_systems w ++ [sys]
    /\ SolarSystem.bodies sys = [planet]
    /\ SolarSystem.name sys = Planet.name planet
    /\ Planet.parent planet = None
    /\ (800 <= Vec3.x (Planet.pos planet) - Vec3.x (Saucer.pos (player w)) <= 1400
        /\ 80 <= Vec3.y (Planet.pos planet) - Vec3.y (Saucer.pos (player w)) <= 300
        /\ 800 <= Vec3.z (Planet.pos planet) - Vec3.z (Saucer.pos (player w)) <= 1400)
    /\ Saucer.ui_message (player w') = MsgLoadedPlanet (Planet.name planet).
Proof.
  intros Hr. unfold load_single_planet. intros H.
  apply bind_ok_inv in H as (raw & w1 & H1 & H).
  apply lift_inv in H1 as [_ ->].
  apply bind_ok_inv in H as (data & w1 & H1 & H).
  apply lift_inv in H1 as [_ ->].
  apply bind_ok_inv in H as (hm & w1 & H1 & H).
  apply lift_inv in H1 as [_ ->].
  apply bind_ok_inv in H as (base & w1 & H1 & H).
  unfold player_pos, bind, get, ret in H1. injection H1 as <- <-.
  apply bind_ok_inv in H as (dx & w1 & H1 & H).
  apply with_proc_randint in H1 as (-> & P1 & L1).
  apply bind_ok_inv in H as (dy & w2 & H2 & H).
  apply with_proc_randint in H2 as (-> & P2 & L2).
  apply bind_ok_inv in H as (dz & w3 & H3 & H).
  apply with_proc_randint in H3 as (-> & P3 & L3).
  apply bind_ok_inv in H as (planet & w4 & Hinit & H).
  apply with_proc_init in Hinit as (p' & Hinit & ->).
  apply init_fields in Hinit as (Hp & Hpos & _).
  unfold publish, set_ui_message, bind, modify in H. injection H as <-.
  exists planet. eexists.
  cbn [custom_systems player Saucer.ui_message Saucer.set_ui_message].
  split; [rewrite L3, L2, L1; reflexivity|].
  rewrite add_body_bodies, add_body_name. cbn [SolarSystem.__init__
    SolarSystem.bodies SolarSystem.name app].
  split; [reflexivity|]. split; [reflexivity|]. split; [exact Hp|].
  split; [|reflexivity].
  rewrite Hpos. unfold Vec3.add. cbn [Vec3.x Vec3.y Vec3.z].
  pose proof (Hr 800%Z 1400%Z (rng (proc w)) ltac:(lia)) as [Rx1 Rx2].
  pose proof (Hr 80%Z 300%Z (rng (proc w1)) ltac:(lia)) as [Ry1 Ry2].
  pose proof (Hr 800%Z 1400%Z (rng (proc w2)) ltac:(lia)) as [Rz1 Rz2].
  apply IZR_le in Rx1, Rx2, Ry1, Ry2, Rz1, Rz2.
  repeat split; lra.
Qed.

Lemma imported_planet_placement_witness :
  exists planet sys,
    custom_systems
      (snd (@load_single_planet demo_env (archive_of rock_zip) demo_world))
    = [sys]
    /\ SolarSystem.bodies sys = [planet]
    /\ 800 <= Vec3.x (Planet.pos planet) - 0 <= 1400.
Proof.
  destruct (@load_single_planet demo_env (archive_of rock_zip) demo_world)
    as [r w'] eqn:Hrun.
  assert (Hok : r = Ok tt).
  { change r with (fst (r, w')). rewrite <- Hrun. reflexivity. }
  subst r.
  destruct (@imported_planet_placement demo_env _ _ _ demo_randint_in_range Hrun)
    as (planet & sys & L & Hb & _ & _ & (Hx & _) & _).
  exists planet, sys. split; [exact L|]. split; [exact Hb | exact Hx].
Defined.

(** *** Colour text *)

Lemma digit_value_range (c : ascii) (d : Z) :
  digit_value c = Some d -> (0 <= d <= 15)%Z.
Proof.
  unfold digit_value.
  repeat match goal with
         | |- context [if (?a && ?b)%bool then _ else _] =>
             let H := fresh "H" in
             destruct (a && b)%bool eqn:H;
             [apply andb_true_iff in H as [?%Z.leb_le ?%Z.leb_le]|]
         end; intros [= <-]; lia.
Qed.

Lemma scan_digits_bound (s : list ascii) :
  forall (prev_us seen : bool) (acc n : Z) (sn : bool) (rest : list ascii),
    scan_digits s prev_us seen acc = Some (n, sn, rest) ->
    (0 <= acc)%Z ->
    (0 <= n < (acc + 1) * 16 ^ Z.of_nat (length s))%Z.
Proof.
  induction s as [|c s IH]; intros prev_us seen acc n sn rest H Hacc.
  - cbn in H. destruct prev_us; [discriminate|]. injection H as <- _ _.
    cbn. lia.
  - cbn [length]. rewrite Nat2Z.inj_succ, Z.pow_succ_r by lia.
    assert (Hpow : (0 < 16 ^ Z.of_nat (length s))%Z) by (apply Z.pow_pos_nonneg; lia).
    cbn [scan_digits] in H. destruct (Ascii.eqb c "_").
    + destruct prev_us; [discriminate|].
      apply IH in H; [|exact Hacc]. nia.
    + destruct (digit_value c) as [d|] eqn:Hd.
      * apply digit_value_range in Hd. apply IH in H; [|lia]. nia.
      * destruct prev_us; [discriminate|]. injection H as <- _ _. nia.
Qed.

Lemma skip_spaces_length (s : list ascii) :
  (length (skip_spaces s) <= length s)%nat.
Proof.
  induction s as [|c s IH]; cbn; [lia|]. destruct (is_space c); cbn; lia.
Qed.

Lemma strip_prefix_length (s : list ascii) :
  (length (strip_prefix s) <= length s)%nat.
Proof.
  destruct s as [|c0 [|c1 s]]; cbn; try lia.
  destruct (_ && _)%bool; cbn; [|lia].
  destruct s as [|c2 s]; cbn; [lia|]. destruct (Ascii.eqb c2 "_"); cbn; lia.
Qed.

Lemma strip_sign_cases (s : list ascii) :
  (fst (strip_sign s) = 1%Z /\ (length (snd (strip_sign s)) <= length s)%nat)
  \/ (fst (strip_sign s) = (-1)%Z /\ (length (snd (strip_sign s)) < length s)%nat).
Proof.
  destruct s as [|c s]; cbn; [left; split; [reflexivity | lia]|].
  destruct (Ascii.eqb c "+"); cbn; [left; split; [reflexivity | lia]|].
  destruct (Ascii.eqb c "-"); cbn; [right | left]; split; (reflexivity || lia).
Qed.

Lemma substring_ascii_length (n m : nat) (s : string) :
  (length (list_ascii_of_string (substring n m s)) <= m)%nat.
Proof.
  revert n m. induction s as [|c s IH]; intros [|n] [|m]; cbn; try lia.
  - specialize (IH 0%nat m). lia.
  - apply (IH n 0%nat).
  - apply (IH n (S m)).
Qed.

Lemma hex_pair_range (v : pyval) (start : nat) (n : Z) :
  hex_pair v start = Ok n -> (-15 <= n <= 255)%Z.
Proof.
  destruct v as [| | | |s| |]; try discriminate. unfold hex_pair, int16.
  pose proof (substring_ascii_length start 2 s) as Hlen.
  pose proof (skip_spaces_length (list_ascii_of_string (substring start 2 s)))
    as Hskip.
  set (s1 := skip_spaces _) in *. clearbody s1.
  pose proof (strip_sign_cases s1) as Hsign.
  destruct (strip_sign s1) as [sign s2]. cbn [fst snd] in Hsign.
  pose proof (strip_prefix_length s2) as Hpre.
  set (s3 := strip_prefix s2) in *. clearbody s3.
  destruct (starts_with_underscore s3); [discriminate|].
  destruct (scan_digits s3 false false 0) as [[[m []] rest]|] eqn:Hscan;
    try discriminate.
  destruct (skip_spaces rest); [|discriminate]. intros [= <-].
  apply scan_digits_bound in Hscan; [|lia].
  destruct Hsign as [[-> Hl] | [-> Hl]].
  - assert (Hle : (16 ^ Z.of_nat (length s3) <= 16 ^ 2)%Z)
      by (apply Z.pow_le_mono_r; lia).
    change (16 ^ 2)%Z with 256%Z in Hle. lia.
  - assert (Hle : (16 ^ Z.of_nat (length s3) <= 16 ^ 1)%Z)
      by (apply Z.pow_le_mono_r; lia).
    change (16 ^ 1)%Z with 16%Z in Hle. lia.
Qed.

(** A colour text that decodes gives channels that never exceed 1; a
    channel can be negative, down to [-15/255], because the parser of a
    pair of characters accepts a sign. *)
Theorem decoded_channels_in_range (ocean_hex : pyval) (r g b : R) :
  Planet.decode_color ocean_hex = Ok (r, g, b) ->
  (- 15 / 255 <= r <= 1) /\ (- 15 / 255 <= g <= 1) /\ (- 15 / 255 <= b <= 1).
Proof.
  unfold Planet.decode_color.
  destruct (hex_pair ocean_hex 1) as [vr|] eqn:Hr; [|discriminate].
  destruct (hex_pair ocean_hex 3) as [vg|] eqn:Hg; [|discriminate].
  destruct (hex_pair ocean_hex 5) as [vb|] eqn:Hb; [|discriminate].
  cbn [rbind]. intros [= <- <- <-].
  apply hex_pair_range in Hr as [R1 R2], Hg as [G1 G2], Hb as [B1 B2].
  apply IZR_le in R1, R2, G1, G2, B1, B2.
  repeat split; lra.
Qed.

Lemma decoded_channels_in_range_witness :
  exists r g b,
    Planet.decode_color (PStr "#-f00ff") = Ok (r, g, b)
    /\ r = IZR (-15) / 255 /\ b <= 1.
Proof.
  assert (Hrun : Planet.decode_color (PStr "#-f00ff")
                 = Ok (IZR (-15) / 255, IZR 0 / 255, IZR 255 / 255)).
  { unfold Planet.decode_color.
    replace (hex_pair (PStr "#-f00ff") 1) with (Ok (-15)%Z : result Z)
      by (vm_compute; reflexivity).
    replace (hex_pair (PStr "#-f00ff") 3) with (Ok 0%Z : result Z)
      by (vm_compute; reflexivity).
    replace (hex_pair (PStr "#-f00ff") 5) with (Ok 255%Z : result Z)
      by (vm_compute; reflexivity).
    reflexivity. }
  do 3 eexists. split; [exact Hrun|]. split; [reflexivity|].
  exact (proj2 (proj2 (proj2 (decoded_channels_in_range _ _ _ _ Hrun)))).
Defined.

(** *** The frame loop *)

(** Every star is drawn inside the box around the player, 1400 units
    each way along [x] and [z] and 1000 along [y], at its own position
    moved by a whole number of box widths and by half a box. *)
Theorem stars_wrap_around_player (star player_pos : Vec3.t) :
  let drawn := star_position star player_pos in
  (- 1400 <= Vec3.x drawn - Vec3.x player_pos < 1400
   /\ - 1000 <= Vec3.y drawn - Vec3.y player_pos < 1000
   /\ - 1400 <= Vec3.z drawn - Vec3.z player_pos < 1400)
  /\ exists i j k : Z,
       drawn = Vec3.add star (Vec3.mk (2800 * IZR i - 1400) (2000 * IZR j - 1000)
                                      (2800 * IZR k - 1400)).
Proof.
  cbv zeta. unfold star_position. cbn [Vec3.x Vec3.y Vec3.z]. split.
  - pose proof (py_mod_range (Vec3.x star - Vec3.x player_pos) 2800 ltac:(lra)).
    pose proof (py_mod_range (Vec3.y star - Vec3.y player_pos) 2000 ltac:(lra)).
    pose proof (py_mod_range (Vec3.z star - Vec3.z player_pos) 2800 ltac:(lra)).
    repeat split; lra.
  - exists (- Zfloor ((Vec3.x star - Vec3.x player_pos) / 2800))%Z,
           (- Zfloor ((Vec3.y star - Vec3.y player_pos) / 2000))%Z,
           (- Zfloor ((Vec3.z star - Vec3.z player_pos) / 2800))%Z.
    unfold py_mod, Vec3.add. cbn [Vec3.x Vec3.y Vec3.z]. rewrite !opp_IZR.
    apply (f_equal3 Vec3.mk); ring.
Qed.

(** The camera eye is on the sphere of radius [cam_dist] around the
    point 16 units above the craft, whatever the camera angles. *)
Theorem camera_eye_on_sphere (player : Saucer.t) :
  Vec3.dist (camera_eye player)
            (Vec3.add (Saucer.pos player) (Vec3.mk 0 16 0))
  = Rabs (Saucer.cam_dist player).
Proof.
  unfold Vec3.dist, Vec3.mag, Vec3.sub, Vec3.add, camera_eye.
  cbn [Vec3.x Vec3.y Vec3.z].
  set (y := radians (Saucer.cam_yaw player)).
  set (p := radians (Saucer.cam_pitch player)).
  set (d := Saucer.cam_dist player).
  pose proof (sin2_cos2 y) as Hy. pose proof (sin2_cos2 p) as Hp.
  unfold Rsqr in Hy, Hp. clearbody y p d.
  replace ((Vec3.x (Saucer.pos player) - sin y * cos p * d
            - (Vec3.x (Saucer.pos player) + 0)) ^ 2
           + (Vec3.y (Saucer.pos player) + sin p * d + 16
              - (Vec3.y (Saucer.pos player) + 16)) ^ 2
           + (Vec3.z (Saucer.pos player) - cos y * cos p * d
              - (Vec3.z (Saucer.pos player) + 0)) ^ 2)
    with (Rsqr d); [apply sqrt_Rsqr_abs|].
  unfold Rsqr.
  transitivity (((sin y * sin y + cos y * cos y) * (cos p * cos p)
                 + sin p * sin p) * (d * d)); [|ring].
  rewrite Hy, Rmult_1_l, Rplus_comm, Hp. ring.
Qed.

(** The import is called on the frames where the [I] key goes down, and
    on no other: a key held over many frames opens the dialog once. *)
Theorem import_fires_when_key_goes_down (frames : list bool)
    (i_pressed : bool) (n : nat) (key_i : bool) :
  frames !! n = Some key_i ->
  import_calls frames i_pressed !! n
  = Some (key_i && negb (nth n (i_pressed :: frames) false)).
Proof.
  revert i_pressed n key_i.
  induction frames as [|k rest IH]; intros i_pressed n key_i Hn;
    [now rewrite lookup_nil in Hn|].
  cbn [import_calls]. destruct n as [|n].
  - cbn in Hn. injection Hn as ->. cbn [nth].
    unfold import_key. now destruct key_i, i_pressed.
  - cbn in Hn.
    assert (Hflag : fst (import_key k i_pressed) = k)
      by (unfold import_key; now destruct k, i_pressed).
    destruct (import_key k i_pressed) as [flag called]. cbn [fst] in Hflag.
    subst flag. exact (IH k n key_i Hn).
Qed.

Lemma import_fires_when_key_goes_down_witness :
  import_calls [true; true; false; true] false !! 1%nat = Some false
  /\ import_calls [true; true; false; true] false !! 3%nat = Some true.
Proof.
  split.
  - exact (import_fires_when_key_goes_down [true; true; false; true] false 1
             true eq_refl).
  - exact (import_fires_when_key_goes_down [true; true; false; true] false 3
             true eq_refl).
Defined.

(** *** Frames: a landed craft stays with its planet *)

Lemma component_le_mag (a : Vec3.t) :
  Rabs (Vec3.x a) <= Vec3.mag a /\ Rabs (Vec3.y a) <= Vec3.mag a
  /\ Rabs (Vec3.z a) <= Vec3.mag a.
Proof.
  pose proof (mag_sqr a) as Hs. pose proof (mag_nonneg a) as Hn.
  set (m := Vec3.mag a) in *. clearbody m.
  destruct a as [x y z]. cbn [Vec3.x Vec3.y Vec3.z] in *.
  repeat split; apply Rabs_le; split; nra.
Qed.

Lemma axis_near (c : Z) (b v : R) :
  IZR (c * 2000) <= b <= IZR ((c + 1) * 2000) -> Rabs (v - b) <= 257 ->
  (c - 1 <= Universe.floordiv v 2000 <= c + 1)%Z.
Proof.
  intros [Hlo Hhi] Hnear.
  assert (Hn : -257 <= v - b <= 257)
    by (unfold Rabs in Hnear; destruct (Rcase_abs (v - b)); lra).
  rewrite mult_IZR in Hlo, Hhi. rewrite plus_IZR in Hhi.
  pose proof (proj1 (floordiv_spec 2000 v (Universe.floordiv v 2000) ltac:(lia))
                eq_refl) as [Hf1 Hf2].
  set (f := Universe.floordiv v 2000) in *. clearbody f. split.
  - assert (H : (c - 2 < f)%Z); [|lia].
    apply lt_IZR. rewrite minus_IZR. lra.
  - assert (H : (f < c + 2)%Z); [|lia].
    apply lt_IZR. rewrite plus_IZR. lra.
Qed.

Lemma neighbours_near (kx ky kz fx fy fz : Z) :
  (kx - 1 <= fx <= kx + 1)%Z -> (ky - 1 <= fy <= ky + 1)%Z ->
  (kz - 1 <= fz <= kz + 1)%Z ->
  In (kx, ky, kz) (Universe.neighbours (fx, fy, fz)).
Proof.
  intros Hx Hy Hz.
  assert (Ex : kx = (fx - 1)%Z \/ kx = fx \/ kx = (fx + 1)%Z) by lia.
  assert (Ey : ky = (fy - 1)%Z \/ ky = fy \/ ky = (fy + 1)%Z) by lia.
  assert (Ez : kz = (fz - 1)%Z \/ kz = fz \/ kz = (fz + 1)%Z) by lia.
  unfold Universe.neighbours. cbn -[Z.add Z.sub].
  destruct Ex as [-> | [-> | ->]], Ey as [-> | [-> | ->]],
    Ez as [-> | [-> | ->]];
    repeat first [left; reflexivity | right].
Qed.

Section Frames.
Context `{E : PyEnv}.

Lemma cached_is_active (u : Universe.t) (k : chunk) (body : Planet.t)
    (pos : Vec3.t) :
  Universe.chunk_size u = 2000%Z ->
  cached_at u k body -> in_cube 2000 k (Planet.pos body) ->
  Planet.radius body <= 250 ->
  Vec3.dist pos (Planet.pos body) <= Planet.radius body + 7 ->
  In body (stored_around u pos).
Proof.
  intros Hsize (l & Hl & Hin) Hcube Hrad Hnear.
  destruct k as [[kx ky] kz]. destruct Hcube as (Cx & Cy & Cz).
  destruct (component_le_mag (Vec3.sub pos (Planet.pos body)))
    as (Mx & My & Mz).
  unfold Vec3.dist in Hnear.
  set (m := Vec3.mag (Vec3.sub pos (Planet.pos body))) in *. clearbody m.
  unfold Vec3.sub in Mx, My, Mz. cbn [Vec3.x Vec3.y Vec3.z] in Mx, My, Mz.
  unfold stored_around. apply in_concat.
  exists l. split; [|exact Hin].
  apply in_map_iff. exists (kx, ky, kz). rewrite Hl. split; [reflexivity|].
  unfold Universe.get_chunk. rewrite Hsize.
  apply neighbours_near.
  - apply (axis_near kx (Vec3.x (Planet.pos body))); [exact Cx | lra].
  - apply (axis_near ky (Vec3.y (Planet.pos body))); [exact Cy | lra].
  - apply (axis_near kz (Vec3.z (Planet.pos body))); [exact Cz | lra].
Qed.
End Frames.

(** In the frame loop a craft cannot leave the planet it has landed on.
    For a craft landed within [radius + 7] of a cached body that lies in
    the cube of its chunk and has a radius of at most 250 (as generation
    makes them), the frame in which [SPACE] is held ends in flight at the
    same place, and the next frame, whatever the controls and whatever
    the state of the random generator, ends with the craft landed again:
    the body is still among the bodies the query returns. *)
Theorem no_way_off_a_planet `{E : PyEnv} (u : Universe.t) (p p' : Proc)
    (self : Saucer.t) (body : Planet.t) (k : chunk)
    (keys1 keys2 : key -> bool) (dx1 dy1 wd1 dx2 dy2 wd2 : Z)
    (rh1 rh2 : bool) :
  Universe.chunk_size u = 2000%Z ->
  cached_at u k body -> in_cube 2000 k (Planet.pos body) ->
  Planet.radius body <= 250 ->
  Saucer.landed_on self = Some body ->
  Vec3.dist (Saucer.pos self) (Planet.pos body) <= Planet.radius body + 7 ->
  -11 < Saucer.max_speed self ->
  keys1 K_SPACE = true ->
  exists s1 u1 p1 s2 st2,
    fly_frame self keys1 dx1 dy1 rh1 wd1 (u, p) = (Ok s1, (u1, p1))
    /\ Saucer.landed_on s1 = None
    /\ Saucer.pos s1 = Saucer.pos self
    /\ fly_frame s1 keys2 dx2 dy2 rh2 wd2 (u1, p') = (Ok s2, st2)
    /\ is_Some (Saucer.landed_on s2).
Proof.
  intros Hsize (l & Hl & Hin) Hcube Hrad Hon Hnear Hmax Hspace.
  destruct (get_active_planets_run (Saucer.pos self) u p)
    as (u1 & p1 & Hq1 & Hext1 & _).
  destruct (takeoff_tick self body keys1 (stored_around u1 (Saucer.pos self))
              dx1 dy1 wd1 rh1 Hon Hspace) as (L1 & S1 & P1 & M1).
  set (s1 := Saucer.update self keys1 (stored_around u1 (Saucer.pos self))
                           dx1 dy1 rh1 wd1) in *.
  destruct (get_active_planets_run (Saucer.pos s1) u1 p')
    as (u2 & p2 & Hq2 & Hext2 & _).
  pose proof (extends_trans _ _ _ Hext1 Hext2) as (Hsize2 & Hkeep & _).
  assert (Hactive : In body (stored_around u2 (Saucer.pos s1))).
  { rewrite P1. apply (cached_is_active u2 k); try assumption.
    - congruence.
    - exists l. split; [apply Hkeep; assumption | assumption]. }
  exists s1, u1, p1. eexists. exists (u2, p2).
  unfold fly_frame, bind, ret. rewrite Hq1. fold s1. rewrite Hq2.
  split; [reflexivity|]. split; [exact L1|]. split; [exact P1|].
  split; [reflexivity|].
  apply (slow_craft_relands _ body); try assumption.
  - rewrite M1. exact Hmax.
  - rewrite P1. exact Hnear.
Qed.

Lemma no_way_off_a_planet_witness :
  let body := body_at 0 (Vec3.mk 0 0 0) "planet" 100 in
  exists s1 u1 p1 s2 st2,
    @fly_frame demo_env (landed_at 107 body) only_space 0 0 false 0
       (lone_universe body, @mkProc demo_env 1%Z 1 0) = (Ok s1, (u1, p1))
    /\ Saucer.landed_on s1 = None
    /\ Saucer.pos s1 = Vec3.mk 0 0 107
    /\ @fly_frame demo_env s1 only_w 0 0 false 0 (u1, @mkProc demo_env 5%Z 9 0)
       = (Ok s2, st2)
    /\ is_Some (Saucer.landed_on s2).
Proof.
  intros body.
  apply (@no_way_off_a_planet demo_env (lone_universe body) _ _
           (landed_at 107 body) body (0, 0, 0)%Z).
  - reflexivity.
  - exists [body]. split; [apply lookup_singleton_eq | now left].
  - unfold in_cube, body, body_at. cbn [Planet.pos Vec3.x Vec3.y Vec3.z].
    rewrite !mult_IZR, !plus_IZR. repeat split; lra.
  - unfold body, body_at. cbn [Planet.radius]. lra.
  - reflexivity.
  - unfold Vec3.dist, landed_at, body, body_at, Vec3.sub.
    cbn [Saucer.pos Planet.pos Planet.radius Vec3.x Vec3.y Vec3.z].
    rewrite mag_along_z by lra. unfold Rabs. destruct (Rcase_abs _); lra.
  - cbn. lra.
  - reflexivity.
Defined.

(** *** Where a galaxy import puts the bodies *)

Section Line.
Context `{E : PyEnv}.

Lemma galaxy_body_along (y z : R) (sys sys' : SolarSystem.t)
    (body_data : pyval) (w w' : World) :
  along_x y z sys ->
  galaxy_body sys body_data w = (Ok sys', w') -> along_x y z sys'.
Proof.
  unfold galaxy_body. intros [[Hy Hz] Hall] H.
  apply bind_ok_inv in H as (d & w1 & _ & H).
  apply bind_ok_inv in H as (pos & w2 & Hpos & H).
  apply bind_ok_inv in H as (planet & w3 & Hinit & H).
  apply bind_ok_inv in H as (od & w4 & _ & H).
  apply bind_ok_inv in H as (os & w5 & _ & H).
  unfold ret in H. injection H as <- _.
  apply with_proc_init in Hinit as (p' & Hinit & _).
  apply init_fields in Hinit as (_ & Hp & _).
  apply lift_inv in Hpos as [Hpos _]. unfold offset_x in Hpos.
  destruct (py_number d) as [r|e]; [|discriminate Hpos].
  cbn [rbind] in Hpos. injection Hpos as Hpos.
  assert (Hplanet : Vec3.y (Planet.pos (Planet.set_orbit od os planet)) = y
                    /\ Vec3.z (Planet.pos (Planet.set_orbit od os planet)) = z).
  { cbn [Planet.pos Planet.set_orbit]. rewrite Hp, Hpos. unfold Vec3.add.
    cbn [Vec3.x Vec3.y Vec3.z]. split; lra. }
  split.
  - rewrite add_body_center. destruct (is_sun _); [exact Hplanet | auto].
  - rewrite add_body_bodies. apply Forall_app. split; [exact Hall|].
    constructor; [exact Hplanet | constructor].
Qed.

Lemma galaxy_bodies_along (y z : R) (items : list pyval) :
  forall (sys sys' : SolarSystem.t) (w w' : World),
    along_x y z sys ->
    galaxy_bodies sys items w = (Ok sys', w') -> along_x y z sys'.
Proof.
  induction items as [|item items IH]; intros sys sys' w w' Hsys H;
    cbn [galaxy_bodies] in H.
  - unfold ret in H. injection H as <- _. exact Hsys.
  - apply bind_ok_inv in H as (sys1 & w1 & H1 & H).
    eapply IH; [|exact H]. eapply galaxy_body_along; eassumption.
Qed.

Lemma galaxy_system_along (sys_data : pyval) (sys : SolarSystem.t)
    (w w' : World) :
  galaxy_system sys_data w = (Ok sys, w') ->
  exists z, along_x (Vec3.y (Saucer.pos (player w))) z sys.
Proof.
  unfold galaxy_system. intros H.
  apply bind_ok_inv in H as (name & w1 & H1 & H).
  apply lift_inv in H1 as [_ ->].
  apply bind_ok_inv in H as (base & w1 & H1 & H).
  unfold player_pos, bind, get, ret in H1. injection H1 as <- <-.
  apply bind_ok_inv in H as (dx & w3 & _ & H).
  apply bind_ok_inv in H as (dz & w4 & _ & H).
  apply bind_ok_inv in H as (bodies & w5 & _ & H).
  apply bind_ok_inv in H as (items & w6 & _ & H).
  exists (Vec3.z (Saucer.pos (player w)) + IZR dz).
  eapply galaxy_bodies_along; [|exact H].
  split; [|constructor].
  cbn [SolarSystem.center_pos SolarSystem.set_center_pos]. unfold Vec3.add.
  cbn [Vec3.x Vec3.y Vec3.z]. split; lra.
Qed.

Lemma galaxy_systems_along (descriptors : list pyval) :
  forall (w w' : World) (r : result unit),
    galaxy_systems descriptors w = (r, w') ->
    exists new,
      custom_systems w' = custom_systems w ++ new
      /\ Forall (fun g => exists z,
                   along_x (Vec3.y (Saucer.pos (player w))) z g) new.
Proof.
  induction descriptors as [|d ds IH]; intros w w' r H;
    cbn [galaxy_systems] in H.
  - unfold ret in H. injection H as _ <-. exists [].
    rewrite app_nil_r. split; [reflexivity | constructor].
  - apply bind_inv in H as [(sys & w1 & Hsys & H) | (e & Hsys & _)].
    + pose proof (quiet_galaxy_system d _ _ _ Hsys) as [P1 L1].
      apply galaxy_system_along in Hsys.
      apply bind_inv in H as [([] & w2 & Hpub & H) | (e & Hpub & _)];
        [|discriminate Hpub].
      unfold publish, modify in Hpub. injection Hpub as <-.
      apply IH in H as (new & L & Hall). cbn [custom_systems player] in L, Hall.
      exists (sys :: new). rewrite L, L1, <- app_assoc.
      split; [reflexivity|]. constructor; [exact Hsys|].
      now rewrite P1 in Hall.
    + pose proof (quiet_galaxy_system d _ _ _ Hsys) as [_ L1].
      exists []. rewrite L1, app_nil_r. split; [reflexivity | constructor].
Qed.

Lemma load_galaxy_along (z : archive) (w w' : World) (r : result unit) :
  load_galaxy z w = (r, w') ->
  exists new,
    custom_systems w' = custom_systems w ++ new
    /\ Forall (fun g => exists d,
                 along_x (Vec3.y (Saucer.pos (player w))) d g) new.
Proof.
  assert (Hnone : exists new,
            custom_systems w = custom_systems w ++ new
            /\ Forall (fun g => exists d,
                         along_x (Vec3.y (Saucer.pos (player w))) d g) new).
  { exists []. rewrite app_nil_r. split; [reflexivity | constructor]. }
  unfold load_galaxy. intros H.
  do 5 (apply bind_inv in H as [(? & ? & H1 & H) | (e & H1 & _)];
        apply lift_inv in H1 as [_ ->]; [|exact Hnone]).
  clear Hnone.
  apply bind_inv in H as [([] & w1 & Hloop & H) | (e & Hloop & _)];
    apply galaxy_systems_along in Hloop as (new & L & Hall);
    [|exists new; auto].
  apply bind_inv in H as [(name & w2 & H6 & H) | (e & H6 & _)];
    apply lift_inv in H6 as [_ ->]; [|exists new; auto].
  unfold set_ui_message, modify in H. injection H as _ <-.
  exists new. auto.
Qed.
End Line.

(** Every group a galaxy import adds lies on one line parallel to the
    [x] axis, at the height of the player: its centre and all its bodies
    share their [y], the player's, and their [z]. *)
Theorem galaxy_bodies_lie_on_a_line `{E : PyEnv} (z : archive) (w : World) :
  exists new,
    custom_systems (snd (load_galaxy z w)) = custom_systems w ++ new
    /\ Forall (fun g => exists d,
                 along_x (Vec3.y (Saucer.pos (player w))) d g) new.
Proof.
  destruct (load_galaxy z w) as [r w'] eqn:H.
  exact (load_galaxy_along z w w' r H).
Qed.
